(** * The EFA completion queue (prov/efa/src/efa_cq.c)

    A shallow embedding of the completion-queue code of the EFA provider:
    the opcode-to-flags conversion, the three entry formatters, the poll
    error translation, [efa_cq_readfrom], [efa_cq_readerr], [efa_cq_close]
    and [efa_cq_open], and the properties of the queue proved about them. *)

From Stdlib Require Import ZArith List Bool Lia.
Import ListNotations.
Open Scope Z_scope.

(** ** Constants and macros of the headers

    [efa_cq.c] takes its error numbers, flag bits, version macros, default
    sizes and structure sizes from <errno.h>, <rdma/fabric.h>,
    <rdma/fi_errno.h>, [efa.h] and <infiniband/verbs.h>.  They are kept as
    parameters of the development; the facts recorded with them are the
    ones a C implementation guarantees (error numbers are positive [int]s,
    [sizeof] is a non-negative [size_t] that fits [ssize_t]). *)

Definition INT_MAX : Z := 2 ^ 31 - 1.
Definition SSIZE_MAX : Z := 2 ^ 63 - 1.

Class headers : Type := {
  ENOENT : Z;
  EINVAL : Z;
  EIO : Z;
  FI_EAGAIN : Z;
  FI_EAVAIL : Z;
  FI_ENOSYS : Z;
  FI_ENOMEM : Z;
  FI_EINVAL : Z;
  FI_SEND : Z;
  FI_RECV : Z;
  FI_MSG : Z;
  FI_VERSION : Z -> Z -> Z;
  FI_VERSION_GE : Z -> Z -> bool;
  FI_ADDR_NOTAVAIL : Z;
  EFA_DEF_CQ_SIZE : Z;
  sizeof_fi_cq_entry : Z;
  sizeof_fi_cq_msg_entry : Z;
  sizeof_fi_cq_data_entry : Z;
  sizeof_fi_cq_err_entry : Z;
  errno_range :
    Forall (fun e => 0 < e <= INT_MAX)
      [ENOENT; EINVAL; EIO; FI_EAGAIN; FI_EAVAIL; FI_ENOSYS; FI_ENOMEM;
       FI_EINVAL];
  sizeof_range :
    Forall (fun s => 0 <= s <= SSIZE_MAX)
      [sizeof_fi_cq_entry; sizeof_fi_cq_msg_entry; sizeof_fi_cq_data_entry;
       sizeof_fi_cq_err_entry]
}.

(** The values of a Linux build: <errno.h> numbers, the flag bits and the
    version macros of <rdma/fabric.h>, the LP64 structure sizes. *)
Definition FI_MAJOR (version : Z) : Z := Z.shiftr version 16.
Definition FI_MINOR (version : Z) : Z := Z.land version 65535.

Definition linux_FI_VERSION (major minor : Z) : Z :=
  Z.lor (Z.shiftl major 16) minor.

Definition linux_FI_VERSION_GE (v1 v2 : Z) : bool :=
  (FI_MAJOR v2 <? FI_MAJOR v1)
  || ((FI_MAJOR v1 =? FI_MAJOR v2) && (FI_MINOR v1 =? FI_MINOR v2))
  || ((FI_MAJOR v1 =? FI_MAJOR v2) && (FI_MINOR v2 <? FI_MINOR v1)).

Definition linux_headers : headers := {|
  ENOENT := 2;
  EINVAL := 22;
  EIO := 5;
  FI_EAGAIN := 11;
  FI_EAVAIL := 259;
  FI_ENOSYS := 38;
  FI_ENOMEM := 12;
  FI_EINVAL := 22;
  FI_SEND := Z.shiftl 1 11;
  FI_RECV := Z.shiftl 1 10;
  FI_MSG := Z.shiftl 1 1;
  FI_VERSION := linux_FI_VERSION;
  FI_VERSION_GE := linux_FI_VERSION_GE;
  FI_ADDR_NOTAVAIL := 2 ^ 64 - 1;
  EFA_DEF_CQ_SIZE := 1024;
  sizeof_fi_cq_entry := 8;
  sizeof_fi_cq_msg_entry := 24;
  sizeof_fi_cq_data_entry := 40;
  sizeof_fi_cq_err_entry := 80;
  errno_range := ltac:(repeat constructor; unfold INT_MAX; lia);
  sizeof_range := ltac:(repeat constructor; unfold SSIZE_MAX; lia)
|}.

(** ** Integer conversions of the C code *)

(** [size_t] to [int] (the index argument of the formatters). *)
Definition int_of_size_t (n : Z) : Z :=
  (n + 2 ^ 31) mod 2 ^ 32 - 2 ^ 31.

(** A value converted to [size_t] and to [ssize_t] (the two arms of the
    conditional expression [efa_cq_readfrom] returns). *)
Definition size_t_of (n : Z) : Z := n mod 2 ^ 64.
Definition ssize_t_of (n : Z) : Z := (n + 2 ^ 63) mod 2 ^ 64 - 2 ^ 63.

(** [size_t] to [uint32_t] (the [cqe] field of the ring creation
    attributes). *)
Definition uint32_of (n : Z) : Z := n mod 2 ^ 32.

(** [uint32_t] to [uint16_t] (the [slid] field of [struct ibv_wc]). *)
Definition uint16_of (n : Z) : Z := n mod 2 ^ 16.

(** ** How a call can fail to return *)

Inductive stop : Type :=
| AssertFailed      (* assert(0) *)
| OutOfBounds       (* a store outside the caller's array *)
| NullPointer       (* a null entry of the queue-pair table is followed *)
| BadLayout         (* the buffer is not an array of the bound layout *)
| SpinForever.      (* the spinlock is already held *)

Inductive result (A : Type) : Type :=
| Ok (a : A)
| Stop (s : stop).
Arguments Ok {A} a.
Arguments Stop {A} s.

(** ** Enumerations of the headers *)

(** [enum ibv_wc_opcode] of <infiniband/verbs.h>. *)
Inductive ibv_wc_opcode : Type :=
| IBV_WC_SEND
| IBV_WC_RDMA_WRITE
| IBV_WC_RDMA_READ
| IBV_WC_COMP_SWAP
| IBV_WC_FETCH_ADD
| IBV_WC_BIND_MW
| IBV_WC_LOCAL_INV
| IBV_WC_TSO
| IBV_WC_RECV
| IBV_WC_RECV_RDMA_WITH_IMM.

(** [enum fi_cq_format] of <rdma/fi_eq.h>; [FI_CQ_FORMAT_other] stands for
    any value the [switch] of [efa_cq_open] sends to [default]. *)
Inductive fi_cq_format : Type :=
| FI_CQ_FORMAT_UNSPEC
| FI_CQ_FORMAT_CONTEXT
| FI_CQ_FORMAT_MSG
| FI_CQ_FORMAT_DATA
| FI_CQ_FORMAT_TAGGED
| FI_CQ_FORMAT_other (raw : Z).

(** [enum fi_wait_obj] of <rdma/fabric.h>. *)
Inductive fi_wait_obj : Type :=
| FI_WAIT_NONE
| FI_WAIT_UNSPEC
| FI_WAIT_SET
| FI_WAIT_FD
| FI_WAIT_MUTEX_COND
| FI_WAIT_YIELD
| FI_WAIT_POLLFD.

Definition fi_wait_obj_eqb (a b : fi_wait_obj) : bool :=
  match a, b with
  | FI_WAIT_NONE, FI_WAIT_NONE
  | FI_WAIT_UNSPEC, FI_WAIT_UNSPEC
  | FI_WAIT_SET, FI_WAIT_SET
  | FI_WAIT_FD, FI_WAIT_FD
  | FI_WAIT_MUTEX_COND, FI_WAIT_MUTEX_COND
  | FI_WAIT_YIELD, FI_WAIT_YIELD
  | FI_WAIT_POLLFD, FI_WAIT_POLLFD => true
  | _, _ => false
  end.

(** ** The vendor completion ring *)

Module Verbs.

(** Modelled from the spec: one completion of the vendor ring, with the
    fields <infiniband/verbs.h> lets a poller read (work-request
    identifier, status, opcode, byte length, queue-pair numbers, link-layer
    identifiers, immediate data). *)
Record ibv_cqe : Type := {
  cqe_wr_id : Z;
  cqe_status : Z;
  cqe_opcode : ibv_wc_opcode;
  cqe_vendor_err : Z;
  cqe_byte_len : Z;
  cqe_imm_data : Z;
  cqe_qp_num : Z;
  cqe_src_qp : Z;
  cqe_wc_flags : Z;
  cqe_slid : Z;
  cqe_sl : Z
}.

(** Modelled from the spec: what the ring holds at one position, a
    completion, or a ring-level fault that the cursor move reaching it
    reports with the given code. *)
Inductive ring_slot : Type :=
| Completion (c : ibv_cqe)
| RingFault (code : Z).

(** Modelled from the spec: where the cursor of a poll session stands: on
    no completion, on a completion the poller has not read, or on one it
    has read. *)
Inductive cursor_state : Type :=
| Off
| Unread
| Read.

(** Modelled from the spec: [struct ibv_cq_ex] of <infiniband/verbs.h>,
    which is not part of the repository.  [status] and [wr_id] are its
    public fields, [cur_cqe] the record its accessors read, [ring] the
    slots not consumed yet, oldest first, [polling] tells whether a poll
    session is open, [pos] is the index in [ring] of the slot the cursor
    is at and [cursor] says how the cursor stands on it.  The fields and
    the record under the cursor keep their last value after the session
    ends (the sticky status). *)
Record ibv_cq_ex : Type := {
  status : Z;
  wr_id : Z;
  cur_cqe : ibv_cqe;
  ring : list ring_slot;
  polling : bool;
  pos : nat;
  cursor : cursor_state
}.

Definition remove_at {A : Type} (n : nat) (l : list A) : list A :=
  firstn n l ++ skipn (S n) l.

(** Modelled from the spec: reading the completion under the cursor marks
    its slot. *)
Definition read_current (cq : ibv_cq_ex) : ibv_cq_ex :=
  match cursor cq with
  | Unread =>
      {| status := status cq; wr_id := wr_id cq; cur_cqe := cur_cqe cq;
         ring := ring cq; polling := polling cq; pos := pos cq;
         cursor := Read |}
  | _ => cq
  end.

(** Modelled from the spec: the ring once the cursor has left the slot it
    is on.  A completion that was read is consumed: it leaves the ring
    and cannot be read again.  A completion that was not read stays, and
    so does a ring fault. *)
Definition consume (cq : ibv_cq_ex) : list ring_slot :=
  match cursor cq with
  | Read => remove_at (pos cq) (ring cq)
  | _ => ring cq
  end.

(** Modelled from the spec: the cursor leaves its slot and stands before
    the next one. *)
Definition leave_slot (cq : ibv_cq_ex) : ibv_cq_ex :=
  {| status := status cq; wr_id := wr_id cq; cur_cqe := cur_cqe cq;
     ring := consume cq; polling := polling cq;
     pos := match cursor cq with Unread => S (pos cq) | _ => pos cq end;
     cursor := Off |}.

(** Modelled from the spec: the cursor move shared by start and advance.
    It positions the cursor on the completion at [pos] and answers 0, or
    fails with the no-more-entries code ENOENT when there is none, or with
    the code of a ring fault.  A failed move changes nothing. *)
Definition move_cursor {hdr : headers} (cq : ibv_cq_ex) : Z * ibv_cq_ex :=
  match nth_error (ring cq) (pos cq) with
  | None => (ENOENT, cq)
  | Some (Completion c) =>
      (0, {| status := cqe_status c; wr_id := cqe_wr_id c; cur_cqe := c;
             ring := ring cq; polling := polling cq; pos := pos cq;
             cursor := Unread |})
  | Some (RingFault code) => (code, cq)
  end.

Definition set_polling (b : bool) (cq : ibv_cq_ex) : ibv_cq_ex :=
  {| status := status cq; wr_id := wr_id cq; cur_cqe := cur_cqe cq;
     ring := ring cq; polling := b; pos := pos cq; cursor := cursor cq |}.

(** Modelled from the spec: the cursor before the first slot of the ring,
    where a session begins. *)
Definition rewind (cq : ibv_cq_ex) : ibv_cq_ex :=
  {| status := status cq; wr_id := wr_id cq; cur_cqe := cur_cqe cq;
     ring := ring cq; polling := polling cq; pos := 0; cursor := Off |}.

(** Modelled from the spec: [ibv_start_poll] begins a session and
    positions the cursor on the first available completion; the session is
    open only when it answers 0, and a start that fails leaves the ring as
    it was.  The source notes that EFA answers [EINVAL] to a non-zero
    [comp_mask]. *)
Definition ibv_start_poll {hdr : headers} (cq : ibv_cq_ex) (comp_mask : Z)
  : Z * ibv_cq_ex :=
  if comp_mask =? 0 then
    let '(r, cq') := move_cursor (rewind cq) in
    (r, if r =? 0 then set_polling true cq' else cq)
  else (EINVAL, cq).

(** Modelled from the spec: [ibv_next_poll] leaves the slot the cursor is
    on and moves to the next completion, with the failures of the
    start. *)
Definition ibv_next_poll {hdr : headers} (cq : ibv_cq_ex) : Z * ibv_cq_ex :=
  move_cursor (leave_slot cq).

(** Modelled from the spec: [ibv_end_poll] leaves the slot the cursor is
    on and closes the session. *)
Definition ibv_end_poll (cq : ibv_cq_ex) : ibv_cq_ex :=
  set_polling false (rewind (leave_slot cq)).

(** Modelled from the spec: the [ibv_wc_read_*] accessors give the fields
    of the completion under the cursor; they keep answering after the
    session, from the record the cursor was last on. *)
Definition ibv_wc_read_vendor_err (cq : ibv_cq_ex) : Z :=
  cqe_vendor_err (cur_cqe cq).
Definition ibv_wc_read_wc_flags (cq : ibv_cq_ex) : Z :=
  cqe_wc_flags (cur_cqe cq).
Definition ibv_wc_read_qp_num (cq : ibv_cq_ex) : Z :=
  cqe_qp_num (cur_cqe cq).
Definition ibv_wc_read_opcode (cq : ibv_cq_ex) : ibv_wc_opcode :=
  cqe_opcode (cur_cqe cq).
Definition ibv_wc_read_byte_len (cq : ibv_cq_ex) : Z :=
  cqe_byte_len (cur_cqe cq).
Definition ibv_wc_read_src_qp (cq : ibv_cq_ex) : Z :=
  cqe_src_qp (cur_cqe cq).
Definition ibv_wc_read_sl (cq : ibv_cq_ex) : Z :=
  cqe_sl (cur_cqe cq).
Definition ibv_wc_read_slid (cq : ibv_cq_ex) : Z :=
  cqe_slid (cur_cqe cq).
Definition ibv_wc_read_imm_data (cq : ibv_cq_ex) : Z :=
  cqe_imm_data (cur_cqe cq).

(** [struct ibv_wc]. *)
Record ibv_wc : Type := {
  wc_wr_id : Z;
  wc_status : Z;
  wc_opcode : ibv_wc_opcode;
  wc_vendor_err : Z;
  wc_byte_len : Z;
  wc_imm_data : Z;
  wc_qp_num : Z;
  wc_src_qp : Z;
  wc_wc_flags : Z;
  wc_pkey_index : Z;
  wc_slid : Z;
  wc_sl : Z;
  wc_dlid_path_bits : Z
}.

End Verbs.

(** ** A result monad for the calls that may stop *)

Definition bind_result {A B : Type} (r : result A) (k : A -> result B)
  : result B :=
  match r with
  | Ok a => k a
  | Stop s => Stop s
  end.

Notation "'let?' x ':=' r 'in' k" := (bind_result r (fun x => k))
  (at level 10, x pattern, r at level 100, k at level 200).

(** [a[i]] and [a[i] = f(a[i])] on a caller-supplied array; an index
    outside the array is undefined behaviour in C. *)
Definition in_bounds {T : Type} (a : list T) (i : Z) : bool :=
  (0 <=? i) && (i <? Z.of_nat (length a)).

Definition load {T : Type} (a : list T) (i : Z) : result T :=
  if in_bounds a i then
    match nth_error a (Z.to_nat i) with
    | Some x => Ok x
    | None => Stop OutOfBounds
    end
  else Stop OutOfBounds.

Fixpoint update_nth {T : Type} (n : nat) (f : T -> T) (a : list T)
  : list T :=
  match a, n with
  | [], _ => []
  | x :: a', O => f x :: a'
  | x :: a', S n' => x :: update_nth n' f a'
  end.

Definition store {T : Type} (a : list T) (i : Z) (f : T -> T)
  : result (list T) :=
  if in_bounds a i then Ok (update_nth (Z.to_nat i) f a)
  else Stop OutOfBounds.

(** ** Data of the queue *)

(** The three public entry layouts of <rdma/fi_eq.h>, and the error
    record. *)
Record fi_cq_entry : Type := { ce_op_context : Z }.

Record fi_cq_msg_entry : Type := {
  me_op_context : Z;
  me_flags : Z;
  me_len : Z
}.

Record fi_cq_data_entry : Type := {
  de_op_context : Z;
  de_flags : Z;
  de_len : Z;
  de_buf : Z;
  de_data : Z
}.

Record fi_cq_err_entry : Type := {
  op_context : Z;
  flags : Z;
  len : Z;
  buf : Z;
  data : Z;
  tag : Z;
  olen : Z;
  err : Z;
  prov_errno : Z;
  err_data : Z;
  err_data_size : Z
}.

(** The [void *buf] of a read: an array of one of the three layouts. *)
Inductive cq_buf : Type :=
| Buf_fi_cq_entry (entry : list fi_cq_entry)
| Buf_fi_cq_msg_entry (entry : list fi_cq_msg_entry)
| Buf_fi_cq_data_entry (entry : list fi_cq_data_entry).

Definition cq_buf_length (b : cq_buf) : nat :=
  match b with
  | Buf_fi_cq_entry entry => length entry
  | Buf_fi_cq_msg_entry entry => length entry
  | Buf_fi_cq_data_entry entry => length entry
  end.

(** [struct efa_wc]. *)
Record efa_wc : Type := { ibv_wc : Verbs.ibv_wc }.

(** The value of [struct efa_wc wc = {0}]. *)
Definition efa_wc_zero : efa_wc :=
  {| ibv_wc :=
       {| Verbs.wc_wr_id := 0; Verbs.wc_status := 0;
          Verbs.wc_opcode := IBV_WC_SEND; Verbs.wc_vendor_err := 0;
          Verbs.wc_byte_len := 0; Verbs.wc_imm_data := 0;
          Verbs.wc_qp_num := 0; Verbs.wc_src_qp := 0;
          Verbs.wc_wc_flags := 0; Verbs.wc_pkey_index := 0;
          Verbs.wc_slid := 0; Verbs.wc_sl := 0;
          Verbs.wc_dlid_path_bits := 0 |} |}.

(** The structures of [efa.h] the read path goes through: the address
    vector (here its reverse table: link identifier, queue pair, fabric
    address), the endpoint, the queue pair, and the domain with its
    queue-pair table. *)
Record efa_av : Type := { reverse_av : list (Z * Z * Z) }.
Record efa_ep : Type := { av : efa_av }.
Record efa_qp : Type := { ep : efa_ep }.

Record efa_domain : Type := {
  qp_table : list (option efa_qp);
  qp_table_sz_m1 : Z;
  api_version : Z       (* fabric->util_fabric.fabric_fid.api_version *)
}.

(** The formatter bound to a queue: the [read_entry] function pointer. *)
Inductive read_entry_fn : Type :=
| Efa_cq_read_context_entry
| Efa_cq_read_msg_entry
| Efa_cq_read_data_entry.

(** [struct efa_cq]; [lock] is [true] while the spinlock is held. *)
Record efa_cq : Type := {
  lock : bool;
  ibv_cq_ex : Verbs.ibv_cq_ex;
  read_entry : read_entry_fn;
  entry_size : Z;
  domain : efa_domain
}.

Definition set_lock (b : bool) (cq : efa_cq) : efa_cq :=
  {| lock := b; ibv_cq_ex := ibv_cq_ex cq; read_entry := read_entry cq;
     entry_size := entry_size cq; domain := domain cq |}.

Definition set_ibv_cq_ex (q : Verbs.ibv_cq_ex) (cq : efa_cq) : efa_cq :=
  {| lock := lock cq; ibv_cq_ex := q; read_entry := read_entry cq;
     entry_size := entry_size cq; domain := domain cq |}.

(** ** Calls to the outside, as events *)

Inductive event : Type :=
| Ev_spin_lock
| Ev_spin_unlock
| Ev_start_poll (ret : Z)
| Ev_next_poll (ret : Z)
| Ev_end_poll
| Ev_read_entry (i : Z)
| Ev_bufpool_destroy
| Ev_spin_destroy
| Ev_destroy_cq
| Ev_cq_cleanup
| Ev_free
| Ev_calloc (ok : bool)
| Ev_cq_init (ret : Z)
| Ev_create_cq_ex (cqe : Z) (ok : bool)
| Ev_bufpool_create (ret : Z)
| Ev_spin_init.

(** The queue and the calls made so far, oldest first. *)
Record world : Type := {
  cq : efa_cq;
  trace : list event
}.

Definition M (A : Type) : Type := world -> result (A * world).

Definition ret {A : Type} (a : A) : M A := fun w => Ok (a, w).

Definition bind {A B : Type} (m : M A) (k : A -> M B) : M B :=
  fun w =>
    match m w with
    | Ok (a, w') => k a w'
    | Stop s => Stop s
    end.

Definition lift {A : Type} (r : result A) : M A :=
  fun w =>
    match r with
    | Ok a => Ok (a, w)
    | Stop s => Stop s
    end.

Notation "x <- m ;; k" := (bind m (fun x => k))
  (at level 100, m at next level, right associativity).
Notation "m ;; k" := (bind m (fun _ => k))
  (at level 100, right associativity).

Definition get_cq : M efa_cq := fun w => Ok (cq w, w).

Definition log (e : event) : M unit :=
  fun w => Ok (tt, {| cq := cq w; trace := trace w ++ [e] |}).

Definition put_cq (c : efa_cq) : M unit :=
  fun w => Ok (tt, {| cq := c; trace := trace w |}).

(** [ofi_spin_lock]: a held lock is never released by the caller itself,
    so the call spins for ever. *)
Definition ofi_spin_lock : M unit :=
  c <- get_cq ;;
  if lock c then lift (Stop SpinForever)
  else (put_cq (set_lock true c) ;; log Ev_spin_lock).

Definition ofi_spin_unlock : M unit :=
  c <- get_cq ;;
  put_cq (set_lock false c) ;; log Ev_spin_unlock.

Definition ibv_start_poll {hdr : headers} (comp_mask : Z) : M Z :=
  c <- get_cq ;;
  let '(r, q) := Verbs.ibv_start_poll (ibv_cq_ex c) comp_mask in
  put_cq (set_ibv_cq_ex q c) ;; log (Ev_start_poll r) ;; ret r.

Definition ibv_next_poll {hdr : headers} : M Z :=
  c <- get_cq ;;
  let '(r, q) := Verbs.ibv_next_poll (ibv_cq_ex c) in
  put_cq (set_ibv_cq_ex q c) ;; log (Ev_next_poll r) ;; ret r.

(** Modelled from the spec: what the accessor calls of
    [efa_cq_wc_from_ibv_cq_ex_unsafe] do to the ring inside a poll
    session, where the poller reads the completion under the cursor.  The
    reads [efa_cq_readerr] makes after the session are reads of the sticky
    fields and leave the ring alone. *)
Definition read_current : M unit :=
  c <- get_cq ;;
  put_cq (set_ibv_cq_ex (Verbs.read_current (ibv_cq_ex c)) c).

Definition ibv_end_poll : M unit :=
  c <- get_cq ;;
  put_cq (set_ibv_cq_ex (Verbs.ibv_end_poll (ibv_cq_ex c)) c) ;;
  log Ev_end_poll.

(** ** The functions of efa_cq.c *)

Section Efa_cq.
Context {hdr : headers}.

(** [assert(0)] aborts the process (a build that keeps its assertions), so
    the [return 0] after it is not reached: the call stops. *)
Definition efa_cq_opcode_to_fi_flags (opcode : ibv_wc_opcode) : result Z :=
  match opcode with
  | IBV_WC_SEND => Ok (Z.lor FI_SEND FI_MSG)
  | IBV_WC_RECV => Ok (Z.lor FI_RECV FI_MSG)
  | _ => Stop AssertFailed
  end.

Definition efa_cq_wc_to_fi_flags (wc : efa_wc) : result Z :=
  efa_cq_opcode_to_fi_flags (Verbs.wc_opcode (ibv_wc wc)).

(** [wc->slid] is a [uint16_t] and [ibv_wc_read_slid] returns a
    [uint32_t]: the assignment keeps the low 16 bits.  The other fields
    have the type their accessor returns.  [pkey_index] and
    [dlid_path_bits] are not assigned. *)
Definition efa_cq_wc_from_ibv_cq_ex_unsafe (cq : Verbs.ibv_cq_ex)
  (wc : Verbs.ibv_wc) : Verbs.ibv_wc :=
  {| Verbs.wc_status := Verbs.status cq;
     Verbs.wc_vendor_err := Verbs.ibv_wc_read_vendor_err cq;
     Verbs.wc_wc_flags := Verbs.ibv_wc_read_wc_flags cq;
     Verbs.wc_qp_num := Verbs.ibv_wc_read_qp_num cq;
     Verbs.wc_opcode := Verbs.ibv_wc_read_opcode cq;
     Verbs.wc_byte_len := Verbs.ibv_wc_read_byte_len cq;
     Verbs.wc_src_qp := Verbs.ibv_wc_read_src_qp cq;
     Verbs.wc_sl := Verbs.ibv_wc_read_sl cq;
     Verbs.wc_slid := uint16_of (Verbs.ibv_wc_read_slid cq);
     Verbs.wc_imm_data := Verbs.ibv_wc_read_imm_data cq;
     Verbs.wc_wr_id := Verbs.wr_id cq;
     Verbs.wc_pkey_index := Verbs.wc_pkey_index wc;
     Verbs.wc_dlid_path_bits := Verbs.wc_dlid_path_bits wc |}.

Definition efa_cq_api_version (cq : efa_cq) : Z :=
  api_version (domain cq).

(** The error record with the fields [efa_cq_readerr] stores into before
    it releases the lock. *)
Definition fill_err_entry (entry : fi_cq_err_entry)
  (context fl e status : Z) : fi_cq_err_entry :=
  {| op_context := context; flags := fl; len := len entry;
     buf := buf entry; data := data entry; tag := tag entry;
     olen := olen entry; err := e; prov_errno := status;
     err_data := err_data entry; err_data_size := err_data_size entry |}.

Definition set_err_data_size (n : Z) (entry : fi_cq_err_entry)
  : fi_cq_err_entry :=
  {| op_context := op_context entry; flags := flags entry;
     len := len entry; buf := buf entry; data := data entry;
     tag := tag entry; olen := olen entry; err := err entry;
     prov_errno := prov_errno entry; err_data := err_data entry;
     err_data_size := n |}.

Definition efa_cq_readerr (entry : fi_cq_err_entry) (fl : Z)
  : M (Z * fi_cq_err_entry) :=
  ofi_spin_lock ;;
  c <- get_cq ;;
  if Verbs.status (ibv_cq_ex c) =? 0 then
    (* goto err *)
    ofi_spin_unlock ;;
    ret (- FI_EAGAIN, entry)
  else
    let api_version := efa_cq_api_version c in
    f <- lift (efa_cq_opcode_to_fi_flags
                 (Verbs.ibv_wc_read_opcode (ibv_cq_ex c))) ;;
    let entry :=
      fill_err_entry entry (Verbs.wr_id (ibv_cq_ex c)) f EIO
        (Verbs.status (ibv_cq_ex c)) in
    ofi_spin_unlock ;;
    let entry :=
      if FI_VERSION_GE api_version (FI_VERSION 1 5)
      then set_err_data_size 0 entry else entry in
    ret (sizeof_fi_cq_err_entry, entry).

Definition efa_cq_read_context_entry (wc : efa_wc) (i : Z) (b : cq_buf)
  : result cq_buf :=
  match b with
  | Buf_fi_cq_entry entry =>
      let? entry := store entry i (fun _ =>
        {| ce_op_context := Verbs.wc_wr_id (ibv_wc wc) |}) in
      Ok (Buf_fi_cq_entry entry)
  | _ => Stop BadLayout
  end.

Definition efa_cq_read_msg_entry (wc : efa_wc) (i : Z) (b : cq_buf)
  : result cq_buf :=
  match b with
  | Buf_fi_cq_msg_entry entry =>
      let? entry := store entry i (fun e =>
        {| me_op_context := Verbs.wc_wr_id (ibv_wc wc);
           me_flags := me_flags e; me_len := me_len e |}) in
      let? f := efa_cq_wc_to_fi_flags wc in
      let? entry := store entry i (fun e =>
        {| me_op_context := me_op_context e;
           me_flags := f;
           me_len := Verbs.wc_byte_len (ibv_wc wc) |}) in
      Ok (Buf_fi_cq_msg_entry entry)
  | _ => Stop BadLayout
  end.

Definition efa_cq_read_data_entry (wc : efa_wc) (i : Z) (b : cq_buf)
  : result cq_buf :=
  match b with
  | Buf_fi_cq_data_entry entry =>
      let? entry := store entry i (fun e =>
        {| de_op_context := Verbs.wc_wr_id (ibv_wc wc);
           de_flags := de_flags e; de_len := de_len e;
           de_buf := de_buf e; de_data := de_data e |}) in
      let? f := efa_cq_wc_to_fi_flags wc in
      let? entry := store entry i (fun e =>
        {| de_op_context := de_op_context e;
           de_flags := f;
           de_len := Verbs.wc_byte_len (ibv_wc wc);
           de_buf := de_buf e;
           de_data := 0 |}) in
      Ok (Buf_fi_cq_data_entry entry)
  | _ => Stop BadLayout
  end.

(** The call through the [read_entry] pointer of the queue. *)
Definition call_read_entry (fn : read_entry_fn)
  : efa_wc -> Z -> cq_buf -> result cq_buf :=
  match fn with
  | Efa_cq_read_context_entry => efa_cq_read_context_entry
  | Efa_cq_read_msg_entry => efa_cq_read_msg_entry
  | Efa_cq_read_data_entry => efa_cq_read_data_entry
  end.

Definition efa_cq_ibv_poll_error_to_fi_error (e : Z) : Z :=
  if e =? ENOENT then - FI_EAGAIN
  else if 0 <? e then - e
  else e.

(** Modelled from the spec: [efa_av_reverse_lookup_dgram] of [efa_av.c],
    which is not under src/.  A pure lookup from the peer link identifier
    and the peer queue pair to a fabric address; an unknown peer gives the
    unspecified-address value, not an error. *)
Fixpoint reverse_lookup (t : list (Z * Z * Z)) (slid src_qp : Z) : Z :=
  match t with
  | [] => FI_ADDR_NOTAVAIL
  | (ahn, qpn, addr) :: t' =>
      if (ahn =? slid) && (qpn =? src_qp) then addr
      else reverse_lookup t' slid src_qp
  end.

(** Modelled from the spec: [efa_av_reverse_lookup_dgram], the lookup
    above in the reverse table of the address vector. *)
Definition efa_av_reverse_lookup_dgram (a : efa_av) (slid src_qp : Z) : Z :=
  reverse_lookup (reverse_av a) slid src_qp.

(** [cq->domain->qp_table[qp_num & cq->domain->qp_table_sz_m1]->ep->av] *)
Definition qp_table_av (d : efa_domain) (qp_num : Z) : result efa_av :=
  let? q := load (qp_table d) (Z.land qp_num (qp_table_sz_m1 d)) in
  match q with
  | Some q => Ok (av (ep q))
  | None => Stop NullPointer
  end.

(** The local variables the [while] loop of [efa_cq_readfrom] works on,
    with the two output arrays. *)
Record locals : Type := {
  l_err : Z;
  l_num_cqe : Z;
  l_wc : efa_wc;
  l_buf : cq_buf;
  l_src_addr : option (list Z)
}.

(** [while (!err && num_cqe < count)].  Every round adds one to [num_cqe],
    so [count] rounds are enough; [fuel] counts them down. *)
Fixpoint readfrom_loop (fuel : nat) (count : Z) (l : locals) : M locals :=
  match fuel with
  | O => ret l
  | S fuel' =>
      if (l_err l =? 0) && (l_num_cqe l <? count) then
        c <- get_cq ;;
        let wc :=
          {| ibv_wc :=
               efa_cq_wc_from_ibv_cq_ex_unsafe (ibv_cq_ex c)
                 (ibv_wc (l_wc l)) |} in
        (* the read of the completion under the cursor marks its slot *)
        read_current ;;
        if negb (Verbs.status (ibv_cq_ex c) =? 0) then
          (* err = -FI_EAVAIL; break; *)
          ret {| l_err := - FI_EAVAIL; l_num_cqe := l_num_cqe l;
                 l_wc := wc; l_buf := l_buf l;
                 l_src_addr := l_src_addr l |}
        else
          src_addr <-
            match l_src_addr l with
            | Some src_addr =>
                a <- lift (qp_table_av (domain c)
                             (Verbs.wc_qp_num (ibv_wc wc))) ;;
                src_addr <- lift (store src_addr (l_num_cqe l) (fun _ =>
                  efa_av_reverse_lookup_dgram a
                    (Verbs.wc_slid (ibv_wc wc))
                    (Verbs.wc_src_qp (ibv_wc wc)))) ;;
                ret (Some src_addr)
            | None => ret None
            end ;;
          log (Ev_read_entry (int_of_size_t (l_num_cqe l))) ;;
          b <- lift (call_read_entry (read_entry c) wc
                       (int_of_size_t (l_num_cqe l)) (l_buf l)) ;;
          let num_cqe := l_num_cqe l + 1 in
          e <- ibv_next_poll ;;
          readfrom_loop fuel' count
            {| l_err := e; l_num_cqe := num_cqe; l_wc := wc;
               l_buf := b; l_src_addr := src_addr |}
      else ret l
  end.

Definition efa_cq_readfrom (b : cq_buf) (count : Z)
  (src_addr : option (list Z)) : M (Z * cq_buf * option (list Z)) :=
  let poll_cq_attr_comp_mask := 0 in
  ofi_spin_lock ;;
  (* Call ibv_start_poll only once regardless of count == 0 *)
  e <- ibv_start_poll poll_cq_attr_comp_mask ;;
  let should_end_poll := (e =? 0) in
  l <- readfrom_loop (Z.to_nat count) count
         {| l_err := e; l_num_cqe := 0; l_wc := efa_wc_zero;
            l_buf := b; l_src_addr := src_addr |} ;;
  let e := efa_cq_ibv_poll_error_to_fi_error (l_err l) in
  (if should_end_poll then ibv_end_poll else ret tt) ;;
  ofi_spin_unlock ;;
  ret (ssize_t_of
         (if negb (l_num_cqe l =? 0) then l_num_cqe l else size_t_of e),
       l_buf l, l_src_addr l).

(** The [switch] has a [default] case only. *)
Definition efa_cq_control (command : Z) : Z :=
  let r := 0 in
  let r := - FI_ENOSYS in
  r.

End Efa_cq.

(** ** Teardown and creation *)

(** What the calls made by [efa_cq_close] answer: [ibv_destroy_cq] and
    [ofi_cq_cleanup] both return an [int], zero on success. *)
Record close_env : Type := {
  ibv_destroy_cq_ret : Z;
  ofi_cq_cleanup_ret : Z
}.

(** What the calls made by [efa_cq_open] answer: whether [calloc] gives
    memory, the [int] of [ofi_cq_init], the ring [ibv_create_cq_ex] makes
    for a number of entries (or the null pointer), the [int] of
    [ofi_bufpool_create]. *)
Record open_env : Type := {
  calloc_ok : bool;
  ofi_cq_init_ret : Z;
  ibv_create_cq_ex_ret : Z -> option Verbs.ibv_cq_ex;
  ofi_bufpool_create_ret : Z
}.

(** The fields of [struct fi_cq_attr] that [efa_cq_open] reads. *)
Record fi_cq_attr : Type := {
  size : Z;
  format : fi_cq_format;
  wait_obj : fi_wait_obj
}.

Section Efa_cq_lifecycle.
Context {hdr : headers}.

Definition efa_cq_close (env : close_env) : M Z :=
  log Ev_bufpool_destroy ;;
  log Ev_spin_destroy ;;
  log Ev_destroy_cq ;;
  let r := - ibv_destroy_cq_ret env in
  if negb (r =? 0) then ret r
  else
    log Ev_cq_cleanup ;;
    let r := ofi_cq_cleanup_ret env in
    if negb (r =? 0) then ret r
    else
      log Ev_free ;;
      ret 0.

(** The calls behind the four error labels of [efa_cq_open]; each label
    falls through to the next. *)
Definition err_free_cq : list event := [Ev_free].
Definition err_free_util_cq : list event :=
  Ev_cq_cleanup :: err_free_cq.
Definition err_destroy_cq : list event :=
  Ev_destroy_cq :: err_free_util_cq.
Definition err_destroy_pool : list event :=
  Ev_bufpool_destroy :: err_destroy_cq.

(** The queue a successful [efa_cq_open] hands out. *)
Definition new_cq (d : efa_domain) (q : Verbs.ibv_cq_ex)
  (fn : read_entry_fn) (sz : Z) : efa_cq :=
  {| lock := false; ibv_cq_ex := q; read_entry := fn; entry_size := sz;
     domain := d |}.

(** Returns the [int] result, the queue stored through [cq_fid] (nothing
    on failure) and the calls made. *)
Definition efa_cq_open (env : open_env) (d : efa_domain) (attr : fi_cq_attr)
  : Z * option efa_cq * list event :=
  if negb (fi_wait_obj_eqb (wait_obj attr) FI_WAIT_NONE) then
    (- FI_ENOSYS, None, [])
  else
    let t := [Ev_calloc (calloc_ok env)] in
    if negb (calloc_ok env) then (- FI_ENOMEM, None, t)
    else
      let r := ofi_cq_init_ret env in
      let t := t ++ [Ev_cq_init r] in
      if negb (r =? 0) then (r, None, t ++ err_free_cq)
      else
        let cqe :=
          uint32_of (if negb (size attr =? 0) then size attr
                     else EFA_DEF_CQ_SIZE) in
        match ibv_create_cq_ex_ret env cqe with
        | None =>
            (- FI_EINVAL, None,
             t ++ [Ev_create_cq_ex cqe false] ++ err_free_util_cq)
        | Some q =>
            let t := t ++ [Ev_create_cq_ex cqe true] in
            let r := ofi_bufpool_create_ret env in
            let t := t ++ [Ev_bufpool_create r] in
            if negb (r =? 0) then (r, None, t ++ err_destroy_cq)
            else
              match format attr with
              | FI_CQ_FORMAT_UNSPEC
              | FI_CQ_FORMAT_CONTEXT =>
                  (0, Some (new_cq d q Efa_cq_read_context_entry
                              sizeof_fi_cq_entry),
                   t ++ [Ev_spin_init])
              | FI_CQ_FORMAT_MSG =>
                  (0, Some (new_cq d q Efa_cq_read_msg_entry
                              sizeof_fi_cq_msg_entry),
                   t ++ [Ev_spin_init])
              | FI_CQ_FORMAT_DATA =>
                  (0, Some (new_cq d q Efa_cq_read_data_entry
                              sizeof_fi_cq_data_entry),
                   t ++ [Ev_spin_init])
              | FI_CQ_FORMAT_TAGGED
              | FI_CQ_FORMAT_other _ =>
                  (- FI_ENOSYS, None, t ++ err_destroy_pool)
              end
        end.

End Efa_cq_lifecycle.


(** ** Vocabulary of the statements *)

Section Vocabulary.
Context {hdr : headers}.

(** The opcodes the queue supports. *)
Definition supported (op : ibv_wc_opcode) : bool :=
  match op with
  | IBV_WC_SEND | IBV_WC_RECV => true
  | _ => false
  end.

(** A ready completion: its status is zero. *)
Definition ready (c : Verbs.ibv_cqe) : bool := Verbs.cqe_status c =? 0.

(** The buffer is an array of the layout the formatter writes. *)
Definition layout_matches (fn : read_entry_fn) (b : cq_buf) : bool :=
  match fn, b with
  | Efa_cq_read_context_entry, Buf_fi_cq_entry _
  | Efa_cq_read_msg_entry, Buf_fi_cq_msg_entry _
  | Efa_cq_read_data_entry, Buf_fi_cq_data_entry _ => true
  | _, _ => false
  end.

(** The caller's arrays have room for [count] entries of the layout bound
    to the queue. *)
Definition room (q : efa_cq) (b : cq_buf) (count : Z)
  (src_addr : option (list Z)) : bool :=
  layout_matches (read_entry q) b
  && (count <=? Z.of_nat (cq_buf_length b))
  && match src_addr with
     | Some a => count <=? Z.of_nat (length a)
     | None => true
     end.

Definition resolvable (d : efa_domain) (c : Verbs.ibv_cqe) : bool :=
  match qp_table_av d (Verbs.cqe_qp_num c) with
  | Ok _ => true
  | Stop _ => false
  end.

(** The formatter can report the opcode of the completion. *)
Definition reportable (fn : read_entry_fn) (op : ibv_wc_opcode) : bool :=
  match fn with
  | Efa_cq_read_context_entry => true
  | _ => supported op
  end.

(** The read loop can format the completion: its opcode is supported when
    the layout reports flags, and its queue pair is in the table when
    source addresses are asked for. *)
Definition formattable (q : efa_cq) (want_addr : bool) (c : Verbs.ibv_cqe)
  : bool :=
  reportable (read_entry q) (Verbs.cqe_opcode c)
  && (negb want_addr || resolvable (domain q) c).

Definition wants_addr (src_addr : option (list Z)) : bool :=
  match src_addr with Some _ => true | None => false end.

(** A ring slot the read loop can go through: a ready completion is
    formattable, a ring fault has a non-zero [int] code. *)
Definition slot_ok (q : efa_cq) (want_addr : bool) (s : Verbs.ring_slot)
  : bool :=
  match s with
  | Verbs.Completion c => negb (ready c) || formattable q want_addr c
  | Verbs.RingFault code =>
      negb (code =? 0) && (- INT_MAX - 1 <=? code) && (code <=? INT_MAX)
  end.

(** The ring holds at most [INT_MAX] slots, all of them [slot_ok]. *)
Definition ring_ok (q : efa_cq) (want_addr : bool) : bool :=
  (Z.of_nat (length (Verbs.ring (ibv_cq_ex q))) <=? INT_MAX)
  && forallb (slot_ok q want_addr) (Verbs.ring (ibv_cq_ex q)).

(** The entry each layout reports for a completion. *)
Definition fi_flags (c : Verbs.ibv_cqe) : Z :=
  match efa_cq_opcode_to_fi_flags (Verbs.cqe_opcode c) with
  | Ok f => f
  | Stop _ => 0
  end.

Definition context_entry_of (c : Verbs.ibv_cqe) (_ : fi_cq_entry)
  : fi_cq_entry :=
  {| ce_op_context := Verbs.cqe_wr_id c |}.

Definition msg_entry_of (c : Verbs.ibv_cqe) (_ : fi_cq_msg_entry)
  : fi_cq_msg_entry :=
  {| me_op_context := Verbs.cqe_wr_id c; me_flags := fi_flags c;
     me_len := Verbs.cqe_byte_len c |}.

Definition data_entry_of (c : Verbs.ibv_cqe) (e : fi_cq_data_entry)
  : fi_cq_data_entry :=
  {| de_op_context := Verbs.cqe_wr_id c; de_flags := fi_flags c;
     de_len := Verbs.cqe_byte_len c; de_buf := de_buf e; de_data := 0 |}.

(** The array with its first entries written from the completions, in
    order; the entries after them are kept. *)
Fixpoint overwrite {T : Type} (f : Verbs.ibv_cqe -> T -> T)
  (cs : list Verbs.ibv_cqe) (a : list T) : list T :=
  match cs, a with
  | c :: cs', x :: a' => f c x :: overwrite f cs' a'
  | _, _ => a
  end.

(** The same from index [n] on. *)
Definition overwrite_at {T : Type} (n : nat) (f : Verbs.ibv_cqe -> T -> T)
  (cs : list Verbs.ibv_cqe) (a : list T) : list T :=
  firstn n a ++ overwrite f cs (skipn n a).

Definition formatted_at (n : nat) (cs : list Verbs.ibv_cqe) (b : cq_buf)
  : cq_buf :=
  match b with
  | Buf_fi_cq_entry a => Buf_fi_cq_entry (overwrite_at n context_entry_of cs a)
  | Buf_fi_cq_msg_entry a => Buf_fi_cq_msg_entry (overwrite_at n msg_entry_of cs a)
  | Buf_fi_cq_data_entry a =>
      Buf_fi_cq_data_entry (overwrite_at n data_entry_of cs a)
  end.

(** The buffer with entries 0, 1, ... formatted from the completions, in
    order, and the entries after them kept. *)
Definition formatted (cs : list Verbs.ibv_cqe) (b : cq_buf) : cq_buf :=
  match b with
  | Buf_fi_cq_entry a => Buf_fi_cq_entry (overwrite context_entry_of cs a)
  | Buf_fi_cq_msg_entry a => Buf_fi_cq_msg_entry (overwrite msg_entry_of cs a)
  | Buf_fi_cq_data_entry a =>
      Buf_fi_cq_data_entry (overwrite data_entry_of cs a)
  end.

(** The source address reported for a completion. *)
Definition source_address (d : efa_domain) (c : Verbs.ibv_cqe) (_ : Z) : Z :=
  match qp_table_av d (Verbs.cqe_qp_num c) with
  | Ok a =>
      efa_av_reverse_lookup_dgram a (uint16_of (Verbs.cqe_slid c))
        (Verbs.cqe_src_qp c)
  | Stop _ => FI_ADDR_NOTAVAIL
  end.

Definition resolved_at (n : nat) (d : efa_domain) (cs : list Verbs.ibv_cqe)
  (src_addr : option (list Z)) : option (list Z) :=
  option_map (overwrite_at n (source_address d) cs) src_addr.

Definition resolved (d : efa_domain) (cs : list Verbs.ibv_cqe)
  (src_addr : option (list Z)) : option (list Z) :=
  option_map (overwrite (source_address d) cs) src_addr.

(** The ring with the cursor on completion [c], not read yet, and [rest]
    behind it. *)
Definition cursor_on (c : Verbs.ibv_cqe) (rest : list Verbs.ring_slot)
  (q : Verbs.ibv_cq_ex) : Verbs.ibv_cq_ex :=
  {| Verbs.status := Verbs.cqe_status c; Verbs.wr_id := Verbs.cqe_wr_id c;
     Verbs.cur_cqe := c; Verbs.ring := Verbs.Completion c :: rest;
     Verbs.polling := Verbs.polling q; Verbs.pos := 0;
     Verbs.cursor := Verbs.Unread |}.

(** A ring that holds exactly the given completions. *)
Definition holds (q : efa_cq) (cs : list Verbs.ibv_cqe) : Prop :=
  Verbs.ring (ibv_cq_ex q) = map Verbs.Completion cs.

(** The record [efa_cq_readerr] hands back for a pending error. *)
Definition err_entry_of (q : efa_cq) (f : Z) (entry : fi_cq_err_entry)
  : fi_cq_err_entry :=
  {| op_context := Verbs.wr_id (ibv_cq_ex q);
     flags := f;
     len := len entry; buf := buf entry; data := data entry;
     tag := tag entry; olen := olen entry;
     err := EIO;
     prov_errno := Verbs.status (ibv_cq_ex q);
     err_data := err_data entry;
     err_data_size :=
       if FI_VERSION_GE (api_version (domain q)) (FI_VERSION 1 5)
       then 0 else err_data_size entry |}.

Definition lock_unlock : list event := [Ev_spin_lock; Ev_spin_unlock].

(** The formatter and the entry size [efa_cq_open] binds for a requested
    layout; none for the tagged layout and for the values outside the
    enumeration. *)
Definition layout_binding (f : fi_cq_format) : option (read_entry_fn * Z) :=
  match f with
  | FI_CQ_FORMAT_UNSPEC
  | FI_CQ_FORMAT_CONTEXT =>
      Some (Efa_cq_read_context_entry, sizeof_fi_cq_entry)
  | FI_CQ_FORMAT_MSG => Some (Efa_cq_read_msg_entry, sizeof_fi_cq_msg_entry)
  | FI_CQ_FORMAT_DATA =>
      Some (Efa_cq_read_data_entry, sizeof_fi_cq_data_entry)
  | FI_CQ_FORMAT_TAGGED
  | FI_CQ_FORMAT_other _ => None
  end.

(** The number of entries [efa_cq_open] asks the ring for. *)
Definition requested_cqe (attr : fi_cq_attr) : Z :=
  uint32_of (if size attr =? 0 then EFA_DEF_CQ_SIZE else size attr).

(** The calls of [efa_cq_open] up to the layout [switch], when all of them
    succeed. *)
Definition open_calls (attr : fi_cq_attr) : list event :=
  [Ev_calloc true; Ev_cq_init 0; Ev_create_cq_ex (requested_cqe attr) true;
   Ev_bufpool_create 0].

(** What one round of the read loop stores into the address array. *)
Definition store_src_addr (d : efa_domain) (wc : efa_wc) (i : Z)
  (src_addr : option (list Z)) : result (option (list Z)) :=
  match src_addr with
  | Some a =>
      let? v := qp_table_av d (Verbs.wc_qp_num (ibv_wc wc)) in
      let? a := store a i (fun _ =>
        efa_av_reverse_lookup_dgram v (Verbs.wc_slid (ibv_wc wc))
          (Verbs.wc_src_qp (ibv_wc wc))) in
      Ok (Some a)
  | None => Ok None
  end.

(** The value [efa_cq_readfrom] returns for the final [num_cqe] and
    [err] of its loop. *)
Definition readfrom_ret (l : locals) : Z :=
  ssize_t_of
    (if negb (l_num_cqe l =? 0) then l_num_cqe l
     else size_t_of (efa_cq_ibv_poll_error_to_fi_error (l_err l))).

(** The locals and the queue when the loop of [efa_cq_readfrom] starts. *)
Definition loop_entry (e : Z) (b : cq_buf) (src_addr : option (list Z))
  : locals :=
  {| l_err := e; l_num_cqe := 0; l_wc := efa_wc_zero; l_buf := b;
     l_src_addr := src_addr |}.

Definition started (q : efa_cq) : world :=
  {| cq :=
       set_ibv_cq_ex (snd (Verbs.ibv_start_poll (ibv_cq_ex q) 0))
         (set_lock true q);
     trace :=
       [Ev_spin_lock;
        Ev_start_poll (fst (Verbs.ibv_start_poll (ibv_cq_ex q) 0))] |}.

(** The queue and the calls after the loop: the session is ended when it
    was started, and the lock is released. *)
Definition finished (e : Z) (w : world) : world :=
  {| cq :=
       set_lock false
         (if e =? 0 then
            set_ibv_cq_ex (Verbs.ibv_end_poll (ibv_cq_ex (cq w))) (cq w)
          else cq w);
     trace :=
       trace w ++ (if e =? 0 then [Ev_end_poll] else []) ++ [Ev_spin_unlock] |}.

(** The cursor stands on the first slot of the ring, a completion not read
    yet that the [status] and [wr_id] fields show. *)
Definition on_first (q : Verbs.ibv_cq_ex) : Prop :=
  Verbs.cursor q = Verbs.Unread /\ Verbs.pos q = 0%nat /\
  hd_error (Verbs.ring q) = Some (Verbs.Completion (Verbs.cur_cqe q)) /\
  Verbs.status q = Verbs.cqe_status (Verbs.cur_cqe q) /\
  Verbs.wr_id q = Verbs.cqe_wr_id (Verbs.cur_cqe q).

(** What holds whenever the loop of [efa_cq_readfrom] tests its condition,
    on a ring that is [ring_ok] and with arrays that have [room]. *)
Definition loop_inv (want_addr : bool) (count : Z) (l : locals) (w : world)
  : Prop :=
  forallb (slot_ok (cq w) want_addr) (Verbs.ring (ibv_cq_ex (cq w))) = true /\
  (l_err l = 0 -> on_first (ibv_cq_ex (cq w))) /\
  0 <= l_num_cqe l /\
  l_num_cqe l + Z.of_nat (length (Verbs.ring (ibv_cq_ex (cq w)))) <= INT_MAX /\
  layout_matches (read_entry (cq w)) (l_buf l) = true /\
  count <= Z.of_nat (cq_buf_length (l_buf l)) /\
  wants_addr (l_src_addr l) = want_addr /\
  match l_src_addr l with
  | Some a => count <= Z.of_nat (length a)
  | None => True
  end.

(** The completion under the cursor, as the public fields and the
    accessors of the ring report it. *)
Definition cursor_cqe (q : Verbs.ibv_cq_ex) : Verbs.ibv_cqe :=
  {| Verbs.cqe_wr_id := Verbs.wr_id q;
     Verbs.cqe_status := Verbs.status q;
     Verbs.cqe_opcode := Verbs.ibv_wc_read_opcode q;
     Verbs.cqe_vendor_err := Verbs.ibv_wc_read_vendor_err q;
     Verbs.cqe_byte_len := Verbs.ibv_wc_read_byte_len q;
     Verbs.cqe_imm_data := Verbs.ibv_wc_read_imm_data q;
     Verbs.cqe_qp_num := Verbs.ibv_wc_read_qp_num q;
     Verbs.cqe_src_qp := Verbs.ibv_wc_read_src_qp q;
     Verbs.cqe_wc_flags := Verbs.ibv_wc_read_wc_flags q;
     Verbs.cqe_slid := Verbs.ibv_wc_read_slid q;
     Verbs.cqe_sl := Verbs.ibv_wc_read_sl q |}.

(** The locals and the queue after one round of the loop that formats the
    completion under the cursor and moves the cursor. *)
Definition round_locals (l : locals) (w : world) : locals :=
  {| l_err :=
       fst (Verbs.ibv_next_poll (Verbs.read_current (ibv_cq_ex (cq w))));
     l_num_cqe := l_num_cqe l + 1;
     l_wc :=
       {| ibv_wc :=
            efa_cq_wc_from_ibv_cq_ex_unsafe (ibv_cq_ex (cq w))
              (ibv_wc (l_wc l)) |};
     l_buf :=
       formatted_at (Z.to_nat (l_num_cqe l))
         [cursor_cqe (ibv_cq_ex (cq w))] (l_buf l);
     l_src_addr :=
       resolved_at (Z.to_nat (l_num_cqe l)) (domain (cq w))
         [cursor_cqe (ibv_cq_ex (cq w))] (l_src_addr l) |}.

Definition round_world (l : locals) (w : world) : world :=
  {| cq :=
       set_ibv_cq_ex
         (snd (Verbs.ibv_next_poll (Verbs.read_current (ibv_cq_ex (cq w)))))
         (cq w);
     trace :=
       trace w ++
       [Ev_read_entry (l_num_cqe l);
        Ev_next_poll
          (fst (Verbs.ibv_next_poll
                  (Verbs.read_current (ibv_cq_ex (cq w)))))] |}.

(** The queue once the poller has read the completion under the cursor. *)
Definition read_world (w : world) : world :=
  {| cq := set_ibv_cq_ex (Verbs.read_current (ibv_cq_ex (cq w))) (cq w);
     trace := trace w |}.

(** The ring that holds [rest], with the cursor on no slot and the sticky
    fields left as they are. *)
Definition with_ring (rest : list Verbs.ring_slot) (q : Verbs.ibv_cq_ex)
  : Verbs.ibv_cq_ex :=
  {| Verbs.status := Verbs.status q; Verbs.wr_id := Verbs.wr_id q;
     Verbs.cur_cqe := Verbs.cur_cqe q; Verbs.ring := rest;
     Verbs.polling := Verbs.polling q; Verbs.pos := 0;
     Verbs.cursor := Verbs.Off |}.

(** The arrays have room for [count] source addresses. *)
Definition src_room (count : Z) (src_addr : option (list Z)) : Prop :=
  match src_addr with
  | Some a => count <= Z.of_nat (length a)
  | None => True
  end.

(** [efa_cq_readfrom] cut off inside its critical section: the lock is
    taken, the session started, and at most [n] rounds of the loop made.
    It gives back what the start answered and the locals of the loop. *)
Definition readfrom_upto (n : nat) (b : cq_buf) (count : Z)
  (src_addr : option (list Z)) : M (Z * locals) :=
  ofi_spin_lock ;;
  e <- ibv_start_poll 0 ;;
  l <- readfrom_loop n count (loop_entry e b src_addr) ;;
  ret (e, l).

(** What [efa_cq_readfrom] does after its loop: the end of the session
    when it was started, and the release of the lock. *)
Definition readfrom_end (x : Z * locals)
  : M (Z * cq_buf * option (list Z)) :=
  (if fst x =? 0 then ibv_end_poll else ret tt) ;;
  ofi_spin_unlock ;;
  ret (readfrom_ret (snd x), l_buf (snd x), l_src_addr (snd x)).

(** [efa_cq_readerr] cut off after it has taken the lock: it gives back
    the queue its reads see. *)
Definition readerr_upto : M efa_cq := ofi_spin_lock ;; get_cq.

(** What [efa_cq_readerr] does with the locked queue: the reads of the
    sticky fields and the release of the lock. *)
Definition readerr_end (c : efa_cq) (entry : fi_cq_err_entry)
  : M (Z * fi_cq_err_entry) :=
  if Verbs.status (ibv_cq_ex c) =? 0 then
    ofi_spin_unlock ;;
    ret (- FI_EAGAIN, entry)
  else
    let api_version := efa_cq_api_version c in
    f <- lift (efa_cq_opcode_to_fi_flags
                 (Verbs.ibv_wc_read_opcode (ibv_cq_ex c))) ;;
    let entry :=
      fill_err_entry entry (Verbs.wr_id (ibv_cq_ex c)) f EIO
        (Verbs.status (ibv_cq_ex c)) in
    ofi_spin_unlock ;;
    let entry :=
      if FI_VERSION_GE api_version (FI_VERSION 1 5)
      then set_err_data_size 0 entry else entry in
    ret (sizeof_fi_cq_err_entry, entry).

End Vocabulary.

(** ** Running a call on a queue *)

Definition run {A : Type} (m : M A) (c : efa_cq) : result (A * world) :=
  m {| cq := c; trace := [] |}.

Definition count_event (p : event -> bool) (t : list event) : nat :=
  length (filter p t).

Definition is_spin_lock (e : event) : bool :=
  match e with Ev_spin_lock => true | _ => false end.
Definition is_spin_unlock (e : event) : bool :=
  match e with Ev_spin_unlock => true | _ => false end.
Definition is_start_poll (e : event) : bool :=
  match e with Ev_start_poll _ => true | _ => false end.
Definition is_next_poll (e : event) : bool :=
  match e with Ev_next_poll _ => true | _ => false end.
Definition is_end_poll (e : event) : bool :=
  match e with Ev_end_poll => true | _ => false end.
Definition is_read_entry (e : event) : bool :=
  match e with Ev_read_entry _ => true | _ => false end.
Definition is_free (e : event) : bool :=
  match e with Ev_free => true | _ => false end.

(** The events of the rounds of the read loop. *)
Definition is_loop_event (e : event) : bool :=
  is_read_entry e || is_next_poll e.

(** ** Examples *)

Module Examples.

Definition cqe (id st : Z) (op : ibv_wc_opcode) (n : Z) : Verbs.ibv_cqe :=
  {| Verbs.cqe_wr_id := id; Verbs.cqe_status := st; Verbs.cqe_opcode := op;
     Verbs.cqe_vendor_err := 0; Verbs.cqe_byte_len := n;
     Verbs.cqe_imm_data := 0; Verbs.cqe_qp_num := 1; Verbs.cqe_src_qp := 7;
     Verbs.cqe_wc_flags := 0; Verbs.cqe_slid := 3; Verbs.cqe_sl := 0 |}.

Definition ring_of (slots : list Verbs.ring_slot) : Verbs.ibv_cq_ex :=
  {| Verbs.status := 0; Verbs.wr_id := 0;
     Verbs.cur_cqe := cqe 0 0 IBV_WC_SEND 0;
     Verbs.ring := slots; Verbs.polling := false; Verbs.pos := 0;
     Verbs.cursor := Verbs.Off |}.

Definition the_av : efa_av := {| reverse_av := [(3, 7, 42)] |}.

Definition the_domain : efa_domain :=
  {| qp_table := [None; Some {| ep := {| av := the_av |} |}];
     qp_table_sz_m1 := 1;
     api_version := linux_FI_VERSION 1 9 |}.

Definition queue (fn : read_entry_fn) (slots : list Verbs.ring_slot)
  : efa_cq :=
  {| lock := false; ibv_cq_ex := ring_of slots; read_entry := fn;
     entry_size := 24; domain := the_domain |}.

Definition msg0 : fi_cq_msg_entry :=
  {| me_op_context := 0; me_flags := 0; me_len := 0 |}.

Definition err0 : fi_cq_err_entry :=
  {| op_context := 0; flags := 0; len := 0; buf := 0; data := 0; tag := 0;
     olen := 0; err := 0; prov_errno := 0; err_data := 0;
     err_data_size := 99 |}.

(** A queue whose last polled completion failed: work request 101, a
    receive, status 5. *)
Definition faulted : efa_cq :=
  {| lock := false;
     ibv_cq_ex :=
       {| Verbs.status := 5; Verbs.wr_id := 101;
          Verbs.cur_cqe := cqe 101 5 IBV_WC_RECV 20;
          Verbs.ring := []; Verbs.polling := false; Verbs.pos := 0;
          Verbs.cursor := Verbs.Off |};
     read_entry := Efa_cq_read_msg_entry; entry_size := 24;
     domain := the_domain |}.

Definition faulted_record : fi_cq_err_entry :=
  {| op_context := 101; flags := 1026; len := 0; buf := 0; data := 0;
     tag := 0; olen := 0; err := 5; prov_errno := 5; err_data := 0;
     err_data_size := 0 |}.

(** Three ready completions, and a failed one. *)
Definition c100 : Verbs.ibv_cqe := cqe 100 0 IBV_WC_SEND 10.
Definition c101 : Verbs.ibv_cqe := cqe 101 0 IBV_WC_RECV 20.
Definition c102 : Verbs.ibv_cqe := cqe 102 0 IBV_WC_SEND 30.
Definition bad103 : Verbs.ibv_cqe := cqe 103 5 IBV_WC_RECV 0.

Definition e100 : fi_cq_msg_entry :=
  {| me_op_context := 100; me_flags := 2050; me_len := 10 |}.
Definition e101 : fi_cq_msg_entry :=
  {| me_op_context := 101; me_flags := 1026; me_len := 20 |}.

Definition buf4 : cq_buf := Buf_fi_cq_msg_entry [msg0; msg0; msg0; msg0].


Definition one_ready : efa_cq :=
  queue Efa_cq_read_msg_entry [Verbs.Completion c100].

Definition three_ready : efa_cq :=
  queue Efa_cq_read_msg_entry (map Verbs.Completion [c100; c101; c102]).

Definition two_then_failed : efa_cq :=
  queue Efa_cq_read_msg_entry
    (map Verbs.Completion [c100; c101] ++
     [Verbs.Completion bad103; Verbs.Completion c102]).

End Examples.

(** ** Vocabulary of the further properties *)

Section More_vocabulary.
Context {hdr : headers}.

(** The ready completions at the head of the ring: the ones a read loop
    with enough capacity formats before it meets the end of the ring, a
    failed completion or a ring fault. *)
Fixpoint ready_prefix (slots : list Verbs.ring_slot) : list Verbs.ibv_cqe :=
  match slots with
  | Verbs.Completion c :: rest =>
      if ready c then c :: ready_prefix rest else []
  | _ => []
  end.

(** What a read that formats no entry returns, from the first slot of the
    ring and the capacity: try-again on an empty ring, the translated code
    of a ring fault, the error-available code on a failed completion, and 0
    when the capacity is 0 and the start succeeded. *)
Definition empty_read_ret (slots : list Verbs.ring_slot) (count : Z) : Z :=
  match slots with
  | [] => - FI_EAGAIN
  | Verbs.RingFault code :: _ => efa_cq_ibv_poll_error_to_fi_error code
  | Verbs.Completion c :: _ =>
      if (count =? 0) || ready c then 0 else - FI_EAVAIL
  end.

(** The number of slots a read with capacity [n] takes off the ring: the
    ready completions it formats, and the failed completion it stops on
    when the capacity lets the loop reach it.  A ring fault, and the
    completion the cursor stands on when the capacity is used up, are not
    among them. *)
Fixpoint consumed_slots (slots : list Verbs.ring_slot) (n : nat)
  {struct n} : nat :=
  match n, slots with
  | S n', Verbs.Completion c :: rest =>
      if ready c then S (consumed_slots rest n') else 1%nat
  | _, _ => 0%nat
  end.

(** Acquisitions and releases among the calls of [efa_cq_open] and
    [efa_cq_close]. *)
Definition is_calloc_ok (e : event) : bool :=
  match e with Ev_calloc true => true | _ => false end.
Definition is_cq_init_ok (e : event) : bool :=
  match e with Ev_cq_init r => r =? 0 | _ => false end.
Definition is_create_cq_ex_ok (e : event) : bool :=
  match e with Ev_create_cq_ex _ true => true | _ => false end.
Definition is_bufpool_create_ok (e : event) : bool :=
  match e with Ev_bufpool_create r => r =? 0 | _ => false end.
Definition is_spin_init (e : event) : bool :=
  match e with Ev_spin_init => true | _ => false end.
Definition is_bufpool_destroy (e : event) : bool :=
  match e with Ev_bufpool_destroy => true | _ => false end.
Definition is_destroy_cq (e : event) : bool :=
  match e with Ev_destroy_cq => true | _ => false end.
Definition is_cq_cleanup (e : event) : bool :=
  match e with Ev_cq_cleanup => true | _ => false end.
Definition is_spin_destroy (e : event) : bool :=
  match e with Ev_spin_destroy => true | _ => false end.

(** Every object, utility queue, ring and pool acquired in the trace is
    released in it exactly as often. *)
Definition balanced (t : list event) : Prop :=
  count_event is_calloc_ok t = count_event is_free t /\
  count_event is_cq_init_ok t = count_event is_cq_cleanup t /\
  count_event is_create_cq_ex_ok t = count_event is_destroy_cq t /\
  count_event is_bufpool_create_ok t = count_event is_bufpool_destroy t.

(** [efa_cq_open] has everything it needs to hand out a queue. *)
Definition open_succeeds (env : open_env) (attr : fi_cq_attr) : Prop :=
  wait_obj attr = FI_WAIT_NONE /\ calloc_ok env = true /\
  ofi_cq_init_ret env = 0 /\
  ibv_create_cq_ex_ret env (requested_cqe attr) <> None /\
  ofi_bufpool_create_ret env = 0 /\
  layout_binding (format attr) <> None.

(** The value of an [int]. *)
Definition int_range (e : Z) : Prop := - INT_MAX - 1 <= e <= INT_MAX.

End More_vocabulary.

(** Concrete values for the further properties. *)
Module More_examples.

Definition wc100 : efa_wc :=
  {| ibv_wc :=
       {| Verbs.wc_wr_id := 100; Verbs.wc_status := 0;
          Verbs.wc_opcode := IBV_WC_SEND; Verbs.wc_vendor_err := 0;
          Verbs.wc_byte_len := 10; Verbs.wc_imm_data := 0;
          Verbs.wc_qp_num := 1; Verbs.wc_src_qp := 7;
          Verbs.wc_wc_flags := 0; Verbs.wc_pkey_index := 0;
          Verbs.wc_slid := 3; Verbs.wc_sl := 0;
          Verbs.wc_dlid_path_bits := 0 |} |}.

Definition ctx0 : fi_cq_entry := {| ce_op_context := 0 |}.

Definition data0 : fi_cq_data_entry :=
  {| de_op_context := 0; de_flags := 0; de_len := 0; de_buf := 77;
     de_data := 55 |}.

Definition all_ok : open_env :=
  {| calloc_ok := true; ofi_cq_init_ret := 0;
     ibv_create_cq_ex_ret := fun _ => Some (Examples.ring_of []);
     ofi_bufpool_create_ret := 0 |}.

Definition attr_msg : fi_cq_attr :=
  {| size := 0; format := FI_CQ_FORMAT_MSG; wait_obj := FI_WAIT_NONE |}.

Definition close_ok : close_env :=
  {| ibv_destroy_cq_ret := 0; ofi_cq_cleanup_ret := 0 |}.

(** A ready completion, then a ring fault with code 22, then another
    ready completion. *)
Definition ready_then_fault : efa_cq :=
  Examples.queue Efa_cq_read_msg_entry
    [Verbs.Completion Examples.c100; Verbs.RingFault 22;
     Verbs.Completion Examples.c101].

(** [Examples.faulted] with one ready completion arrived on the ring. *)
Definition faulted_then_ready : efa_cq :=
  set_ibv_cq_ex
    (with_ring [Verbs.Completion Examples.c100]
       (ibv_cq_ex Examples.faulted))
    Examples.faulted.

(** A ready completion whose link identifier, 65539, does not fit 16
    bits; its low 16 bits are 3, the identifier [Examples.the_av] knows. *)
Definition c105 : Verbs.ibv_cqe :=
  {| Verbs.cqe_wr_id := 105; Verbs.cqe_status := 0;
     Verbs.cqe_opcode := IBV_WC_RECV; Verbs.cqe_vendor_err := 0;
     Verbs.cqe_byte_len := 50; Verbs.cqe_imm_data := 0;
     Verbs.cqe_qp_num := 1; Verbs.cqe_src_qp := 7;
     Verbs.cqe_wc_flags := 0; Verbs.cqe_slid := 65539; Verbs.cqe_sl := 0 |}.

Definition wide_slid : efa_cq :=
  Examples.queue Efa_cq_read_msg_entry
    [Verbs.Completion Examples.c100; Verbs.Completion c105;
     Verbs.Completion Examples.bad103].

(** A ready completion of queue pair 2, whose slot in the table of
    [Examples.the_domain] is empty. *)
Definition c_unmapped : Verbs.ibv_cqe :=
  {| Verbs.cqe_wr_id := 104; Verbs.cqe_status := 0;
     Verbs.cqe_opcode := IBV_WC_SEND; Verbs.cqe_vendor_err := 0;
     Verbs.cqe_byte_len := 10; Verbs.cqe_imm_data := 0;
     Verbs.cqe_qp_num := 2; Verbs.cqe_src_qp := 7;
     Verbs.cqe_wc_flags := 0; Verbs.cqe_slid := 3; Verbs.cqe_sl := 0 |}.

Definition unmapped_ready : efa_cq :=
  Examples.queue Efa_cq_read_msg_entry [Verbs.Completion c_unmapped].

End More_examples.

(** ** Facts about the header constants and the conversions *)

Section Header_facts.
Context {hdr : headers}.

Lemma errno_facts :
  (0 < ENOENT <= INT_MAX) /\ (0 < EINVAL <= INT_MAX) /\
  (0 < EIO <= INT_MAX) /\ (0 < FI_EAGAIN <= INT_MAX) /\
  (0 < FI_EAVAIL <= INT_MAX) /\ (0 < FI_ENOSYS <= INT_MAX) /\
  (0 < FI_ENOMEM <= INT_MAX) /\ (0 < FI_EINVAL <= INT_MAX).
Proof.
  pose proof errno_range as R.
  repeat match goal with
         | R : Forall _ (_ :: _) |- _ => inversion R; subst; clear R
         end.
  repeat split; tauto.
Qed.

Lemma sizeof_facts :
  (0 <= sizeof_fi_cq_entry <= SSIZE_MAX) /\
  (0 <= sizeof_fi_cq_msg_entry <= SSIZE_MAX) /\
  (0 <= sizeof_fi_cq_data_entry <= SSIZE_MAX) /\
  (0 <= sizeof_fi_cq_err_entry <= SSIZE_MAX).
Proof.
  pose proof sizeof_range as R.
  repeat match goal with
         | R : Forall _ (_ :: _) |- _ => inversion R; subst; clear R
         end.
  repeat split; tauto.
Qed.

End Header_facts.

Ltac header_facts :=
  pose proof errno_facts as
    (?ENOENT_r & ?EINVAL_r & ?EIO_r & ?EAGAIN_r & ?EAVAIL_r & ?ENOSYS_r &
     ?ENOMEM_r & ?FI_EINVAL_r);
  pose proof sizeof_facts as (?sz_ctx & ?sz_msg & ?sz_data & ?sz_err);
  unfold INT_MAX, SSIZE_MAX in *.

Lemma int_of_size_t_small (n : Z) :
  0 <= n <= INT_MAX -> int_of_size_t n = n.
Proof.
  unfold int_of_size_t, INT_MAX. intros Hn.
  rewrite Z.mod_small by lia. lia.
Qed.

Lemma ssize_t_of_size_t_of (n : Z) :
  - SSIZE_MAX - 1 <= n <= SSIZE_MAX -> ssize_t_of (size_t_of n) = n.
Proof.
  unfold ssize_t_of, size_t_of, SSIZE_MAX. intros Hn.
  rewrite Zplus_mod_idemp_l.
  rewrite Z.mod_small by lia. lia.
Qed.

Lemma ssize_t_of_small (n : Z) :
  0 <= n <= SSIZE_MAX -> ssize_t_of n = n.
Proof.
  unfold ssize_t_of, SSIZE_MAX. intros Hn.
  rewrite Z.mod_small by lia. lia.
Qed.

(** ** Arrays *)

Lemma length_update_nth {T : Type} (f : T -> T) (a : list T) (n : nat) :
  length (update_nth n f a) = length a.
Proof.
  revert n. induction a as [|x a IH]; intros [|n]; simpl; auto.
Qed.

Lemma update_nth_twice {T : Type} (f g : T -> T) (a : list T) (n : nat) :
  update_nth n g (update_nth n f a) = update_nth n (fun x => g (f x)) a.
Proof.
  revert n. induction a as [|x a IH]; intros [|n]; simpl; auto.
  now rewrite IH.
Qed.

Lemma update_nth_overwrite_at {T : Type} (f : Verbs.ibv_cqe -> T -> T)
  (c : Verbs.ibv_cqe) (a : list T) (n : nat) :
  update_nth n (f c) a = overwrite_at n f [c] a.
Proof.
  unfold overwrite_at. revert n.
  induction a as [|x a IH]; intros [|n]; simpl; auto.
  now rewrite IH.
Qed.

Lemma length_overwrite {T : Type} (f : Verbs.ibv_cqe -> T -> T)
  (cs : list Verbs.ibv_cqe) (a : list T) :
  length (overwrite f cs a) = length a.
Proof.
  revert a. induction cs as [|c cs IH]; intros [|x a]; simpl; auto.
Qed.

Lemma length_overwrite_at {T : Type} (f : Verbs.ibv_cqe -> T -> T)
  (cs : list Verbs.ibv_cqe) (a : list T) (n : nat) :
  length (overwrite_at n f cs a) = length a.
Proof.
  unfold overwrite_at.
  rewrite length_app, length_overwrite, <- length_app, firstn_skipn.
  reflexivity.
Qed.

Lemma overwrite_at_cons {T : Type} (f : Verbs.ibv_cqe -> T -> T)
  (c : Verbs.ibv_cqe) (cs : list Verbs.ibv_cqe) (a : list T) (n : nat) :
  (n < length a)%nat ->
  overwrite_at (S n) f cs (overwrite_at n f [c] a) = overwrite_at n f (c :: cs) a.
Proof.
  unfold overwrite_at. revert n.
  induction a as [|x a IH]; intros n Hn; simpl in Hn; [lia|].
  destruct n as [|n].
  - simpl. destruct cs; reflexivity.
  - simpl firstn. simpl skipn.
    specialize (IH n ltac:(lia)).
    simpl in IH |- *. now rewrite IH.
Qed.

Lemma overwrite_at_nil {T : Type} (f : Verbs.ibv_cqe -> T -> T)
  (a : list T) (n : nat) :
  overwrite_at n f [] a = a.
Proof. unfold overwrite_at. simpl. apply firstn_skipn. Qed.

(** Entry [j] of an overwritten array: written from completion [j] when
    there is one, kept otherwise. *)
Lemma nth_error_overwrite {T : Type} (f : Verbs.ibv_cqe -> T -> T)
  (cs : list Verbs.ibv_cqe) (a : list T) (j : nat) :
  nth_error (overwrite f cs a) j =
  match nth_error cs j, nth_error a j with
  | Some c, Some x => Some (f c x)
  | _, r => r
  end.
Proof.
  revert a j. induction cs as [|c cs IH]; intros a j.
  - simpl.
    replace (nth_error (@nil Verbs.ibv_cqe) j) with (@None Verbs.ibv_cqe)
      by (destruct j; reflexivity).
    destruct (nth_error a j); reflexivity.
  - destruct a as [|x a]; simpl.
    + replace (nth_error (@nil T) j) with (@None T)
        by (destruct j; reflexivity).
      destruct (nth_error (c :: cs) j); reflexivity.
    + destruct j; simpl; [reflexivity|]. apply IH.
Qed.

(** ** Running the monadic code *)

Lemma lock_set_lock (b : bool) (q : efa_cq) : lock (set_lock b q) = b.
Proof. reflexivity. Qed.

Lemma ibv_cq_ex_set_lock (b : bool) (q : efa_cq) :
  ibv_cq_ex (set_lock b q) = ibv_cq_ex q.
Proof. reflexivity. Qed.

Lemma read_entry_set_lock (b : bool) (q : efa_cq) :
  read_entry (set_lock b q) = read_entry q.
Proof. reflexivity. Qed.

Lemma domain_set_lock (b : bool) (q : efa_cq) :
  domain (set_lock b q) = domain q.
Proof. reflexivity. Qed.

Lemma lock_set_ibv_cq_ex (r : Verbs.ibv_cq_ex) (q : efa_cq) :
  lock (set_ibv_cq_ex r q) = lock q.
Proof. reflexivity. Qed.

Lemma ibv_cq_ex_set_ibv_cq_ex (r : Verbs.ibv_cq_ex) (q : efa_cq) :
  ibv_cq_ex (set_ibv_cq_ex r q) = r.
Proof. reflexivity. Qed.

Lemma read_entry_set_ibv_cq_ex (r : Verbs.ibv_cq_ex) (q : efa_cq) :
  read_entry (set_ibv_cq_ex r q) = read_entry q.
Proof. reflexivity. Qed.

Lemma domain_set_ibv_cq_ex (r : Verbs.ibv_cq_ex) (q : efa_cq) :
  domain (set_ibv_cq_ex r q) = domain q.
Proof. reflexivity. Qed.

Create Rewrite HintDb efa_cq.
#[export] Hint Rewrite lock_set_lock ibv_cq_ex_set_lock read_entry_set_lock
  domain_set_lock lock_set_ibv_cq_ex ibv_cq_ex_set_ibv_cq_ex
  read_entry_set_ibv_cq_ex domain_set_ibv_cq_ex : efa_cq.

Ltac run_monad :=
  cbv [run bind ret lift get_cq put_cq log ofi_spin_lock ofi_spin_unlock
       ibv_start_poll ibv_next_poll ibv_end_poll read_current];
  cbv beta iota;
  cbn [cq trace fst snd app];
  autorewrite with efa_cq.

Lemma set_lock_idle (q : efa_cq) :
  lock q = false -> set_lock false q = q.
Proof. destruct q; simpl; intros ->; reflexivity. Qed.

Lemma set_lock_twice (a b : bool) (q : efa_cq) :
  set_lock a (set_lock b q) = set_lock a q.
Proof. reflexivity. Qed.

(** ** The opcode conversion *)

Section Opcode.
Context {hdr : headers}.

Lemma supported_flags (op : ibv_wc_opcode) :
  supported op = true ->
  efa_cq_opcode_to_fi_flags op =
  Ok (Z.lor (if match op with IBV_WC_SEND => true | _ => false end
             then FI_SEND else FI_RECV) FI_MSG).
Proof. destruct op; simpl; intros E; try discriminate; reflexivity. Qed.

Lemma supported_returns (op : ibv_wc_opcode) :
  supported op = true -> exists f, efa_cq_opcode_to_fi_flags op = Ok f.
Proof. intros E. rewrite (supported_flags op E). eauto. Qed.

(** C6.  A Send completion reports exactly the flags FI_SEND and FI_MSG, a
    Receive completion exactly FI_RECV and FI_MSG (bit by bit); the
    conversion stops on [assert(0)] for the opcodes outside these two and
    for no other, so under the precondition that the opcode is Send or
    Receive the assertion is not reached. *)
Theorem opcode_flags_send_recv :
  efa_cq_opcode_to_fi_flags IBV_WC_SEND = Ok (Z.lor FI_SEND FI_MSG) /\
  efa_cq_opcode_to_fi_flags IBV_WC_RECV = Ok (Z.lor FI_RECV FI_MSG) /\
  (forall n, Z.testbit (Z.lor FI_SEND FI_MSG) n = true <->
             Z.testbit FI_SEND n = true \/ Z.testbit FI_MSG n = true) /\
  (forall n, Z.testbit (Z.lor FI_RECV FI_MSG) n = true <->
             Z.testbit FI_RECV n = true \/ Z.testbit FI_MSG n = true) /\
  (forall op, op = IBV_WC_SEND \/ op = IBV_WC_RECV ->
              efa_cq_opcode_to_fi_flags op <> Stop AssertFailed) /\
  (forall op, op <> IBV_WC_SEND -> op <> IBV_WC_RECV ->
              efa_cq_opcode_to_fi_flags op = Stop AssertFailed).
Proof.
  split; [reflexivity|]. split; [reflexivity|].
  split; [|split]; [| |split].
  - intros n. rewrite Z.lor_spec. apply orb_true_iff.
  - intros n. rewrite Z.lor_spec. apply orb_true_iff.
  - intros op [-> | ->]; discriminate.
  - intros op Hs Hr. destruct op; try reflexivity; congruence.
Qed.

End Opcode.

(** ** The error entry point *)

Section Readerr.
Context {hdr : headers}.

Lemma readerr_idle (q : efa_cq) (entry : fi_cq_err_entry) (fl : Z) :
  lock q = false -> Verbs.status (ibv_cq_ex q) = 0 ->
  run (efa_cq_readerr entry fl) q =
  Ok ((- FI_EAGAIN, entry), {| cq := q; trace := lock_unlock |}).
Proof.
  intros Hl Hs. unfold efa_cq_readerr. run_monad.
  rewrite Hl. run_monad.
  apply Z.eqb_eq in Hs. rewrite Hs. run_monad.
  rewrite set_lock_twice, set_lock_idle by assumption. reflexivity.
Qed.

Lemma readerr_pending (q : efa_cq) (entry : fi_cq_err_entry) (fl : Z) :
  lock q = false -> Verbs.status (ibv_cq_ex q) <> 0 ->
  run (efa_cq_readerr entry fl) q =
  match efa_cq_opcode_to_fi_flags (Verbs.ibv_wc_read_opcode (ibv_cq_ex q))
  with
  | Ok f =>
      Ok ((sizeof_fi_cq_err_entry, err_entry_of q f entry),
          {| cq := q; trace := lock_unlock |})
  | Stop s => Stop s
  end.
Proof.
  intros Hl Hs. unfold efa_cq_readerr. run_monad.
  rewrite Hl. run_monad.
  apply Z.eqb_neq in Hs. rewrite Hs. run_monad.
  destruct (efa_cq_opcode_to_fi_flags _) as [f|s]; [|reflexivity].
  run_monad. rewrite set_lock_twice, set_lock_idle by assumption.
  unfold err_entry_of, efa_cq_api_version.
  destruct (FI_VERSION_GE _ _); reflexivity.
Qed.

Lemma readerr_held (q : efa_cq) (entry : fi_cq_err_entry) (fl : Z) :
  lock q = true -> run (efa_cq_readerr entry fl) q = Stop SpinForever.
Proof.
  intros Hl. unfold efa_cq_readerr. run_monad. rewrite Hl. reflexivity.
Qed.

End Readerr.

Section Readerr_claims.
Context {hdr : headers}.

(** C4.  [efa_cq_readerr] returns -FI_EAGAIN exactly when the status field
    of the ring is zero, and then hands the caller's record back as it was.
    With a non-zero status it stores the pending work-request identifier as
    operation context, the flags of the pending opcode, EIO and the raw
    status, sets [err_data_size] to zero when the API version is at least
    1.5 and leaves it alone otherwise, and returns the size of the record;
    the queue is left as it was. *)
Theorem readerr_spec (q : efa_cq) (entry : fi_cq_err_entry) (fl : Z) :
  lock q = false ->
  (Verbs.status (ibv_cq_ex q) = 0 ->
   run (efa_cq_readerr entry fl) q =
   Ok ((- FI_EAGAIN, entry), {| cq := q; trace := lock_unlock |})) /\
  (Verbs.status (ibv_cq_ex q) <> 0 ->
   run (efa_cq_readerr entry fl) q =
   match
     efa_cq_opcode_to_fi_flags (Verbs.ibv_wc_read_opcode (ibv_cq_ex q))
   with
   | Ok f =>
       Ok ((sizeof_fi_cq_err_entry, err_entry_of q f entry),
           {| cq := q; trace := lock_unlock |})
   | Stop s => Stop s
   end) /\
  (forall f,
     let e := err_entry_of q f entry in
     op_context e = Verbs.wr_id (ibv_cq_ex q) /\
     flags e = f /\ err e = EIO /\
     prov_errno e = Verbs.status (ibv_cq_ex q) /\
     (FI_VERSION_GE (api_version (domain q)) (FI_VERSION 1 5) = true ->
      err_data_size e = 0) /\
     (FI_VERSION_GE (api_version (domain q)) (FI_VERSION 1 5) = false ->
      err_data_size e = err_data_size entry)) /\
  (forall r e w,
     run (efa_cq_readerr entry fl) q = Ok ((r, e), w) ->
     (r = - FI_EAGAIN <-> Verbs.status (ibv_cq_ex q) = 0)).
Proof.
  intros Hl.
  split; [apply readerr_idle; assumption|].
  split; [apply readerr_pending; assumption|].
  split.
  - intros f e. unfold e, err_entry_of. simpl.
    repeat split; intros ->; reflexivity.
  - intros r e w Hrun. header_facts.
    destruct (Z.eq_dec (Verbs.status (ibv_cq_ex q)) 0) as [Hs|Hs].
    + rewrite readerr_idle in Hrun by assumption.
      inversion Hrun; subst. tauto.
    + rewrite readerr_pending in Hrun by assumption.
      destruct (efa_cq_opcode_to_fi_flags _); [|discriminate].
      inversion Hrun; subst. split; [lia|tauto].
Qed.

(** C5, as the code has it.  [efa_cq_readerr] does not clear the pending
    error: it leaves the queue, ring status included, as it found it, so a
    second call with no poll in between returns the same size and the same
    record again. *)
Theorem readerr_keeps_pending_error (q : efa_cq) (entry : fi_cq_err_entry)
  (fl : Z) :
  lock q = false ->
  Verbs.status (ibv_cq_ex q) = 0 \/
  supported (Verbs.ibv_wc_read_opcode (ibv_cq_ex q)) = true ->
  exists r e w,
    run (efa_cq_readerr entry fl) q = Ok ((r, e), w) /\
    cq w = q /\
    run (efa_cq_readerr e fl) (cq w) = Ok ((r, e), w) /\
    (Verbs.status (ibv_cq_ex q) <> 0 -> r = sizeof_fi_cq_err_entry).
Proof.
  intros Hl Hc.
  destruct (Z.eq_dec (Verbs.status (ibv_cq_ex q)) 0) as [Hs|Hs].
  - exists (- FI_EAGAIN), entry, {| cq := q; trace := lock_unlock |}.
    rewrite readerr_idle by assumption. simpl.
    rewrite readerr_idle by assumption. tauto.
  - destruct Hc as [Hc|Hc]; [contradiction|].
    destruct (supported_returns _ Hc) as [f Hf].
    exists sizeof_fi_cq_err_entry, (err_entry_of q f entry),
      {| cq := q; trace := lock_unlock |}.
    rewrite readerr_pending, Hf by assumption. simpl.
    rewrite readerr_pending, Hf by assumption.
    repeat split.
    unfold err_entry_of. simpl.
    destruct (FI_VERSION_GE _ _); reflexivity.
Qed.

End Readerr_claims.

Lemma readerr_spec_witness :
  lock Examples.faulted = false /\
  run (efa_cq_readerr (hdr := linux_headers) Examples.err0 0) Examples.faulted =
  Ok ((80, Examples.faulted_record),
      {| cq := Examples.faulted; trace := lock_unlock |}).
Proof.
  split; [reflexivity|].
  destruct (readerr_spec (hdr := linux_headers) Examples.faulted Examples.err0
              0 eq_refl) as (_ & Hp & _).
  apply Hp. discriminate.
Defined.

Lemma readerr_keeps_pending_error_witness :
  lock Examples.faulted = false /\
  (Verbs.status (ibv_cq_ex Examples.faulted) = 0 \/
   supported (Verbs.ibv_wc_read_opcode (ibv_cq_ex Examples.faulted)) = true) /\
  exists r e w,
    run (efa_cq_readerr (hdr := linux_headers) Examples.err0 0) Examples.faulted =
    Ok ((r, e), w) /\
    cq w = Examples.faulted /\
    run (efa_cq_readerr (hdr := linux_headers) e 0) (cq w) = Ok ((r, e), w) /\
    (Verbs.status (ibv_cq_ex Examples.faulted) <> 0 ->
     r = @sizeof_fi_cq_err_entry linux_headers).
Proof.
  split; [reflexivity|]. split; [right; reflexivity|].
  apply (readerr_keeps_pending_error (hdr := linux_headers) Examples.faulted
           Examples.err0 0); [reflexivity | right; reflexivity].
Defined.


(** C5, as the claim states it, fails: on a queue whose last polled
    completion failed, the first call returns the record and its size (80),
    and so does the second call on the resulting queue; it does not return
    -FI_EAGAIN (-11). *)
Lemma readerr_twice_counterexample :
  run (efa_cq_readerr (hdr := linux_headers) Examples.err0 0) Examples.faulted =
  Ok ((80, Examples.faulted_record),
      {| cq := Examples.faulted; trace := lock_unlock |}) /\
  run (efa_cq_readerr (hdr := linux_headers) Examples.faulted_record 0)
    Examples.faulted =
  Ok ((80, Examples.faulted_record),
      {| cq := Examples.faulted; trace := lock_unlock |}) /\
  80 <> - @FI_EAGAIN linux_headers.
Proof. split; [reflexivity|]. split; [reflexivity|]. discriminate. Qed.

(** ** Teardown and creation *)

Section Lifecycle.
Context {hdr : headers}.

(** C9.  When [ibv_destroy_cq] fails, [efa_cq_close] returns its negated
    (non-zero) result; the calls made are, in this order, the destruction
    of the buffer pool, of the lock and the failed ring destruction:
    neither [ofi_cq_cleanup] nor [free] is called, so the queue object is
    not freed. *)
Theorem close_ring_destruction_failure (env : close_env) (q : efa_cq) :
  ibv_destroy_cq_ret env <> 0 ->
  run (efa_cq_close env) q =
  Ok (- ibv_destroy_cq_ret env,
      {| cq := q;
         trace := [Ev_bufpool_destroy; Ev_spin_destroy; Ev_destroy_cq] |}) /\
  - ibv_destroy_cq_ret env <> 0 /\
  count_event is_free
    [Ev_bufpool_destroy; Ev_spin_destroy; Ev_destroy_cq] = 0%nat.
Proof.
  intros Hr. split; [|split; [lia|reflexivity]].
  unfold efa_cq_close. run_monad.
  destruct (- ibv_destroy_cq_ret env =? 0) eqn:E; [lia|].
  reflexivity.
Qed.

Lemma close_success (env : close_env) (q : efa_cq) :
  ibv_destroy_cq_ret env = 0 -> ofi_cq_cleanup_ret env = 0 ->
  run (efa_cq_close env) q =
  Ok (0, {| cq := q;
            trace := [Ev_bufpool_destroy; Ev_spin_destroy; Ev_destroy_cq;
                      Ev_cq_cleanup; Ev_free] |}).
Proof.
  intros Hd Hc. unfold efa_cq_close. run_monad.
  rewrite Hd, Hc. reflexivity.
Qed.

Lemma open_reaches_switch (env : open_env) (d : efa_domain)
  (attr : fi_cq_attr) (r : Verbs.ibv_cq_ex) :
  wait_obj attr = FI_WAIT_NONE -> calloc_ok env = true ->
  ofi_cq_init_ret env = 0 ->
  ibv_create_cq_ex_ret env (requested_cqe attr) = Some r ->
  ofi_bufpool_create_ret env = 0 ->
  efa_cq_open env d attr =
  match layout_binding (format attr) with
  | Some (fn, sz) =>
      (0, Some (new_cq d r fn sz), open_calls attr ++ [Ev_spin_init])
  | None => (- FI_ENOSYS, None, open_calls attr ++ err_destroy_pool)
  end.
Proof.
  intros Hw Hc Hi Hr Hb. unfold efa_cq_open, open_calls.
  rewrite Hw, Hc, Hi, Hb. simpl negb. cbv iota.
  unfold requested_cqe in Hr |- *.
  destruct (size attr =? 0); simpl negb; cbv iota; rewrite Hr;
    destruct (format attr); reflexivity.
Qed.

Lemma open_success_inv (env : open_env) (d : efa_domain) (attr : fi_cq_attr)
  (q : efa_cq) (t : list event) (r : Z) :
  efa_cq_open env d attr = (r, Some q, t) ->
  r = 0 /\ wait_obj attr = FI_WAIT_NONE /\
  ibv_create_cq_ex_ret env (requested_cqe attr) = Some (ibv_cq_ex q) /\
  layout_binding (format attr) = Some (read_entry q, entry_size q) /\
  lock q = false /\ domain q = d /\
  t = open_calls attr ++ [Ev_spin_init].
Proof.
  unfold efa_cq_open, open_calls, requested_cqe.
  destruct (wait_obj attr); simpl; try discriminate.
  destruct (calloc_ok env); simpl; try discriminate.
  destruct (ofi_cq_init_ret env =? 0) eqn:Ei; simpl; try discriminate.
  apply Z.eqb_eq in Ei. rewrite Ei.
  replace (if negb (size attr =? 0) then size attr else EFA_DEF_CQ_SIZE)
    with (if size attr =? 0 then EFA_DEF_CQ_SIZE else size attr)
    by (destruct (size attr =? 0); reflexivity).
  destruct (ibv_create_cq_ex_ret env _) as [r0|]; try discriminate.
  destruct (ofi_bufpool_create_ret env =? 0) eqn:Eb; simpl; try discriminate.
  apply Z.eqb_eq in Eb. rewrite Eb.
  destruct (format attr); simpl; intros E; inversion E; subst;
    repeat split; reflexivity.
Qed.

Lemma open_failure_code (env : open_env) (d : efa_domain) (attr : fi_cq_attr)
  (t : list event) (r : Z) :
  efa_cq_open env d attr = (r, None, t) -> r <> 0.
Proof.
  header_facts.
  unfold efa_cq_open.
  destruct (fi_wait_obj_eqb _ _); simpl;
    [|intros E; inversion E; lia].
  destruct (calloc_ok env); simpl; [|intros E; inversion E; lia].
  destruct (ofi_cq_init_ret env =? 0) eqn:Ei; simpl;
    [|intros E; inversion E; subst; apply Z.eqb_neq; assumption].
  destruct (ibv_create_cq_ex_ret env _) as [r0|];
    [|intros E; inversion E; lia].
  destruct (ofi_bufpool_create_ret env =? 0) eqn:Eb; simpl;
    [|intros E; inversion E; subst; apply Z.eqb_neq; assumption].
  destruct (format attr); intros E; inversion E; lia.
Qed.

Lemma open_create_cq_ex_size (env : open_env) (d : efa_domain)
  (attr : fi_cq_attr) (n : Z) (ok : bool) :
  In (Ev_create_cq_ex n ok) (snd (efa_cq_open env d attr)) ->
  n = requested_cqe attr.
Proof.
  unfold efa_cq_open, requested_cqe.
  replace (if negb (size attr =? 0) then size attr else EFA_DEF_CQ_SIZE)
    with (if size attr =? 0 then EFA_DEF_CQ_SIZE else size attr)
    by (destruct (size attr =? 0); reflexivity).
  destruct (fi_wait_obj_eqb _ _); simpl; [|tauto].
  destruct (calloc_ok env); simpl; [|intuition discriminate].
  destruct (ofi_cq_init_ret env =? 0); simpl;
    [|intuition discriminate].
  destruct (ibv_create_cq_ex_ret env _) as [r0|]; simpl.
  - destruct (ofi_bufpool_create_ret env =? 0); simpl.
    + destruct (format attr); simpl;
        intuition (try discriminate; congruence).
    + intuition (try discriminate; congruence).
  - intuition (try discriminate; congruence).
Qed.

(** C8.  [efa_cq_open] rejects every wait object other than FI_WAIT_NONE
    with -FI_ENOSYS before it makes any call (nothing is allocated).  The
    tagged layout and every value outside the enumeration are bound to no
    formatter: creation never gives a queue for them, and once the layout
    [switch] is reached it returns -FI_ENOSYS after releasing, in order,
    the pool, the ring, the utility queue and the object.  The ring is
    asked for the requested capacity, EFA_DEF_CQ_SIZE when that is zero.  A
    queue that is handed out has the lock free and exactly the formatter
    and entry size of its layout: the context pair for the unspecified and
    context layouts, the message pair, or the data pair. *)
Theorem open_spec (env : open_env) (d : efa_domain) (attr : fi_cq_attr) :
  (wait_obj attr <> FI_WAIT_NONE ->
   efa_cq_open env d attr = (- FI_ENOSYS, None, [])) /\
  (layout_binding (format attr) = None <->
   format attr = FI_CQ_FORMAT_TAGGED \/
   exists n, format attr = FI_CQ_FORMAT_other n) /\
  (layout_binding (format attr) = None ->
   (exists r t, efa_cq_open env d attr = (r, None, t) /\ r <> 0) /\
   (wait_obj attr = FI_WAIT_NONE -> calloc_ok env = true ->
    ofi_cq_init_ret env = 0 ->
    ibv_create_cq_ex_ret env (requested_cqe attr) <> None ->
    ofi_bufpool_create_ret env = 0 ->
    efa_cq_open env d attr =
    (- FI_ENOSYS, None,
     open_calls attr ++
     [Ev_bufpool_destroy; Ev_destroy_cq; Ev_cq_cleanup; Ev_free]))) /\
  (forall n ok,
     In (Ev_create_cq_ex n ok) (snd (efa_cq_open env d attr)) ->
     n = requested_cqe attr) /\
  (size attr = 0 -> requested_cqe attr = uint32_of EFA_DEF_CQ_SIZE) /\
  (forall r q t,
     efa_cq_open env d attr = (r, Some q, t) ->
     r = 0 /\ lock q = false /\
     ((read_entry q, entry_size q) =
        (Efa_cq_read_context_entry, sizeof_fi_cq_entry) /\
      (format attr = FI_CQ_FORMAT_UNSPEC \/
       format attr = FI_CQ_FORMAT_CONTEXT) \/
      (read_entry q, entry_size q) =
        (Efa_cq_read_msg_entry, sizeof_fi_cq_msg_entry) /\
      format attr = FI_CQ_FORMAT_MSG \/
      (read_entry q, entry_size q) =
        (Efa_cq_read_data_entry, sizeof_fi_cq_data_entry) /\
      format attr = FI_CQ_FORMAT_DATA)) /\
  (forall fn sz r0,
     layout_binding (format attr) = Some (fn, sz) ->
     wait_obj attr = FI_WAIT_NONE -> calloc_ok env = true ->
     ofi_cq_init_ret env = 0 ->
     ibv_create_cq_ex_ret env (requested_cqe attr) = Some r0 ->
     ofi_bufpool_create_ret env = 0 ->
     efa_cq_open env d attr =
     (0, Some (new_cq d r0 fn sz), open_calls attr ++ [Ev_spin_init])).
Proof.
  split; [|split; [|split; [|split; [|split; [|split]]]]].
  - intros Hw. unfold efa_cq_open.
    destruct (wait_obj attr); simpl; try reflexivity. congruence.
  - destruct (format attr); simpl; split;
      try discriminate; try tauto; eauto;
      intros [E|[n E]]; discriminate.
  - intros Hn. split.
    + destruct (efa_cq_open env d attr) as [[r o] t] eqn:E.
      destruct o as [q|].
      * apply open_success_inv in E.
        destruct E as (_ & _ & _ & E & _). congruence.
      * exists r, t. split; [reflexivity|].
        eapply open_failure_code; eassumption.
    + intros Hw Hc Hi Hr Hb.
      destruct (ibv_create_cq_ex_ret env (requested_cqe attr)) as [r0|] eqn:E;
        [|congruence].
      rewrite (open_reaches_switch env d attr r0) by assumption.
      rewrite Hn. reflexivity.
  - apply open_create_cq_ex_size.
  - intros Hs. unfold requested_cqe. rewrite Hs. reflexivity.
  - intros r q t E. apply open_success_inv in E.
    destruct E as (Hr & _ & _ & Hl & Hk & _ & _).
    split; [assumption|]. split; [assumption|].
    destruct (format attr); simpl in Hl; inversion Hl; auto 6.
  - intros fn sz r0 Hl Hw Hc Hi Hr Hb.
    rewrite (open_reaches_switch env d attr r0) by assumption.
    rewrite Hl. reflexivity.
Qed.

End Lifecycle.

Lemma close_ring_destruction_failure_witness :
  ibv_destroy_cq_ret {| ibv_destroy_cq_ret := 16; ofi_cq_cleanup_ret := 0 |}
  <> 0 /\
  run (efa_cq_close {| ibv_destroy_cq_ret := 16; ofi_cq_cleanup_ret := 0 |})
    Examples.faulted =
  Ok (-16,
      {| cq := Examples.faulted;
         trace := [Ev_bufpool_destroy; Ev_spin_destroy; Ev_destroy_cq] |}).
Proof.
  split; [discriminate|].
  apply (close_ring_destruction_failure
           {| ibv_destroy_cq_ret := 16; ofi_cq_cleanup_ret := 0 |}
           Examples.faulted).
  discriminate.
Defined.

(** ** The read loop *)

Section Read_loop.
Context {hdr : headers}.

(** One round of the loop, with the calls to the outside made explicit. *)
Lemma readfrom_loop_round (fuel : nat) (count : Z) (l : locals) (w : world) :
  readfrom_loop (S fuel) count l w =
  if (l_err l =? 0) && (l_num_cqe l <? count) then
    let q := ibv_cq_ex (cq w) in
    let wc :=
      {| ibv_wc := efa_cq_wc_from_ibv_cq_ex_unsafe q (ibv_wc (l_wc l)) |} in
    if negb (Verbs.status q =? 0) then
      Ok ({| l_err := - FI_EAVAIL; l_num_cqe := l_num_cqe l; l_wc := wc;
             l_buf := l_buf l; l_src_addr := l_src_addr l |}, read_world w)
    else
      match
        store_src_addr (domain (cq w)) wc (l_num_cqe l) (l_src_addr l)
      with
      | Stop s => Stop s
      | Ok src_addr =>
          match
            call_read_entry (read_entry (cq w)) wc
              (int_of_size_t (l_num_cqe l)) (l_buf l)
          with
          | Stop s => Stop s
          | Ok b =>
              readfrom_loop fuel count
                {| l_err :=
                     fst (Verbs.ibv_next_poll (Verbs.read_current q));
                   l_num_cqe := l_num_cqe l + 1; l_wc := wc; l_buf := b;
                   l_src_addr := src_addr |}
                {| cq :=
                     set_ibv_cq_ex
                       (snd (Verbs.ibv_next_poll (Verbs.read_current q)))
                       (cq w);
                   trace :=
                     trace w ++
                     [Ev_read_entry (int_of_size_t (l_num_cqe l));
                      Ev_next_poll
                        (fst (Verbs.ibv_next_poll
                                (Verbs.read_current q)))] |}
          end
      end
  else Ok (l, w).
Proof.
  cbn [readfrom_loop].
  destruct ((l_err l =? 0) && (l_num_cqe l <? count)); [|reflexivity].
  run_monad.
  destruct (negb (Verbs.status (ibv_cq_ex (cq w)) =? 0)); [reflexivity|].
  unfold store_src_addr.
  destruct (l_src_addr l) as [a|]; run_monad.
  - destruct (qp_table_av _ _) as [v|s]; [|reflexivity]. cbn [bind_result].
    destruct (store a _ _) as [a'|s]; [|reflexivity]. cbn [bind_result].
    destruct (call_read_entry _ _ _ _) as [b|s]; [|reflexivity].
    destruct (Verbs.ibv_next_poll _) as [e q'].
    cbn [fst snd cq trace]. rewrite <- app_assoc. reflexivity.
  - destruct (call_read_entry _ _ _ _) as [b|s]; [|reflexivity].
    destruct (Verbs.ibv_next_poll _) as [e q'].
    cbn [fst snd cq trace]. rewrite <- app_assoc. reflexivity.
Qed.

Lemma polling_next_poll (q : Verbs.ibv_cq_ex) :
  Verbs.polling (snd (Verbs.ibv_next_poll q)) = Verbs.polling q.
Proof.
  unfold Verbs.ibv_next_poll, Verbs.move_cursor.
  destruct (nth_error _ _) as [[c|code]|]; reflexivity.
Qed.

Lemma polling_read_current (q : Verbs.ibv_cq_ex) :
  Verbs.polling (Verbs.read_current q) = Verbs.polling q.
Proof. unfold Verbs.read_current. destruct (Verbs.cursor q); reflexivity. Qed.

(** What the loop leaves alone, and the calls it makes: one formatter call
    and one cursor move for every entry it counts. *)
Lemma readfrom_loop_frame (fuel : nat) (count : Z) :
  forall (l : locals) (w : world) (l' : locals) (w' : world),
    readfrom_loop fuel count l w = Ok (l', w') ->
    lock (cq w') = lock (cq w) /\
    read_entry (cq w') = read_entry (cq w) /\
    entry_size (cq w') = entry_size (cq w) /\
    domain (cq w') = domain (cq w) /\
    Verbs.polling (ibv_cq_ex (cq w')) = Verbs.polling (ibv_cq_ex (cq w)) /\
    l_num_cqe l <= l_num_cqe l' /\
    exists t,
      trace w' = trace w ++ t /\
      forallb is_loop_event t = true /\
      Z.of_nat (count_event is_read_entry t) = l_num_cqe l' - l_num_cqe l /\
      Z.of_nat (count_event is_next_poll t) = l_num_cqe l' - l_num_cqe l.
Proof.
  induction fuel as [|fuel IH]; intros l w l' w' Hrun.
  - inversion Hrun; subst. repeat split; try lia.
    exists []. rewrite app_nil_r. simpl. repeat split; lia.
  - rewrite readfrom_loop_round in Hrun.
    destruct ((l_err l =? 0) && (l_num_cqe l <? count)).
    2:{ inversion Hrun; subst. repeat split; try lia.
        exists []. rewrite app_nil_r. simpl. repeat split; lia. }
    cbv zeta in Hrun.
    destruct (negb (Verbs.status (ibv_cq_ex (cq w)) =? 0)).
    { inversion Hrun; subst. cbn [l_num_cqe read_world cq trace].
      autorewrite with efa_cq. rewrite polling_read_current.
      repeat split; try lia.
      exists []. rewrite app_nil_r. simpl. repeat split; lia. }
    destruct (store_src_addr _ _ _ _) as [src|s]; [|discriminate].
    destruct (call_read_entry _ _ _ _) as [b|s]; [|discriminate].
    apply IH in Hrun. cbn [cq trace l_num_cqe] in Hrun.
    autorewrite with efa_cq in Hrun.
    rewrite polling_next_poll, polling_read_current in Hrun.
    destruct Hrun as (Hl & Hr & Hz & Hd & Hp & Hn & t & Ht & Hf & Hc1 & Hc2).
    repeat split; try assumption; try lia.
    eexists. rewrite Ht, <- app_assoc. split; [reflexivity|].
    unfold count_event in *. cbn [app forallb filter is_loop_event
      is_read_entry is_next_poll orb andb length].
    split; [assumption|]. split; lia.
Qed.

(** [efa_cq_readfrom] around its loop. *)
Lemma readfrom_unfold (q : efa_cq) (b : cq_buf) (count : Z)
  (src_addr : option (list Z)) :
  lock q = false ->
  run (efa_cq_readfrom b count src_addr) q =
  let e := fst (Verbs.ibv_start_poll (ibv_cq_ex q) 0) in
  match
    readfrom_loop (Z.to_nat count) count (loop_entry e b src_addr) (started q)
  with
  | Ok (l, w) => Ok ((readfrom_ret l, l_buf l, l_src_addr l), finished e w)
  | Stop s => Stop s
  end.
Proof.
  intros Hl. unfold efa_cq_readfrom. run_monad. rewrite Hl. run_monad.
  unfold started, loop_entry, finished, readfrom_ret.
  destruct (Verbs.ibv_start_poll (ibv_cq_ex q) 0) as [e q0]. run_monad.
  destruct (readfrom_loop _ _ _ _) as [[l w]|s]; [|reflexivity].
  destruct (e =? 0); run_monad; rewrite <- ?app_assoc; reflexivity.
Qed.

Lemma readfrom_held (q : efa_cq) (b : cq_buf) (count : Z)
  (src_addr : option (list Z)) :
  lock q = true ->
  run (efa_cq_readfrom b count src_addr) q = Stop SpinForever.
Proof.
  intros Hl. unfold efa_cq_readfrom. run_monad. rewrite Hl. reflexivity.
Qed.

Lemma in_bounds_true {T : Type} (a : list T) (i : Z) :
  in_bounds a i = true <-> 0 <= i < Z.of_nat (length a).
Proof. unfold in_bounds. rewrite andb_true_iff. lia. Qed.

Lemma store_in_bounds {T : Type} (a : list T) (i : Z) (f : T -> T) :
  0 <= i < Z.of_nat (length a) ->
  store a i f = Ok (update_nth (Z.to_nat i) f a).
Proof.
  intros Hi. unfold store. apply in_bounds_true in Hi. now rewrite Hi.
Qed.

(** A formatter call on an entry inside the buffer of its layout writes
    the entry of the completion the work completion was read from. *)
Lemma call_read_entry_ok (fn : read_entry_fn) (wc : efa_wc) (i : Z)
  (b : cq_buf) (c : Verbs.ibv_cqe) :
  layout_matches fn b = true ->
  0 <= i < Z.of_nat (cq_buf_length b) ->
  Verbs.wc_wr_id (ibv_wc wc) = Verbs.cqe_wr_id c ->
  Verbs.wc_opcode (ibv_wc wc) = Verbs.cqe_opcode c ->
  Verbs.wc_byte_len (ibv_wc wc) = Verbs.cqe_byte_len c ->
  reportable fn (Verbs.cqe_opcode c) = true ->
  call_read_entry fn wc i b = Ok (formatted_at (Z.to_nat i) [c] b).
Proof.
  intros Hm Hi Hw Ho Hb Hr.
  destruct fn, b as [a|a|a]; try discriminate; cbn [cq_buf_length] in Hi;
    cbn [call_read_entry formatted_at reportable] in *.
  - unfold efa_cq_read_context_entry.
    rewrite store_in_bounds by assumption. cbn [bind_result].
    rewrite Hw, <- update_nth_overwrite_at. reflexivity.
  - unfold efa_cq_read_msg_entry, efa_cq_wc_to_fi_flags.
    rewrite store_in_bounds by assumption. cbn [bind_result].
    rewrite Ho. destruct (supported_returns _ Hr) as [f Hf]. rewrite Hf.
    cbn [bind_result].
    rewrite store_in_bounds by (rewrite length_update_nth; assumption).
    cbn [bind_result].
    rewrite update_nth_twice, <- update_nth_overwrite_at.
    unfold msg_entry_of, fi_flags. rewrite Hf, Hw, Hb. reflexivity.
  - unfold efa_cq_read_data_entry, efa_cq_wc_to_fi_flags.
    rewrite store_in_bounds by assumption. cbn [bind_result].
    rewrite Ho. destruct (supported_returns _ Hr) as [f Hf]. rewrite Hf.
    cbn [bind_result].
    rewrite store_in_bounds by (rewrite length_update_nth; assumption).
    cbn [bind_result].
    rewrite update_nth_twice, <- update_nth_overwrite_at.
    unfold data_entry_of, fi_flags. rewrite Hf, Hw, Hb. reflexivity.
Qed.

Lemma layout_matches_formatted_at (fn : read_entry_fn) (n : nat)
  (cs : list Verbs.ibv_cqe) (b : cq_buf) :
  layout_matches fn (formatted_at n cs b) = layout_matches fn b.
Proof. destruct fn, b; reflexivity. Qed.

Lemma cq_buf_length_formatted_at (n : nat) (cs : list Verbs.ibv_cqe)
  (b : cq_buf) :
  cq_buf_length (formatted_at n cs b) = cq_buf_length b.
Proof. destruct b; simpl; apply length_overwrite_at. Qed.

Lemma store_src_addr_ok (d : efa_domain) (wc : efa_wc) (i : Z)
  (src_addr : option (list Z)) (c : Verbs.ibv_cqe) :
  match src_addr with
  | Some a => 0 <= i < Z.of_nat (length a)
  | None => True
  end ->
  Verbs.wc_qp_num (ibv_wc wc) = Verbs.cqe_qp_num c ->
  Verbs.wc_slid (ibv_wc wc) = uint16_of (Verbs.cqe_slid c) ->
  Verbs.wc_src_qp (ibv_wc wc) = Verbs.cqe_src_qp c ->
  negb (wants_addr src_addr) || resolvable d c = true ->
  store_src_addr d wc i src_addr = Ok (resolved_at (Z.to_nat i) d [c] src_addr).
Proof.
  intros Hi Hq Hs Hp Hr. destruct src_addr as [a|]; [|reflexivity].
  cbn [wants_addr negb orb] in Hr. unfold resolvable in Hr.
  unfold store_src_addr, resolved_at, option_map.
  rewrite Hq, Hs, Hp.
  rewrite <- update_nth_overwrite_at. unfold source_address.
  destruct (qp_table_av d (Verbs.cqe_qp_num c)) as [v|]; [|discriminate].
  cbn [bind_result]. rewrite store_in_bounds by assumption. reflexivity.
Qed.

Lemma cursor_cqe_cursor_on (c : Verbs.ibv_cqe) (rest : list Verbs.ring_slot)
  (q : Verbs.ibv_cq_ex) :
  cursor_cqe (cursor_on c rest q) = c.
Proof. destruct c; reflexivity. Qed.

(** A round of the loop on a ready, formattable completion. *)
Lemma readfrom_loop_round_exact (fuel : nat) (count : Z) (l : locals)
  (w : world) :
  l_err l = 0 -> l_num_cqe l < count ->
  Verbs.status (ibv_cq_ex (cq w)) = 0 ->
  formattable (cq w) (wants_addr (l_src_addr l))
    (Verbs.cur_cqe (ibv_cq_ex (cq w))) = true ->
  0 <= l_num_cqe l <= INT_MAX ->
  layout_matches (read_entry (cq w)) (l_buf l) = true ->
  l_num_cqe l < Z.of_nat (cq_buf_length (l_buf l)) ->
  src_room (l_num_cqe l + 1) (l_src_addr l) ->
  readfrom_loop (S fuel) count l w =
  readfrom_loop fuel count (round_locals l w) (round_world l w).
Proof.
  intros He Hlt Hs Hcur Hn Hlay Hroom Hsrc.
  unfold formattable in Hcur.
  apply andb_true_iff in Hcur. destruct Hcur as [Hrep Hres].
  rewrite readfrom_loop_round.
  rewrite He, Z.eqb_refl. apply Z.ltb_lt in Hlt. rewrite Hlt.
  apply Z.ltb_lt in Hlt. cbn [andb]. cbv zeta.
  rewrite Hs, Z.eqb_refl. cbn [negb].
  assert (Hi : int_of_size_t (l_num_cqe l) = l_num_cqe l)
    by (apply int_of_size_t_small; lia).
  rewrite Hi.
  rewrite (store_src_addr_ok _ _ _ _ (cursor_cqe (ibv_cq_ex (cq w))));
    try reflexivity.
  - rewrite (call_read_entry_ok _ _ _ _ (cursor_cqe (ibv_cq_ex (cq w))));
      try reflexivity; try assumption.
    lia.
  - unfold src_room in Hsrc. destruct (l_src_addr l); [lia|exact I].
  - exact Hres.
Qed.

Lemma on_first_cursor_on (q : Verbs.ibv_cq_ex) :
  on_first q ->
  exists c rest q0, q = cursor_on c rest q0.
Proof.
  intros (Hc & Hp & Hh & Hs & Hw).
  destruct q as [st wr cur ring polling pos cursor].
  cbn [Verbs.cursor Verbs.pos Verbs.ring Verbs.cur_cqe Verbs.status
       Verbs.wr_id] in *.
  destruct ring as [|s rest]; [discriminate|].
  cbn [hd_error] in Hh. injection Hh as ->. subst.
  exists cur, rest,
    {| Verbs.status := 0; Verbs.wr_id := 0; Verbs.cur_cqe := cur;
       Verbs.ring := []; Verbs.polling := polling; Verbs.pos := 0;
       Verbs.cursor := Verbs.Off |}.
  reflexivity.
Qed.

Lemma readfrom_loop_round_ok (want_addr : bool) (fuel : nat) (count : Z)
  (l : locals) (w : world) :
  loop_inv want_addr count l w ->
  l_err l = 0 -> l_num_cqe l < count ->
  Verbs.status (ibv_cq_ex (cq w)) = 0 ->
  readfrom_loop (S fuel) count l w =
  readfrom_loop fuel count (round_locals l w) (round_world l w).
Proof.
  intros (Hring & Hcur & Hn0 & Hn & Hlay & Hroom & Hwant & Hsrc) He Hlt Hs.
  destruct (on_first_cursor_on _ (Hcur He)) as (c & rest & q0 & Eq).
  rewrite Eq in Hring, Hn, Hs.
  cbn [cursor_on Verbs.ring Verbs.status forallb length] in Hring, Hn, Hs.
  apply andb_true_iff in Hring. destruct Hring as [Hc _].
  cbn [slot_ok] in Hc. unfold ready in Hc. rewrite Hs in Hc.
  cbn [Z.eqb negb orb] in Hc.
  apply readfrom_loop_round_exact; try assumption; try lia.
  - rewrite Eq. exact Hs.
  - rewrite Eq, Hwant. exact Hc.
  - unfold src_room. destruct (l_src_addr l); [lia|exact I].
Qed.

Lemma slot_ok_set_ibv_cq_ex (r : Verbs.ibv_cq_ex) (q : efa_cq)
  (want_addr : bool) (s : Verbs.ring_slot) :
  slot_ok (set_ibv_cq_ex r q) want_addr s = slot_ok q want_addr s.
Proof. reflexivity. Qed.

Lemma slot_ok_set_lock (b : bool) (q : efa_cq) (want_addr : bool)
  (s : Verbs.ring_slot) :
  slot_ok (set_lock b q) want_addr s = slot_ok q want_addr s.
Proof. reflexivity. Qed.

Lemma wants_addr_resolved_at (n : nat) (d : efa_domain)
  (cs : list Verbs.ibv_cqe) (src_addr : option (list Z)) :
  wants_addr (resolved_at n d cs src_addr) = wants_addr src_addr.
Proof. destruct src_addr; reflexivity. Qed.

Lemma src_room_resolved_at (count : Z) (n : nat) (d : efa_domain)
  (cs : list Verbs.ibv_cqe) (src_addr : option (list Z)) :
  src_room count src_addr -> src_room count (resolved_at n d cs src_addr).
Proof.
  destruct src_addr as [a|]; cbn [resolved_at option_map src_room];
    [rewrite length_overwrite_at|]; trivial.
Qed.

Lemma slot_fault_code (q : efa_cq) (want_addr : bool) (code : Z) :
  slot_ok q want_addr (Verbs.RingFault code) = true -> code <> 0.
Proof.
  cbn [slot_ok]. intros Hc.
  apply andb_true_iff in Hc. destruct Hc as [Hc _].
  apply andb_true_iff in Hc. destruct Hc as [Hc _].
  apply negb_true_iff in Hc. apply Z.eqb_neq. exact Hc.
Qed.

(** The cursor move of a round: the completion that was read leaves the
    ring, and the cursor goes to the slot behind it. *)
Lemma next_poll_read (c : Verbs.ibv_cqe) (rest : list Verbs.ring_slot)
  (q0 : Verbs.ibv_cq_ex) :
  Verbs.ibv_next_poll (Verbs.read_current (cursor_on c rest q0)) =
  match rest with
  | [] => (ENOENT, with_ring rest (cursor_on c rest q0))
  | Verbs.Completion c' :: rest' => (0, cursor_on c' rest' q0)
  | Verbs.RingFault code :: _ => (code, with_ring rest (cursor_on c rest q0))
  end.
Proof. destruct rest as [|[c'|code] rest']; reflexivity. Qed.

Lemma loop_inv_round (want_addr : bool) (count : Z) (l : locals)
  (w : world) :
  loop_inv want_addr count l w ->
  l_err l = 0 ->
  loop_inv want_addr count (round_locals l w) (round_world l w).
Proof.
  intros (Hring & Hcur & Hn0 & Hn & Hlay & Hroom & Hwant & Hsrc) He.
  destruct (on_first_cursor_on _ (Hcur He)) as (c & rest & q0 & Eq).
  unfold loop_inv, round_locals, round_world.
  cbn [cq trace l_err l_num_cqe l_buf l_src_addr].
  autorewrite with efa_cq.
  rewrite layout_matches_formatted_at, cq_buf_length_formatted_at,
    wants_addr_resolved_at.
  pose proof (src_room_resolved_at count (Z.to_nat (l_num_cqe l))
                (domain (cq w)) [cursor_cqe (ibv_cq_ex (cq w))] _ Hsrc)
    as Hsrc'.
  unfold src_room in Hsrc'.
  rewrite Eq in Hring, Hn, Hsrc'. rewrite Eq, next_poll_read.
  cbn [cursor_on Verbs.ring forallb length] in Hring, Hn.
  apply andb_true_iff in Hring. destruct Hring as [_ Hrest].
  destruct rest as [|[c'|code] rest'];
    cbn [fst snd with_ring cursor_on Verbs.ring length] in *.
  - header_facts. repeat split; try assumption; try lia.
  - split; [exact Hrest|].
    repeat split; try assumption; try lia.
  - split; [exact Hrest|].
    cbn [forallb] in Hrest.
    apply andb_true_iff in Hrest. destruct Hrest as [Hc Hrest'].
    pose proof (slot_fault_code _ _ _ Hc) as Hcode.
    repeat split; try assumption; try lia; contradiction.
Qed.

(** On a ring that is [ring_ok], with arrays that have [room], the loop
    returns. *)
Lemma readfrom_loop_returns (want_addr : bool) (count : Z) (fuel : nat) :
  forall (l : locals) (w : world),
    loop_inv want_addr count l w ->
    exists l' w', readfrom_loop fuel count l w = Ok (l', w').
Proof.
  induction fuel as [|fuel IH]; intros l w Hinv.
  - exists l, w. reflexivity.
  - destruct ((l_err l =? 0) && (l_num_cqe l <? count)) eqn:Ec.
    + apply andb_true_iff in Ec. destruct Ec as [He Hlt].
      apply Z.eqb_eq in He. apply Z.ltb_lt in Hlt.
      destruct (Z.eq_dec (Verbs.status (ibv_cq_ex (cq w))) 0) as [Hs|Hs].
      * rewrite (readfrom_loop_round_ok want_addr) by assumption.
        apply IH. apply loop_inv_round; assumption.
      * rewrite readfrom_loop_round.
        apply Z.ltb_lt in Hlt. rewrite He, Hlt. cbn [Z.eqb andb]. cbv zeta.
        apply Z.eqb_neq in Hs. rewrite Hs. cbn [negb]. eauto.
    + rewrite readfrom_loop_round, Ec. eauto.
Qed.

Section Ring_moves.
Context (q : Verbs.ibv_cq_ex).

Lemma start_poll_empty :
  Verbs.ring q = [] -> Verbs.ibv_start_poll q 0 = (ENOENT, q).
Proof.
  intros E. unfold Verbs.ibv_start_poll, Verbs.move_cursor.
  cbn [Z.eqb Verbs.rewind Verbs.ring Verbs.pos]. rewrite E.
  cbn [nth_error]. header_facts.
  destruct (ENOENT =? 0) eqn:E0; [lia|reflexivity].
Qed.

Lemma start_poll_completion (c : Verbs.ibv_cqe)
  (rest : list Verbs.ring_slot) :
  Verbs.ring q = Verbs.Completion c :: rest ->
  Verbs.ibv_start_poll q 0 = (0, Verbs.set_polling true (cursor_on c rest q)).
Proof.
  intros E. unfold Verbs.ibv_start_poll, Verbs.move_cursor.
  cbn [Z.eqb Verbs.rewind Verbs.ring Verbs.pos Verbs.polling]. rewrite E.
  reflexivity.
Qed.

Lemma start_poll_fault (code : Z) (rest : list Verbs.ring_slot) :
  Verbs.ring q = Verbs.RingFault code :: rest -> code <> 0 ->
  Verbs.ibv_start_poll q 0 = (code, q).
Proof.
  intros E Hc. unfold Verbs.ibv_start_poll, Verbs.move_cursor.
  cbn [Z.eqb Verbs.rewind Verbs.ring Verbs.pos]. rewrite E.
  cbn [nth_error]. apply Z.eqb_neq in Hc. now rewrite Hc.
Qed.

End Ring_moves.

(** What the end of the session leaves: the slot under the cursor is
    consumed when it was read, and the sticky fields stay. *)
Lemma ring_end_poll (q : Verbs.ibv_cq_ex) :
  Verbs.ring (Verbs.ibv_end_poll q) = Verbs.consume q.
Proof. reflexivity. Qed.

Lemma status_end_poll (q : Verbs.ibv_cq_ex) :
  Verbs.status (Verbs.ibv_end_poll q) = Verbs.status q.
Proof. reflexivity. Qed.

Lemma loop_inv_started (q : efa_cq) (b : cq_buf) (count : Z)
  (src_addr : option (list Z)) :
  ring_ok q (wants_addr src_addr) = true ->
  room q b count src_addr = true ->
  loop_inv (wants_addr src_addr) count
    (loop_entry (fst (Verbs.ibv_start_poll (ibv_cq_ex q) 0)) b src_addr)
    (started q).
Proof.
  unfold ring_ok, room. intros Hok Hroom.
  apply andb_true_iff in Hok. destruct Hok as [Hlen Hring].
  apply andb_true_iff in Hroom. destruct Hroom as [Hroom Hsrc].
  apply andb_true_iff in Hroom. destruct Hroom as [Hlay Hroom].
  apply Z.leb_le in Hlen, Hroom.
  unfold loop_inv, loop_entry, started.
  cbn [cq trace l_err l_num_cqe l_buf l_src_addr].
  autorewrite with efa_cq.
  assert (Hs : match src_addr with
               | Some a => count <= Z.of_nat (length a)
               | None => True
               end)
    by (destruct src_addr; [apply Z.leb_le; assumption | exact I]).
  destruct (Verbs.ring (ibv_cq_ex q)) as [|[c|code] rest] eqn:Er;
    cbn [length forallb] in *.
  - rewrite (start_poll_empty _ Er). cbn [fst snd]. rewrite Er.
    header_facts. cbn [length forallb].
    repeat split; try assumption; try lia.
  - rewrite (start_poll_completion _ _ _ Er).
    cbn [fst snd Verbs.ring Verbs.set_polling cursor_on length forallb].
    split; [exact Hring|].
    repeat split; try assumption; try lia.
  - pose proof Hring as Hring'.
    apply andb_true_iff in Hring. destruct Hring as [Hc Hrest].
    pose proof (slot_fault_code _ _ _ Hc) as Hcode.
    rewrite (start_poll_fault _ _ _ Er Hcode).
    cbn [fst snd]. rewrite Er. cbn [length forallb].
    split; [exact Hring'|].
    repeat split; try assumption; try lia; contradiction.
Qed.

End Read_loop.

Section Loop_exit.
Context {hdr : headers}.

(** The rounds counted by [fuel] are enough: when the loop is entered with
    at least [count - num_cqe] of them, it is left only with the condition
    of the [while] false. *)
Lemma readfrom_loop_exit (count : Z) (fuel : nat) :
  forall (l : locals) (w : world) (l' : locals) (w' : world),
    count - l_num_cqe l <= Z.of_nat fuel ->
    readfrom_loop fuel count l w = Ok (l', w') ->
    (l_err l' =? 0) && (l_num_cqe l' <? count) = false.
Proof.
  induction fuel as [|fuel IH]; intros l w l' w' Hfuel Hrun.
  - inversion Hrun; subst. apply andb_false_iff. right.
    apply Z.ltb_ge. lia.
  - rewrite readfrom_loop_round in Hrun.
    destruct ((l_err l =? 0) && (l_num_cqe l <? count)) eqn:Ec.
    2:{ inversion Hrun; subst. exact Ec. }
    cbv zeta in Hrun.
    destruct (negb (Verbs.status (ibv_cq_ex (cq w)) =? 0)).
    { inversion Hrun; subst. cbn [l_err]. header_facts.
      apply andb_false_iff. left. apply Z.eqb_neq. lia. }
    destruct (store_src_addr _ _ _ _) as [src|s]; [|discriminate].
    destruct (call_read_entry _ _ _ _) as [b|s]; [|discriminate].
    apply IH in Hrun; [exact Hrun|]. cbn [l_num_cqe]. lia.
Qed.

End Loop_exit.

(** ** The shape of a read *)

Section Read_shape.
Context {hdr : headers}.

Lemma count_event_app (p : event -> bool) (t u : list event) :
  count_event p (t ++ u) = (count_event p t + count_event p u)%nat.
Proof. unfold count_event. now rewrite filter_app, length_app. Qed.

Lemma count_event_none (p : event -> bool) (t : list event) :
  forallb is_loop_event t = true ->
  (forall e, is_loop_event e = true -> p e = false) ->
  count_event p t = 0%nat.
Proof.
  intros Ht Hp. unfold count_event.
  induction t as [|e t IH]; [reflexivity|].
  cbn [forallb] in Ht. apply andb_true_iff in Ht. destruct Ht as [He Ht].
  cbn [filter]. rewrite (Hp e He). apply IH. exact Ht.
Qed.

(** Every call of [efa_cq_readfrom] that returns ran with the lock free at
    entry, made the calls: lock, start, the rounds of the loop, end when
    the start succeeded, unlock, and left the lock free. *)
Lemma readfrom_shape (q : efa_cq) (b : cq_buf) (count : Z)
  (src_addr : option (list Z)) (r : Z * cq_buf * option (list Z))
  (w : world) :
  run (efa_cq_readfrom b count src_addr) q = Ok (r, w) ->
  lock q = false /\
  exists (l : locals) (t : list event),
    r = (readfrom_ret l, l_buf l, l_src_addr l) /\
    trace w =
      [Ev_spin_lock;
       Ev_start_poll (fst (Verbs.ibv_start_poll (ibv_cq_ex q) 0))] ++
      t ++
      (if fst (Verbs.ibv_start_poll (ibv_cq_ex q) 0) =? 0
       then [Ev_end_poll] else []) ++
      [Ev_spin_unlock] /\
    forallb is_loop_event t = true /\
    Z.of_nat (count_event is_read_entry t) = l_num_cqe l /\
    Z.of_nat (count_event is_next_poll t) = l_num_cqe l /\
    (count <= 0 -> t = [] /\ l_buf l = b /\ l_src_addr l = src_addr) /\
    lock (cq w) = false /\
    read_entry (cq w) = read_entry q /\
    entry_size (cq w) = entry_size q /\
    domain (cq w) = domain q /\
    Verbs.polling (ibv_cq_ex (cq w)) =
      (if fst (Verbs.ibv_start_poll (ibv_cq_ex q) 0) =? 0 then false
       else Verbs.polling (ibv_cq_ex q)).
Proof.
  intros Hrun.
  destruct (lock q) eqn:Hl; [rewrite readfrom_held in Hrun by assumption;
                             discriminate|].
  split; [reflexivity|].
  rewrite readfrom_unfold in Hrun by assumption. cbv zeta in Hrun.
  destruct (readfrom_loop _ _ _ _) as [[l w1]|s] eqn:Hloop; [|discriminate].
  inversion Hrun; subst r w; clear Hrun.
  assert (H0 : count <= 0 -> l = loop_entry
            (fst (Verbs.ibv_start_poll (ibv_cq_ex q) 0)) b src_addr /\
            w1 = started q).
  { intros Hc. replace (Z.to_nat count) with 0%nat in Hloop by lia.
    cbn [readfrom_loop] in Hloop. unfold ret in Hloop.
    inversion Hloop; subst; auto. }
  apply readfrom_loop_frame in Hloop.
  destruct Hloop as (Hlk & Hre & Hsz & Hd & Hp & Hn & t & Ht & Hf & Hc1 & Hc2).
  unfold started, loop_entry in *.
  cbn [cq trace l_num_cqe] in *. autorewrite with efa_cq in *.
  exists l, t. split; [reflexivity|].
  split.
  { unfold finished. cbn [trace]. rewrite Ht. reflexivity. }
  split; [assumption|]. split; [lia|]. split; [lia|].
  split.
  { intros Hc. destruct (H0 Hc) as [-> Hw].
    cbn [l_buf l_src_addr]. repeat split.
    rewrite Hw in Ht. cbn [trace] in Ht.
    destruct t; [reflexivity|]. inversion Ht. }
  unfold finished. cbn [cq].
  assert (Hmp : Verbs.polling
            (snd (Verbs.ibv_start_poll (ibv_cq_ex q) 0)) =
          if fst (Verbs.ibv_start_poll (ibv_cq_ex q) 0) =? 0 then true
          else Verbs.polling (ibv_cq_ex q)).
  { unfold Verbs.ibv_start_poll. cbn [Z.eqb].
    destruct (Verbs.move_cursor _) as [r cq']. cbn [fst snd].
    destruct (r =? 0); reflexivity. }
  destruct (fst (Verbs.ibv_start_poll (ibv_cq_ex q) 0) =? 0);
    autorewrite with efa_cq; repeat split; try assumption.
  rewrite Hp. exact Hmp.
Qed.

(** On a ring that is [ring_ok], with the lock free and arrays that have
    [room], [efa_cq_readfrom] returns. *)
Lemma readfrom_returns (q : efa_cq) (b : cq_buf) (count : Z)
  (src_addr : option (list Z)) :
  lock q = false ->
  ring_ok q (wants_addr src_addr) = true ->
  room q b count src_addr = true ->
  exists r w, run (efa_cq_readfrom b count src_addr) q = Ok (r, w).
Proof.
  intros Hl Hok Hroom. rewrite readfrom_unfold by assumption. cbv zeta.
  destruct (readfrom_loop_returns (wants_addr src_addr) count
              (Z.to_nat count) _ _ (loop_inv_started q b count src_addr
                                      Hok Hroom)) as (l & w & Hloop).
  rewrite Hloop. eauto.
Qed.

End Read_shape.

Section Session_and_lock.
Context {hdr : headers}.

Lemma readerr_shape (q : efa_cq) (entry : fi_cq_err_entry) (fl : Z)
  (r : Z * fi_cq_err_entry) (w : world) :
  run (efa_cq_readerr entry fl) q = Ok (r, w) ->
  lock q = false /\ cq w = q /\ trace w = lock_unlock.
Proof.
  intros Hrun.
  destruct (lock q) eqn:Hl;
    [rewrite readerr_held in Hrun by assumption; discriminate|].
  destruct (Z.eq_dec (Verbs.status (ibv_cq_ex q)) 0) as [Hs|Hs].
  - rewrite readerr_idle in Hrun by assumption.
    inversion Hrun; subst. auto.
  - rewrite readerr_pending in Hrun by assumption.
    destruct (efa_cq_opcode_to_fi_flags _); [|discriminate].
    inversion Hrun; subst. auto.
Qed.

Lemma readerr_returns (q : efa_cq) (entry : fi_cq_err_entry) (fl : Z) :
  lock q = false ->
  Verbs.status (ibv_cq_ex q) = 0 \/
  supported (Verbs.ibv_wc_read_opcode (ibv_cq_ex q)) = true ->
  exists r w, run (efa_cq_readerr entry fl) q = Ok (r, w).
Proof.
  intros Hl Hc.
  destruct (Z.eq_dec (Verbs.status (ibv_cq_ex q)) 0) as [Hs|Hs].
  - rewrite readerr_idle by assumption. eauto.
  - destruct Hc as [Hc|Hc]; [contradiction|].
    destruct (supported_returns _ Hc) as [f Hf].
    rewrite readerr_pending, Hf by assumption. eauto.
Qed.

(** C7.  In every call of [efa_cq_readfrom] that returns, the calls are:
    lock, one [ibv_start_poll], the rounds of the loop (formatter calls and
    cursor moves only), one [ibv_end_poll] exactly when the start returned
    0 and none otherwise, unlock; a started session is closed again.  With
    a capacity of 0 or less there is no round: the start, the end when the
    start succeeded, and nothing written.  The call does return on every
    ring that is [ring_ok], whatever the start and the cursor moves answer,
    when the lock is free and the arrays have room. *)
Theorem poll_session_ended_once :
  (forall q b count src_addr r w,
     run (efa_cq_readfrom b count src_addr) q = Ok (r, w) ->
     let e := fst (Verbs.ibv_start_poll (ibv_cq_ex q) 0) in
     (exists t,
        trace w =
          [Ev_spin_lock; Ev_start_poll e] ++ t ++
          (if e =? 0 then [Ev_end_poll] else []) ++ [Ev_spin_unlock] /\
        forallb is_loop_event t = true /\
        (count <= 0 -> t = [])) /\
     count_event is_start_poll (trace w) = 1%nat /\
     count_event is_end_poll (trace w) = (if e =? 0 then 1%nat else 0%nat) /\
     (e = 0 -> Verbs.polling (ibv_cq_ex (cq w)) = false) /\
     (count <= 0 ->
      count_event is_read_entry (trace w) = 0%nat /\
      count_event is_next_poll (trace w) = 0%nat /\
      snd (fst r) = b /\ snd r = src_addr)) /\
  (forall q b count src_addr,
     lock q = false ->
     ring_ok q (wants_addr src_addr) = true ->
     room q b count src_addr = true ->
     exists r w, run (efa_cq_readfrom b count src_addr) q = Ok (r, w)).
Proof.
  split; [|exact readfrom_returns].
  intros q b count src_addr r w Hrun e.
  apply readfrom_shape in Hrun. fold e in Hrun.
  destruct Hrun as (_ & l & t & Hr & Ht & Hf & Hc1 & Hc2 & H0 & _ & _ & _ &
                    _ & Hp).
  split; [exists t; repeat split; try assumption; apply H0|].
  rewrite Ht, !count_event_app.
  rewrite !(count_event_none _ t Hf)
    by (intros [] E; try discriminate E; reflexivity).
  split; [destruct (e =? 0); reflexivity|].
  split; [destruct (e =? 0); reflexivity|].
  split; [intros He; rewrite He in Hp; exact Hp|].
  intros Hc. destruct (H0 Hc) as (-> & Hb & Hs). subst r. cbn [fst snd].
  destruct (e =? 0); repeat split; assumption.
Qed.

(** Taking the lock sets it. *)
Lemma spin_lock_takes (q : efa_cq) :
  lock q = false ->
  run ofi_spin_lock q =
  Ok (tt, {| cq := set_lock true q; trace := [Ev_spin_lock] |}).
Proof. intros Hl. run_monad. rewrite Hl. reflexivity. Qed.

(** The critical section of [efa_cq_readfrom] around its loop. *)
Lemma readfrom_upto_unfold (n : nat) (q : efa_cq) (b : cq_buf) (count : Z)
  (src_addr : option (list Z)) :
  lock q = false ->
  run (readfrom_upto n b count src_addr) q =
  let e := fst (Verbs.ibv_start_poll (ibv_cq_ex q) 0) in
  match readfrom_loop n count (loop_entry e b src_addr) (started q) with
  | Ok (l, w) => Ok ((e, l), w)
  | Stop s => Stop s
  end.
Proof.
  intros Hl. unfold readfrom_upto. run_monad. rewrite Hl. run_monad.
  unfold started, loop_entry.
  destruct (Verbs.ibv_start_poll (ibv_cq_ex q) 0) as [e q0]. run_monad.
  destruct (readfrom_loop _ _ _ _) as [[l w]|s]; reflexivity.
Qed.

(** Wherever the critical section of [efa_cq_readfrom] is cut off, the
    lock is held and nothing but the start, formatter calls and cursor
    moves was called since it was taken. *)
Lemma readfrom_upto_held (n : nat) (q : efa_cq) (b : cq_buf) (count : Z)
  (src_addr : option (list Z)) (e : Z) (l : locals) (w : world) :
  run (readfrom_upto n b count src_addr) q = Ok ((e, l), w) ->
  lock q = false /\ lock (cq w) = true /\
  e = fst (Verbs.ibv_start_poll (ibv_cq_ex q) 0) /\
  exists t,
    trace w = [Ev_spin_lock; Ev_start_poll e] ++ t /\
    forallb is_loop_event t = true.
Proof.
  intros Hrun.
  destruct (lock q) eqn:Hl.
  { unfold readfrom_upto in Hrun. run_monad. revert Hrun. run_monad.
    rewrite Hl. discriminate. }
  rewrite readfrom_upto_unfold in Hrun by assumption. cbv zeta in Hrun.
  destruct (readfrom_loop _ _ _ _) as [[l0 w0]|s] eqn:Hloop; [|discriminate].
  inversion Hrun; subst; clear Hrun.
  apply readfrom_loop_frame in Hloop.
  destruct Hloop as (Hlk & _ & _ & _ & _ & _ & t & Ht & Hf & _).
  unfold started in Hlk, Ht. cbn [cq trace] in Hlk, Ht.
  autorewrite with efa_cq in Hlk.
  repeat split; try assumption. exists t. split; assumption.
Qed.

(** [efa_cq_readfrom] is its critical section up to the end of the loop,
    followed by the end of the session and the release of the lock. *)
Lemma readfrom_split (b : cq_buf) (count : Z) (src_addr : option (list Z))
  (w0 : world) :
  efa_cq_readfrom b count src_addr w0 =
  (x <- readfrom_upto (Z.to_nat count) b count src_addr ;; readfrom_end x)
    w0.
Proof.
  unfold efa_cq_readfrom, readfrom_upto, readfrom_end, readfrom_ret,
    loop_entry, bind, ret.
  destruct (ofi_spin_lock w0) as [[u w1]|s]; [|reflexivity].
  destruct (ibv_start_poll 0 w1) as [[e w2]|s]; [|reflexivity].
  destruct (readfrom_loop _ _ _ w2) as [[l w3]|s]; reflexivity.
Qed.

Lemma readerr_split (entry : fi_cq_err_entry) (fl : Z) (w0 : world) :
  efa_cq_readerr entry fl w0 =
  (c <- readerr_upto ;; readerr_end c entry) w0.
Proof.
  unfold efa_cq_readerr, readerr_upto, readerr_end, bind.
  destruct (ofi_spin_lock w0) as [[u w1]|s]; reflexivity.
Qed.

Lemma readerr_upto_held (q c : efa_cq) (w : world) :
  run readerr_upto q = Ok (c, w) ->
  lock q = false /\ c = set_lock true q /\ lock c = true /\ cq w = c /\
  trace w = [Ev_spin_lock].
Proof.
  unfold readerr_upto. run_monad. destruct (lock q) eqn:Hl.
  - run_monad. discriminate.
  - run_monad. intros H. inversion H; subst. repeat split.
Qed.

(** C10.  Every call of [efa_cq_readfrom] and of [efa_cq_readerr] that
    returns found the lock free, took it exactly once as its first call,
    released it exactly once as its last call, and leaves it free: no path
    returns with the lock held.  Both calls do return when the lock is
    free: the read on every ring that is [ring_ok] with arrays that have
    room, the error read when no error is pending or the pending opcode is
    supported.  The lock is held in between: taking it sets it;
    [efa_cq_readfrom] is its critical section followed by the end of the
    session and the unlock, and wherever the critical section is cut off
    (after the start of the session and any number of rounds of the loop)
    the lock is held and only the start, formatter calls and cursor moves
    were made since it was taken; [efa_cq_readerr] makes its reads on the
    locked queue; and a call of either function entered while the lock is
    held does not return. *)
Theorem lock_taken_once_and_released :
  (forall q b count src_addr r w,
     run (efa_cq_readfrom b count src_addr) q = Ok (r, w) ->
     lock q = false /\ lock (cq w) = false /\
     count_event is_spin_lock (trace w) = 1%nat /\
     count_event is_spin_unlock (trace w) = 1%nat /\
     hd_error (trace w) = Some Ev_spin_lock /\
     last (trace w) Ev_spin_lock = Ev_spin_unlock) /\
  (forall q entry fl r w,
     run (efa_cq_readerr entry fl) q = Ok (r, w) ->
     lock q = false /\ lock (cq w) = false /\
     trace w = [Ev_spin_lock; Ev_spin_unlock]) /\
  (forall q b count src_addr,
     lock q = false ->
     ring_ok q (wants_addr src_addr) = true ->
     room q b count src_addr = true ->
     exists r w, run (efa_cq_readfrom b count src_addr) q = Ok (r, w)) /\
  (forall q entry fl,
     lock q = false ->
     Verbs.status (ibv_cq_ex q) = 0 \/
     supported (Verbs.ibv_wc_read_opcode (ibv_cq_ex q)) = true ->
     exists r w, run (efa_cq_readerr entry fl) q = Ok (r, w)) /\
  (forall q,
     lock q = false ->
     exists w,
       run ofi_spin_lock q = Ok (tt, w) /\ lock (cq w) = true /\
       trace w = [Ev_spin_lock]) /\
  (forall b count src_addr w0,
     efa_cq_readfrom b count src_addr w0 =
     (x <- readfrom_upto (Z.to_nat count) b count src_addr ;;
      readfrom_end x) w0) /\
  (forall n q b count src_addr e l w,
     run (readfrom_upto n b count src_addr) q = Ok ((e, l), w) ->
     lock q = false /\ lock (cq w) = true /\
     e = fst (Verbs.ibv_start_poll (ibv_cq_ex q) 0) /\
     exists t,
       trace w = [Ev_spin_lock; Ev_start_poll e] ++ t /\
       forallb is_loop_event t = true) /\
  (forall entry fl w0,
     efa_cq_readerr entry fl w0 =
     (c <- readerr_upto ;; readerr_end c entry) w0) /\
  (forall q c w,
     run readerr_upto q = Ok (c, w) ->
     lock q = false /\ c = set_lock true q /\ lock c = true /\ cq w = c /\
     trace w = [Ev_spin_lock]) /\
  (forall q,
     lock q = true ->
     (forall b count src_addr,
        run (efa_cq_readfrom b count src_addr) q = Stop SpinForever) /\
     (forall entry fl,
        run (efa_cq_readerr entry fl) q = Stop SpinForever)).
Proof.
  split; [|split; [|split; [exact readfrom_returns|
    split; [exact readerr_returns|]]]].
  - intros q b count src_addr r w Hrun.
    apply readfrom_shape in Hrun.
    destruct Hrun as (Hl & l & t & Hr & Ht & Hf & _ & _ & _ & Hl' & _).
    split; [assumption|]. split; [assumption|].
    rewrite Ht, !count_event_app.
    rewrite !(count_event_none _ t Hf)
      by (intros [] E; try discriminate E; reflexivity).
    split; [destruct (_ =? 0); reflexivity|].
    split; [destruct (_ =? 0); reflexivity|].
    split; [reflexivity|].
    rewrite !app_assoc. apply last_last.
  - intros q entry fl r w Hrun. apply readerr_shape in Hrun.
    destruct Hrun as (Hl & Hq & Ht). rewrite Hq. auto.
  - split.
    { intros q Hl. rewrite spin_lock_takes by assumption.
      eexists. split; [reflexivity|]. split; reflexivity. }
    split; [exact readfrom_split|].
    split; [exact readfrom_upto_held|].
    split; [exact readerr_split|].
    split; [exact readerr_upto_held|].
    intros q Hl. split.
    + intros b count src_addr. apply readfrom_held. exact Hl.
    + intros entry fl. apply readerr_held. exact Hl.
Qed.

End Session_and_lock.

(** ** Reading a run of ready completions *)

Section Ready_prefix.
Context {hdr : headers}.

Lemma formatted_at_cons (n : nat) (c : Verbs.ibv_cqe)
  (cs : list Verbs.ibv_cqe) (b : cq_buf) :
  (n < cq_buf_length b)%nat ->
  formatted_at (S n) cs (formatted_at n [c] b) = formatted_at n (c :: cs) b.
Proof.
  destruct b as [a|a|a]; cbn [cq_buf_length formatted_at]; intros Hn;
    now rewrite overwrite_at_cons.
Qed.

Lemma resolved_at_cons (n : nat) (d : efa_domain) (c : Verbs.ibv_cqe)
  (cs : list Verbs.ibv_cqe) (src_addr : option (list Z)) :
  src_room (Z.of_nat (S n)) src_addr ->
  resolved_at (S n) d cs (resolved_at n d [c] src_addr) =
  resolved_at n d (c :: cs) src_addr.
Proof.
  destruct src_addr as [a|]; cbn [src_room resolved_at option_map];
    [|reflexivity].
  intros Hn. now rewrite overwrite_at_cons by lia.
Qed.

Lemma last_cons {T : Type} (cs : list T) :
  forall c c' : T, last (c' :: cs) c = last cs c'.
Proof.
  induction cs as [|x cs IH]; intros c c'; [reflexivity|].
  transitivity (last (x :: cs) c); [reflexivity|].
  rewrite (IH c x). symmetry. apply IH.
Qed.

Lemma set_ibv_cq_ex_twice (r r' : Verbs.ibv_cq_ex) (q : efa_cq) :
  set_ibv_cq_ex r (set_ibv_cq_ex r' q) = set_ibv_cq_ex r q.
Proof. reflexivity. Qed.

Lemma formattable_set_ibv_cq_ex (r : Verbs.ibv_cq_ex) (q : efa_cq)
  (want_addr : bool) (c : Verbs.ibv_cqe) :
  formattable (set_ibv_cq_ex r q) want_addr c = formattable q want_addr c.
Proof. reflexivity. Qed.

(** With the cursor on the first of a run of ready, formattable
    completions that fits the capacity and the arrays, the loop formats the
    whole run into consecutive entries, moves the cursor past it, and goes
    on from there. *)
Lemma readfrom_loop_ready_prefix (cs : list Verbs.ibv_cqe) :
  forall (c : Verbs.ibv_cqe) (rest : list Verbs.ring_slot) (fuel : nat)
         (count : Z) (l : locals) (w : world) (q0 : Verbs.ibv_cq_ex),
    ibv_cq_ex (cq w) = cursor_on c (map Verbs.Completion cs ++ rest) q0 ->
    forallb ready (c :: cs) = true ->
    forallb (formattable (cq w) (wants_addr (l_src_addr l))) (c :: cs)
      = true ->
    l_err l = 0 -> 0 <= l_num_cqe l ->
    l_num_cqe l + Z.of_nat (length (c :: cs)) <= count ->
    l_num_cqe l + Z.of_nat (length (c :: cs)) <= INT_MAX + 1 ->
    layout_matches (read_entry (cq w)) (l_buf l) = true ->
    l_num_cqe l + Z.of_nat (length (c :: cs))
      <= Z.of_nat (cq_buf_length (l_buf l)) ->
    src_room (l_num_cqe l + Z.of_nat (length (c :: cs))) (l_src_addr l) ->
    exists wc t,
      readfrom_loop (length (c :: cs) + fuel) count l w =
      readfrom_loop fuel count
        {| l_err :=
             fst (Verbs.ibv_next_poll
                    (Verbs.read_current (cursor_on (last cs c) rest q0)));
           l_num_cqe := l_num_cqe l + Z.of_nat (length (c :: cs));
           l_wc := wc;
           l_buf :=
             formatted_at (Z.to_nat (l_num_cqe l)) (c :: cs) (l_buf l);
           l_src_addr :=
             resolved_at (Z.to_nat (l_num_cqe l)) (domain (cq w)) (c :: cs)
               (l_src_addr l) |}
        {| cq :=
             set_ibv_cq_ex
               (snd (Verbs.ibv_next_poll
                       (Verbs.read_current (cursor_on (last cs c) rest q0))))
               (cq w);
           trace := trace w ++ t |}.
Proof.
  induction cs as [|c' cs IH];
    intros c rest fuel count l w q0 Hq Hready Hfmt He Hn0 Hcount Hint Hlay
      Hroom Hsrc.
  - cbn [length map app last] in *.
    cbn [forallb] in Hready, Hfmt.
    apply andb_true_iff in Hready, Hfmt.
    destruct Hready as [Hr _], Hfmt as [Hf _]. unfold ready in Hr.
    apply Z.eqb_eq in Hr.
    cbn [Nat.add].
    rewrite readfrom_loop_round_exact;
      try assumption; try lia; try (rewrite Hq; assumption);
      try (unfold src_room in *; destruct (l_src_addr l); [lia|exact I]).
    unfold round_locals, round_world. rewrite Hq.
    rewrite cursor_cqe_cursor_on.
    replace (l_num_cqe l + Z.of_nat 1) with (l_num_cqe l + 1) by lia.
    eexists. eexists. reflexivity.
  - cbn [forallb] in Hready, Hfmt.
    apply andb_true_iff in Hready, Hfmt.
    destruct Hready as [Hr Hready], Hfmt as [Hf Hfmt]. unfold ready in Hr.
    apply Z.eqb_eq in Hr.
    change (length (c :: c' :: cs)) with (S (length (c' :: cs))) in *.
    cbn [Nat.add].
    rewrite readfrom_loop_round_exact;
      try assumption; try lia; try (rewrite Hq; assumption);
      try (unfold src_room in *; destruct (l_src_addr l); [lia|exact I]).
    assert (Hq' : ibv_cq_ex (cq (round_world l w)) =
                  cursor_on c' (map Verbs.Completion cs ++ rest) q0).
    { unfold round_world. cbn [cq]. autorewrite with efa_cq.
      rewrite Hq. reflexivity. }
    assert (He' : l_err (round_locals l w) = 0).
    { unfold round_locals. cbn [l_err]. rewrite Hq. reflexivity. }
    destruct (IH c' rest fuel count (round_locals l w) (round_world l w) q0
                Hq') as (wc & t & Hloop).
    + exact Hready.
    + unfold round_locals, round_world. cbn [cq l_src_addr].
      rewrite wants_addr_resolved_at. exact Hfmt.
    + exact He'.
    + unfold round_locals. cbn [l_num_cqe]. lia.
    + unfold round_locals. cbn [l_num_cqe]. lia.
    + unfold round_locals. cbn [l_num_cqe]. lia.
    + unfold round_locals, round_world. cbn [cq l_buf].
      autorewrite with efa_cq. rewrite layout_matches_formatted_at.
      exact Hlay.
    + unfold round_locals. cbn [l_num_cqe l_buf].
      rewrite cq_buf_length_formatted_at. lia.
    + unfold round_locals. cbn [l_num_cqe l_src_addr].
      apply src_room_resolved_at.
      replace (l_num_cqe l + 1 + Z.of_nat (length (c' :: cs)))
        with (l_num_cqe l + Z.of_nat (S (length (c' :: cs)))) by lia.
      exact Hsrc.
    + rewrite Hloop. unfold round_locals, round_world.
      cbn [cq trace l_num_cqe l_buf l_src_addr].
      autorewrite with efa_cq. rewrite set_ibv_cq_ex_twice, Hq,
        cursor_cqe_cursor_on.
      replace (Z.to_nat (l_num_cqe l + 1)) with (S (Z.to_nat (l_num_cqe l)))
        by lia.
      rewrite formatted_at_cons by lia.
      rewrite resolved_at_cons
        by (unfold src_room in *; destruct (l_src_addr l); [lia|exact I]).
      replace (l_num_cqe l + 1 + Z.of_nat (length (c' :: cs)))
        with (l_num_cqe l + Z.of_nat (S (length (c' :: cs)))) by lia.
      rewrite <- app_assoc.
      rewrite (last_cons cs c c').
      eexists. eexists. reflexivity.
Qed.

End Ready_prefix.

(** ** Reads on particular rings *)

Section Reads.
Context {hdr : headers}.

(** The loop is over when [err] is set or the capacity is reached. *)
Lemma readfrom_loop_stops (fuel : nat) (count : Z) (l : locals) (w : world) :
  l_err l <> 0 \/ count <= l_num_cqe l ->
  readfrom_loop fuel count l w = Ok (l, w).
Proof.
  intros Hc. destruct fuel as [|fuel]; [reflexivity|].
  rewrite readfrom_loop_round.
  destruct ((l_err l =? 0) && (l_num_cqe l <? count)) eqn:E;
    [|reflexivity].
  apply andb_true_iff in E. destruct E as [E1 E2].
  apply Z.eqb_eq in E1. apply Z.ltb_lt in E2. lia.
Qed.

(** The round that finds a failed completion under the cursor. *)
Lemma readfrom_loop_break (fuel : nat) (count : Z) (l : locals) (w : world) :
  l_err l = 0 -> l_num_cqe l < count ->
  Verbs.status (ibv_cq_ex (cq w)) <> 0 ->
  exists wc,
    readfrom_loop (S fuel) count l w =
    Ok ({| l_err := - FI_EAVAIL; l_num_cqe := l_num_cqe l; l_wc := wc;
           l_buf := l_buf l; l_src_addr := l_src_addr l |}, read_world w).
Proof.
  intros He Hlt Hs. rewrite readfrom_loop_round.
  apply Z.ltb_lt in Hlt. rewrite He, Hlt. cbn [Z.eqb andb]. cbv zeta.
  apply Z.eqb_neq in Hs. rewrite Hs. cbn [negb]. eauto.
Qed.

Lemma poll_error_enoent :
  efa_cq_ibv_poll_error_to_fi_error ENOENT = - FI_EAGAIN.
Proof.
  unfold efa_cq_ibv_poll_error_to_fi_error. now rewrite Z.eqb_refl.
Qed.


Lemma poll_error_nonpositive (e : Z) :
  e <= 0 -> efa_cq_ibv_poll_error_to_fi_error e = e.
Proof.
  intros Hp. unfold efa_cq_ibv_poll_error_to_fi_error. header_facts.
  destruct (e =? ENOENT) eqn:E1; [apply Z.eqb_eq in E1; lia|].
  destruct (0 <? e) eqn:E2; [apply Z.ltb_lt in E2; lia|reflexivity].
Qed.

Lemma unlocked_again (q : efa_cq) :
  lock q = false ->
  set_lock false (set_ibv_cq_ex (ibv_cq_ex q) (set_lock true q)) = q.
Proof. destruct q; simpl; intros ->; reflexivity. Qed.

Lemma formatted_nil (b : cq_buf) : formatted [] b = b.
Proof. destruct b as [a|a|a]; destruct a; reflexivity. Qed.

Lemma resolved_nil (d : efa_domain) (src_addr : option (list Z)) :
  resolved d [] src_addr = src_addr.
Proof. destruct src_addr as [[|x a]|]; reflexivity. Qed.

(** A read on an empty ring. *)
Lemma readfrom_empty (q : efa_cq) (b : cq_buf) (count : Z)
  (src_addr : option (list Z)) :
  lock q = false -> Verbs.ring (ibv_cq_ex q) = [] ->
  run (efa_cq_readfrom b count src_addr) q =
  Ok ((- FI_EAGAIN, b, src_addr),
      {| cq := q;
         trace := [Ev_spin_lock; Ev_start_poll ENOENT; Ev_spin_unlock] |}).
Proof.
  intros Hl Hr. rewrite readfrom_unfold by assumption. cbv zeta.
  unfold started. rewrite (start_poll_empty _ Hr). cbn [fst snd].
  header_facts.
  rewrite readfrom_loop_stops by (left; cbn [loop_entry l_err]; lia).
  unfold readfrom_ret, loop_entry, finished.
  cbn [l_err l_num_cqe l_buf l_src_addr cq trace Z.eqb negb].
  rewrite poll_error_enoent.
  rewrite ssize_t_of_size_t_of by (unfold SSIZE_MAX; lia).
  destruct (ENOENT =? 0) eqn:E0; [apply Z.eqb_eq in E0; lia|].
  rewrite unlocked_again by assumption. reflexivity.
Qed.


(** A read that finds a run of ready, formattable completions at the head
    of the ring, up to the point where the loop goes on after the run. *)
Lemma readfrom_ready_run (q : efa_cq) (c : Verbs.ibv_cqe)
  (pre : list Verbs.ibv_cqe) (rest : list Verbs.ring_slot) (b : cq_buf)
  (count : Z) (src_addr : option (list Z)) :
  lock q = false ->
  Verbs.ring (ibv_cq_ex q) =
    Verbs.Completion c :: map Verbs.Completion pre ++ rest ->
  forallb ready (c :: pre) = true ->
  forallb (formattable q (wants_addr src_addr)) (c :: pre) = true ->
  Z.of_nat (length (c :: pre)) <= count ->
  Z.of_nat (length (c :: pre)) <= INT_MAX + 1 ->
  room q b count src_addr = true ->
  exists wc t,
    run (efa_cq_readfrom b count src_addr) q =
    match
      readfrom_loop (Z.to_nat count - length (c :: pre)) count
        {| l_err :=
             fst (Verbs.ibv_next_poll
                    (Verbs.read_current
                       (cursor_on (last pre c) rest
                          (Verbs.set_polling true (ibv_cq_ex q)))));
           l_num_cqe := Z.of_nat (length (c :: pre));
           l_wc := wc;
           l_buf := formatted (c :: pre) b;
           l_src_addr := resolved (domain q) (c :: pre) src_addr |}
        {| cq :=
             set_ibv_cq_ex
               (snd (Verbs.ibv_next_poll
                       (Verbs.read_current
                          (cursor_on (last pre c) rest
                             (Verbs.set_polling true (ibv_cq_ex q))))))
               (set_lock true q);
           trace := [Ev_spin_lock; Ev_start_poll 0] ++ t |}
    with
    | Ok (l, w) => Ok ((readfrom_ret l, l_buf l, l_src_addr l), finished 0 w)
    | Stop s => Stop s
    end.
Proof.
  intros Hl Hr Hready Hfmt Hcount Hint Hroom.
  rewrite readfrom_unfold by assumption. cbv zeta.
  unfold started. rewrite (start_poll_completion _ _ _ Hr). cbn [fst snd].
  unfold room in Hroom.
  apply andb_true_iff in Hroom. destruct Hroom as [Hroom Hsrc].
  apply andb_true_iff in Hroom. destruct Hroom as [Hlay Hroom].
  apply Z.leb_le in Hroom.
  destruct (readfrom_loop_ready_prefix pre c rest
              (Z.to_nat count - length (c :: pre)) count
              (loop_entry 0 b src_addr)
              {| cq :=
                   set_ibv_cq_ex
                     (Verbs.set_polling true
                        (cursor_on c (map Verbs.Completion pre ++ rest)
                           (ibv_cq_ex q)))
                     (set_lock true q);
                 trace := [Ev_spin_lock; Ev_start_poll 0] |}
              (Verbs.set_polling true (ibv_cq_ex q)))
    as (wc & t & Hloop);
    unfold loop_entry; cbn [cq trace l_err l_num_cqe l_buf l_src_addr];
    try reflexivity; try assumption; try lia.
  - unfold src_room. destruct src_addr; [apply Z.leb_le in Hsrc; lia|exact I].
  - unfold loop_entry in Hloop.
    replace (length (c :: pre) + (Z.to_nat count - length (c :: pre)))%nat
      with (Z.to_nat count) in Hloop by lia.
    rewrite Hloop.
    cbn [cq trace l_err l_num_cqe l_buf l_src_addr Z.to_nat Z.add].
    autorewrite with efa_cq. exists wc, t. reflexivity.
Qed.

Lemma lock_finished (e : Z) (w : world) : lock (cq (finished e w)) = false.
Proof. reflexivity. Qed.



(** The error read on a queue whose cursor was left on a failed
    completion with a supported opcode. *)
Lemma readerr_on_failed (q : efa_cq) (bad : Verbs.ibv_cqe)
  (rest : list Verbs.ring_slot) (q0 : Verbs.ibv_cq_ex)
  (entry : fi_cq_err_entry) (fl : Z) :
  lock q = false ->
  ibv_cq_ex q =
    Verbs.ibv_end_poll (Verbs.read_current (cursor_on bad rest q0)) ->
  ready bad = false ->
  supported (Verbs.cqe_opcode bad) = true ->
  exists e w,
    run (efa_cq_readerr entry fl) q = Ok ((sizeof_fi_cq_err_entry, e), w) /\
    op_context e = Verbs.cqe_wr_id bad /\
    flags e = fi_flags bad /\
    err e = EIO /\
    prov_errno e = Verbs.cqe_status bad.
Proof.
  intros Hl Hq Hbad Hsup. unfold ready in Hbad. apply Z.eqb_neq in Hbad.
  destruct (supported_returns _ Hsup) as [f Hf].
  rewrite readerr_pending; [|assumption|rewrite Hq; exact Hbad].
  rewrite Hq. unfold Verbs.ibv_wc_read_opcode.
  cbn [Verbs.ibv_end_poll Verbs.set_polling Verbs.rewind Verbs.leave_slot
       Verbs.read_current cursor_on Verbs.cur_cqe Verbs.cursor].
  rewrite Hf. eexists. eexists. split; [reflexivity|].
  unfold err_entry_of, fi_flags. rewrite Hq, Hf. repeat split.
Qed.

(** C2.  When the ring holds [k] ready completions followed by a failed
    one, and the capacity is more than [k], [efa_cq_readfrom] returns [k]
    with entries 0 .. k-1 of the buffer written from the ready completions
    in order, or -FI_EAVAIL when [k] is 0: the fault is reported only by
    the read that produces no entry.  The failed completion is taken off
    the ring and not written to the buffer.  An error read on the queue
    left behind then returns the size of the record and fills it with the
    work-request identifier of the failed completion as operation context,
    its flags, EIO and its status. *)
Theorem read_stops_at_failed_completion (q : efa_cq)
  (cs : list Verbs.ibv_cqe) (bad : Verbs.ibv_cqe)
  (tl : list Verbs.ring_slot) (b : cq_buf) (count : Z)
  (src_addr : option (list Z)) (entry : fi_cq_err_entry) (fl : Z) :
  lock q = false ->
  Verbs.ring (ibv_cq_ex q) =
    map Verbs.Completion cs ++ Verbs.Completion bad :: tl ->
  forallb ready cs = true -> ready bad = false ->
  forallb (formattable q (wants_addr src_addr)) cs = true ->
  supported (Verbs.cqe_opcode bad) = true ->
  Z.of_nat (length cs) < count ->
  Z.of_nat (length cs) <= INT_MAX + 1 ->
  room q b count src_addr = true ->
  exists w e w',
    run (efa_cq_readfrom b count src_addr) q =
    Ok ((match cs with
         | [] => - FI_EAVAIL
         | _ :: _ => Z.of_nat (length cs)
         end,
         formatted cs b, resolved (domain q) cs src_addr), w) /\
    Verbs.ring (ibv_cq_ex (cq w)) = tl /\
    run (efa_cq_readerr entry fl) (cq w) =
    Ok ((sizeof_fi_cq_err_entry, e), w') /\
    op_context e = Verbs.cqe_wr_id bad /\
    flags e = fi_flags bad /\
    err e = EIO /\
    prov_errno e = Verbs.cqe_status bad.
Proof.
  intros Hl Hr Hready Hbad Hfmt Hsup Hlt Hint Hroom.
  assert (Hst : Verbs.cqe_status bad <> 0)
    by (unfold ready in Hbad; apply Z.eqb_neq; exact Hbad).
  destruct cs as [|c cs].
  - cbn [map app length] in *.
    rewrite readfrom_unfold by assumption. cbv zeta.
    unfold started. rewrite (start_poll_completion _ _ _ Hr). cbn [fst snd].
    replace (Z.to_nat count) with (S (Z.to_nat count - 1)) by lia.
    destruct (readfrom_loop_break (Z.to_nat count - 1) count
                (loop_entry 0 b src_addr)
                {| cq :=
                     set_ibv_cq_ex
                       (Verbs.set_polling true
                          (cursor_on bad tl (ibv_cq_ex q)))
                       (set_lock true q);
                   trace := [Ev_spin_lock; Ev_start_poll 0] |})
      as (wc & Hloop);
      [reflexivity | cbn [loop_entry l_num_cqe]; lia | exact Hst |].
    rewrite Hloop. clear Hloop.
    unfold readfrom_ret, loop_entry.
    cbn [l_err l_num_cqe l_buf l_src_addr Z.eqb negb].
    header_facts.
    rewrite poll_error_nonpositive by lia.
    rewrite ssize_t_of_size_t_of by (unfold SSIZE_MAX; lia).
    rewrite formatted_nil, resolved_nil.
    match goal with
    | |- context [finished 0 ?w] =>
        destruct (readerr_on_failed (cq (finished 0 w)) bad tl
                    (Verbs.set_polling true (ibv_cq_ex q)) entry fl)
          as (e & w' & Herr & Hfields);
          [reflexivity | reflexivity | assumption | assumption |]
    end.
    eexists. exists e, w'.
    split; [reflexivity|]. split; [reflexivity|]. split; assumption.
  - cbn [map app] in Hr.
    cbn [forallb] in Hready.
    destruct (readfrom_ready_run q c cs (Verbs.Completion bad :: tl) b count
                src_addr Hl Hr Hready Hfmt) as (wc & t & Hrun);
      try assumption; try lia.
    rewrite Hrun. clear Hrun.
    rewrite next_poll_read. cbn [fst snd].
    replace (Z.to_nat count - length (c :: cs))%nat
      with (S (Z.to_nat count - length (c :: cs) - 1)) by lia.
    match goal with
    | |- context [readfrom_loop (S ?f) count ?l ?w] =>
        destruct (readfrom_loop_break f count l w) as (wc' & Hloop);
          [reflexivity | cbn [l_num_cqe]; lia | exact Hst |]
    end.
    rewrite Hloop. clear Hloop.
    unfold readfrom_ret.
    cbn [l_err l_num_cqe l_buf l_src_addr].
    replace (Z.of_nat (length (c :: cs)) =? 0) with false
      by (symmetry; apply Z.eqb_neq; cbn [length]; lia).
    cbn [negb].
    rewrite ssize_t_of_small
      by (unfold SSIZE_MAX, INT_MAX in *; lia).
    match goal with
    | |- context [finished 0 ?w] =>
        destruct (readerr_on_failed (cq (finished 0 w)) bad tl
                    (cursor_on (last cs c) (Verbs.Completion bad :: tl)
                       (Verbs.set_polling true (ibv_cq_ex q))) entry fl)
          as (e & w' & Herr & Hfields);
          [reflexivity | reflexivity | assumption | assumption |]
    end.
    eexists. exists e, w'.
    split; [reflexivity|]. split; [reflexivity|]. split; assumption.
Qed.

End Reads.

(** ** The statements at concrete queues *)

Lemma opcode_flags_send_recv_witness :
  efa_cq_opcode_to_fi_flags (hdr := linux_headers) IBV_WC_SEND = Ok 2050 /\
  efa_cq_opcode_to_fi_flags (hdr := linux_headers) IBV_WC_RECV = Ok 1026 /\
  efa_cq_opcode_to_fi_flags (hdr := linux_headers) IBV_WC_RDMA_READ =
  Stop AssertFailed.
Proof.
  destruct (opcode_flags_send_recv (hdr := linux_headers))
    as (Hs & Hr & _ & _ & _ & Ho).
  split; [exact Hs|]. split; [exact Hr|].
  apply Ho; discriminate.
Defined.



Lemma read_stops_at_failed_completion_witness :
  lock Examples.two_then_failed = false /\
  room Examples.two_then_failed Examples.buf4 4 None = true /\
  exists w e w',
    run (efa_cq_readfrom (hdr := linux_headers) Examples.buf4 4 None)
      Examples.two_then_failed =
    Ok ((2,
         Buf_fi_cq_msg_entry
           [Examples.e100; Examples.e101; Examples.msg0; Examples.msg0],
         None), w) /\
    Verbs.ring (ibv_cq_ex (cq w)) = [Verbs.Completion Examples.c102] /\
    run (efa_cq_readerr (hdr := linux_headers) Examples.err0 0) (cq w) =
    Ok ((80, e), w') /\
    op_context e = 103.
Proof.
  split; [reflexivity|]. split; [reflexivity|].
  destruct (read_stops_at_failed_completion (hdr := linux_headers)
              Examples.two_then_failed [Examples.c100; Examples.c101]
              Examples.bad103 [Verbs.Completion Examples.c102]
              Examples.buf4 4 None Examples.err0 0)
    as (w & e & w' & Hrun & Hring & Herr & Hctx & _);
    try reflexivity; try discriminate.
  exists w, e, w'. repeat split; assumption.
Defined.


Lemma poll_session_ended_once_witness :
  exists r w,
    run (efa_cq_readfrom (hdr := linux_headers) Examples.buf4 2 None)
      Examples.three_ready = Ok (r, w) /\
    count_event is_start_poll (trace w) = 1%nat /\
    count_event is_end_poll (trace w) = 1%nat.
Proof.
  destruct (poll_session_ended_once (hdr := linux_headers))
    as [Hshape Hret].
  destruct (Hret Examples.three_ready Examples.buf4 2 None)
    as (r & w & Hrun); try reflexivity.
  exists r, w. split; [exact Hrun|].
  destruct (Hshape _ _ _ _ _ _ Hrun) as (_ & Hs & He & _).
  split; [exact Hs|exact He].
Defined.

Lemma lock_taken_once_and_released_witness :
  (exists r w,
     run (efa_cq_readfrom (hdr := linux_headers) Examples.buf4 4 None)
       Examples.two_then_failed = Ok (r, w) /\
     lock (cq w) = false /\
     count_event is_spin_lock (trace w) = 1%nat /\
     count_event is_spin_unlock (trace w) = 1%nat) /\
  (exists r w,
     run (efa_cq_readerr (hdr := linux_headers) Examples.err0 0)
       Examples.faulted = Ok (r, w) /\
     lock (cq w) = false /\
     trace w = [Ev_spin_lock; Ev_spin_unlock]) /\
  (exists e l w,
     run (readfrom_upto (hdr := linux_headers) 1 Examples.buf4 4 None)
       Examples.two_then_failed = Ok ((e, l), w) /\
     lock (cq w) = true /\
     run (efa_cq_readerr (hdr := linux_headers) Examples.err0 0) (cq w) =
     Stop SpinForever).
Proof.
  destruct (lock_taken_once_and_released (hdr := linux_headers))
    as (Hread & Herr & Hret & Hret' & _ & _ & Hupto & _ & _ & Hheld).
  split; [|split].
  - destruct (Hret Examples.two_then_failed Examples.buf4 4 None)
      as (r & w & Hrun); try reflexivity.
    exists r, w. split; [exact Hrun|].
    destruct (Hread _ _ _ _ _ _ Hrun) as (_ & Hl & Hc & Hu & _).
    repeat split; assumption.
  - destruct (Hret' Examples.faulted Examples.err0 0)
      as (r & w & Hrun); [reflexivity | right; reflexivity |].
    exists r, w. split; [exact Hrun|].
    destruct (Herr _ _ _ _ _ Hrun) as (_ & Hl & Ht).
    split; assumption.
  - destruct (run (readfrom_upto (hdr := linux_headers) 1 Examples.buf4 4
                     None) Examples.two_then_failed)
      as [[[e l] w]|s] eqn:Hrun; [|vm_compute in Hrun; discriminate Hrun].
    exists e, l, w. split; [reflexivity|].
    destruct (Hupto _ _ _ _ _ _ _ _ Hrun) as (_ & Hl & _).
    split; [exact Hl|]. apply (Hheld (cq w) Hl).
Defined.

Lemma open_spec_witness :
  efa_cq_open (hdr := linux_headers)
    {| calloc_ok := true; ofi_cq_init_ret := 0;
       ibv_create_cq_ex_ret := fun _ => Some (Examples.ring_of []);
       ofi_bufpool_create_ret := 0 |}
    Examples.the_domain
    {| size := 0; format := FI_CQ_FORMAT_TAGGED; wait_obj := FI_WAIT_NONE |}
  = (-38, None,
     [Ev_calloc true; Ev_cq_init 0; Ev_create_cq_ex 1024 true;
      Ev_bufpool_create 0; Ev_bufpool_destroy; Ev_destroy_cq; Ev_cq_cleanup;
      Ev_free]) /\
  efa_cq_open (hdr := linux_headers)
    {| calloc_ok := true; ofi_cq_init_ret := 0;
       ibv_create_cq_ex_ret := fun _ => Some (Examples.ring_of []);
       ofi_bufpool_create_ret := 0 |}
    Examples.the_domain
    {| size := 0; format := FI_CQ_FORMAT_MSG; wait_obj := FI_WAIT_FD |}
  = (-38, None, []).
Proof.
  split.
  - destruct (open_spec (hdr := linux_headers)
                {| calloc_ok := true; ofi_cq_init_ret := 0;
                   ibv_create_cq_ex_ret := fun _ => Some (Examples.ring_of []);
                   ofi_bufpool_create_ret := 0 |}
                Examples.the_domain
                {| size := 0; format := FI_CQ_FORMAT_TAGGED;
                   wait_obj := FI_WAIT_NONE |})
      as (_ & _ & Ht & _).
    destruct (Ht eq_refl) as (_ & Hrej).
    apply Hrej; try reflexivity. discriminate.
  - destruct (open_spec (hdr := linux_headers)
                {| calloc_ok := true; ofi_cq_init_ret := 0;
                   ibv_create_cq_ex_ret := fun _ => Some (Examples.ring_of []);
                   ofi_bufpool_create_ret := 0 |}
                Examples.the_domain
                {| size := 0; format := FI_CQ_FORMAT_MSG;
                   wait_obj := FI_WAIT_FD |})
      as (Hw & _).
    apply Hw. discriminate.
Defined.

(** ** Further properties: the error translation and the formatters *)

Section Translation_and_formatters.
Context {hdr : headers}.

(** X1.  The translated poll error is never positive, as the comment of
    the function requires; it is 0 only for the code 0, and translating
    twice changes nothing. *)
Theorem poll_error_never_positive (e : Z) :
  efa_cq_ibv_poll_error_to_fi_error e <= 0 /\
  (efa_cq_ibv_poll_error_to_fi_error e = 0 <-> e = 0) /\
  efa_cq_ibv_poll_error_to_fi_error (efa_cq_ibv_poll_error_to_fi_error e) =
  efa_cq_ibv_poll_error_to_fi_error e.
Proof.
  header_facts.
  assert (Hle : efa_cq_ibv_poll_error_to_fi_error e <= 0 /\
                (efa_cq_ibv_poll_error_to_fi_error e = 0 <-> e = 0)).
  { unfold efa_cq_ibv_poll_error_to_fi_error.
    destruct (e =? ENOENT) eqn:E1;
      [apply Z.eqb_eq in E1; lia|apply Z.eqb_neq in E1].
    destruct (0 <? e) eqn:E2;
      [apply Z.ltb_lt in E2|apply Z.ltb_ge in E2]; lia. }
  destruct Hle as [Hle Hz]. split; [exact Hle|]. split; [exact Hz|].
  apply poll_error_nonpositive. exact Hle.
Qed.

Lemma nth_error_update_nth {T : Type} (f : T -> T) (a : list T) (n j : nat) :
  nth_error (update_nth n f a) j =
  if Nat.eqb j n then option_map f (nth_error a j) else nth_error a j.
Proof.
  revert n j. induction a as [|x a IH]; intros [|n] [|j]; simpl;
    try reflexivity.
  - destruct (Nat.eqb j n); reflexivity.
  - apply IH.
Qed.

(** X2.  The context formatter writes the work-request identifier into
    entry [i] of the buffer and changes no other entry; it does not look
    at the opcode, so it formats a completion of any opcode. *)
Theorem read_context_entry_writes (wc : efa_wc) (i : Z)
  (a : list fi_cq_entry) :
  0 <= i < Z.of_nat (length a) ->
  exists a',
    efa_cq_read_context_entry wc i (Buf_fi_cq_entry a) =
    Ok (Buf_fi_cq_entry a') /\
    length a' = length a /\
    nth_error a' (Z.to_nat i) =
    Some {| ce_op_context := Verbs.wc_wr_id (ibv_wc wc) |} /\
    (forall j, j <> Z.to_nat i -> nth_error a' j = nth_error a j).
Proof.
  intros Hi. unfold efa_cq_read_context_entry.
  rewrite store_in_bounds by assumption. cbn [bind_result].
  eexists. split; [reflexivity|].
  split; [apply length_update_nth|].
  split.
  - rewrite nth_error_update_nth, Nat.eqb_refl.
    destruct (nth_error a (Z.to_nat i)) eqn:E; [reflexivity|].
    apply nth_error_None in E. lia.
  - intros j Hj. rewrite nth_error_update_nth.
    apply Nat.eqb_neq in Hj. now rewrite Hj.
Qed.

(** X3.  The message formatter, on a completion whose opcode is Send or
    Receive, replaces entry [i] by the work-request identifier, the flags
    of the opcode and the byte length, and changes no other entry; on any
    other opcode it stops on the assertion. *)
Theorem read_msg_entry_writes (wc : efa_wc) (i : Z)
  (a : list fi_cq_msg_entry) :
  0 <= i < Z.of_nat (length a) ->
  match efa_cq_opcode_to_fi_flags (Verbs.wc_opcode (ibv_wc wc)) with
  | Ok f =>
      exists a',
        efa_cq_read_msg_entry wc i (Buf_fi_cq_msg_entry a) =
        Ok (Buf_fi_cq_msg_entry a') /\
        length a' = length a /\
        nth_error a' (Z.to_nat i) =
        Some {| me_op_context := Verbs.wc_wr_id (ibv_wc wc);
                me_flags := f;
                me_len := Verbs.wc_byte_len (ibv_wc wc) |} /\
        (forall j, j <> Z.to_nat i -> nth_error a' j = nth_error a j)
  | Stop s =>
      efa_cq_read_msg_entry wc i (Buf_fi_cq_msg_entry a) = Stop AssertFailed
  end.
Proof.
  intros Hi. unfold efa_cq_read_msg_entry, efa_cq_wc_to_fi_flags.
  rewrite store_in_bounds by assumption. cbn [bind_result].
  destruct (efa_cq_opcode_to_fi_flags _) as [f|s] eqn:Ef; cbn [bind_result].
  - rewrite store_in_bounds by (rewrite length_update_nth; assumption).
    cbn [bind_result]. rewrite update_nth_twice.
    eexists. split; [reflexivity|].
    split; [apply length_update_nth|].
    split.
    + rewrite nth_error_update_nth, Nat.eqb_refl.
      destruct (nth_error a (Z.to_nat i)) eqn:E; [reflexivity|].
      apply nth_error_None in E. lia.
    + intros j Hj. rewrite nth_error_update_nth.
      apply Nat.eqb_neq in Hj. now rewrite Hj.
  - destruct (Verbs.wc_opcode (ibv_wc wc)); simpl in Ef; congruence.
Qed.

(** X4.  The data formatter, on a completion whose opcode is Send or
    Receive, writes the work-request identifier, the flags and the byte
    length into entry [i], sets its immediate data to 0 whatever the
    completion carries, keeps its [buf] field, and changes no other entry;
    on any other opcode it stops on the assertion. *)
Theorem read_data_entry_writes (wc : efa_wc) (i : Z)
  (a : list fi_cq_data_entry) (old : fi_cq_data_entry) :
  0 <= i -> nth_error a (Z.to_nat i) = Some old ->
  match efa_cq_opcode_to_fi_flags (Verbs.wc_opcode (ibv_wc wc)) with
  | Ok f =>
      exists a',
        efa_cq_read_data_entry wc i (Buf_fi_cq_data_entry a) =
        Ok (Buf_fi_cq_data_entry a') /\
        length a' = length a /\
        nth_error a' (Z.to_nat i) =
        Some {| de_op_context := Verbs.wc_wr_id (ibv_wc wc);
                de_flags := f;
                de_len := Verbs.wc_byte_len (ibv_wc wc);
                de_buf := de_buf old;
                de_data := 0 |} /\
        (forall j, j <> Z.to_nat i -> nth_error a' j = nth_error a j)
  | Stop s =>
      efa_cq_read_data_entry wc i (Buf_fi_cq_data_entry a) = Stop AssertFailed
  end.
Proof.
  intros Hi0 Hold.
  assert (Hi : 0 <= i < Z.of_nat (length a)).
  { assert (Z.to_nat i < length a)%nat
      by (apply nth_error_Some; congruence). lia. }
  unfold efa_cq_read_data_entry, efa_cq_wc_to_fi_flags.
  rewrite store_in_bounds by assumption. cbn [bind_result].
  destruct (efa_cq_opcode_to_fi_flags _) as [f|s] eqn:Ef; cbn [bind_result].
  - rewrite store_in_bounds by (rewrite length_update_nth; assumption).
    cbn [bind_result]. rewrite update_nth_twice.
    eexists. split; [reflexivity|].
    split; [apply length_update_nth|].
    split.
    + rewrite nth_error_update_nth, Nat.eqb_refl, Hold. reflexivity.
    + intros j Hj. rewrite nth_error_update_nth.
      apply Nat.eqb_neq in Hj. now rewrite Hj.
  - destruct (Verbs.wc_opcode (ibv_wc wc)); simpl in Ef; congruence.
Qed.

End Translation_and_formatters.

(** ** Further properties: teardown and creation *)

Section More_lifecycle.
Context {hdr : headers}.

(** X5.  [efa_cq_close] always destroys the buffer pool and the lock and
    then tries to destroy the ring, on every path.  It returns the negated
    result of a failed ring destruction without cleaning the utility
    queue, otherwise the result of [ofi_cq_cleanup]; it frees the queue
    object exactly when it returns 0. *)
Theorem close_frees_iff_zero (env : close_env) (q : efa_cq) :
  exists r t,
    run (efa_cq_close env) q = Ok (r, {| cq := q; trace := t |}) /\
    firstn 3 t = [Ev_bufpool_destroy; Ev_spin_destroy; Ev_destroy_cq] /\
    r = (if ibv_destroy_cq_ret env =? 0 then ofi_cq_cleanup_ret env
         else - ibv_destroy_cq_ret env) /\
    count_event is_cq_cleanup t =
      (if ibv_destroy_cq_ret env =? 0 then 1%nat else 0%nat) /\
    count_event is_free t = (if r =? 0 then 1%nat else 0%nat) /\
    (r = 0 <-> ibv_destroy_cq_ret env = 0 /\ ofi_cq_cleanup_ret env = 0).
Proof.
  unfold efa_cq_close. run_monad.
  destruct (ibv_destroy_cq_ret env =? 0) eqn:Ed.
  - apply Z.eqb_eq in Ed. rewrite Ed. cbn [Z.opp Z.eqb negb].
    destruct (ofi_cq_cleanup_ret env =? 0) eqn:Ec; cbn [negb].
    + apply Z.eqb_eq in Ec. rewrite Ec.
      eexists. eexists. split; [reflexivity|]. repeat split; reflexivity.
    + eexists. eexists. split; [reflexivity|].
      rewrite Ec. apply Z.eqb_neq in Ec.
      repeat split; try reflexivity; tauto.
  - apply Z.eqb_neq in Ed.
    destruct (- ibv_destroy_cq_ret env =? 0) eqn:En;
      [apply Z.eqb_eq in En; lia|]. cbn [negb].
    eexists. eexists. split; [reflexivity|].
    rewrite En. repeat split; try reflexivity; try tauto. all: lia.
Qed.

Ltac open_cases env attr :=
  unfold efa_cq_open, requested_cqe;
  replace (if negb (size attr =? 0) then size attr else EFA_DEF_CQ_SIZE)
    with (if size attr =? 0 then EFA_DEF_CQ_SIZE else size attr)
    by (destruct (size attr =? 0); reflexivity);
  destruct (wait_obj attr) eqn:Ew; cbn [fi_wait_obj_eqb negb];
  try (destruct (calloc_ok env) eqn:Ec; cbn [negb];
       try (destruct (ofi_cq_init_ret env =? 0) eqn:Ei; cbn [negb];
            try (destruct (ibv_create_cq_ex_ret env
                             (uint32_of
                                (if size attr =? 0 then EFA_DEF_CQ_SIZE
                                 else size attr))) as [r0|] eqn:Er;
                 try (destruct (ofi_bufpool_create_ret env =? 0) eqn:Eb;
                      cbn [negb];
                      try (destruct (format attr) eqn:Ef))))).

(** X6.  [efa_cq_open] returns 0 exactly when it hands out a queue, and
    that is exactly when the wait object is FI_WAIT_NONE, the allocation,
    the utility queue, the ring and the pool are all obtained, and the
    layout is one of unspecified, context, message and data.  Otherwise
    the first step that fails decides the non-zero result: -FI_ENOSYS for
    the wait object, -FI_ENOMEM for the allocation, the result of
    [ofi_cq_init], -FI_EINVAL for the ring, the result of
    [ofi_bufpool_create], -FI_ENOSYS for the layout. *)
Theorem open_returns_zero_iff (env : open_env) (d : efa_domain)
  (attr : fi_cq_attr) :
  (fst (fst (efa_cq_open env d attr)) = 0 <-> open_succeeds env attr) /\
  (snd (fst (efa_cq_open env d attr)) <> None <-> open_succeeds env attr) /\
  (wait_obj attr <> FI_WAIT_NONE ->
   fst (fst (efa_cq_open env d attr)) = - FI_ENOSYS) /\
  (wait_obj attr = FI_WAIT_NONE ->
   (calloc_ok env = false ->
    fst (fst (efa_cq_open env d attr)) = - FI_ENOMEM) /\
   (calloc_ok env = true ->
    (ofi_cq_init_ret env <> 0 ->
     fst (fst (efa_cq_open env d attr)) = ofi_cq_init_ret env) /\
    (ofi_cq_init_ret env = 0 ->
     (ibv_create_cq_ex_ret env (requested_cqe attr) = None ->
      fst (fst (efa_cq_open env d attr)) = - FI_EINVAL) /\
     (ibv_create_cq_ex_ret env (requested_cqe attr) <> None ->
      (ofi_bufpool_create_ret env <> 0 ->
       fst (fst (efa_cq_open env d attr)) = ofi_bufpool_create_ret env) /\
      (ofi_bufpool_create_ret env = 0 ->
       layout_binding (format attr) = None ->
       fst (fst (efa_cq_open env d attr)) = - FI_ENOSYS))))).
Proof.
  header_facts. unfold open_succeeds.
  open_cases env attr; cbn [fst snd layout_binding];
    repeat match goal with
           | H : (_ =? _) = true |- _ => apply Z.eqb_eq in H
           | H : (_ =? _) = false |- _ => apply Z.eqb_neq in H
           end;
    repeat split; intros; try discriminate; try congruence; try lia;
    try tauto;
    try (match goal with
         | H : _ /\ _ |- _ => decompose [and] H; clear H
         end; try discriminate; try congruence; try lia).
Qed.

(** What [efa_cq_open] has obtained and released when it returns. *)
Lemma open_counts (env : open_env) (d : efa_domain) (attr : fi_cq_attr) :
  match efa_cq_open env d attr with
  | (_, None, t) =>
      balanced t /\ count_event is_spin_init t = 0%nat
  | (_, Some _, t) =>
      (count_event is_calloc_ok t = 1%nat /\
       count_event is_cq_init_ok t = 1%nat /\
       count_event is_create_cq_ex_ok t = 1%nat /\
       count_event is_bufpool_create_ok t = 1%nat /\
       count_event is_spin_init t = 1%nat) /\
      (count_event is_free t = 0%nat /\
       count_event is_cq_cleanup t = 0%nat /\
       count_event is_destroy_cq t = 0%nat /\
       count_event is_bufpool_destroy t = 0%nat /\
       count_event is_spin_destroy t = 0%nat)
  end.
Proof.
  open_cases env attr; unfold balanced, err_destroy_pool, err_destroy_cq,
    err_free_util_cq, err_free_cq;
    cbn [app count_event filter length is_calloc_ok is_cq_init_ok
         is_create_cq_ex_ok is_bufpool_create_ok is_spin_init is_free
         is_cq_cleanup is_destroy_cq is_bufpool_destroy is_spin_destroy];
    rewrite ?Ei, ?Eb; cbn [length]; repeat split; reflexivity.
Qed.

(** X7.  [efa_cq_open] leaks nothing: on every failing path each object,
    utility queue, ring and pool it obtained has been released again by
    the time it returns, and the lock was never initialised.  On success
    it has obtained each of the four exactly once, initialised the lock
    once, and released nothing. *)
Theorem open_failure_releases_everything (env : open_env) (d : efa_domain)
  (attr : fi_cq_attr) :
  match efa_cq_open env d attr with
  | (_, None, t) => balanced t /\ count_event is_spin_init t = 0%nat
  | (_, Some _, t) =>
      count_event is_calloc_ok t = 1%nat /\
      count_event is_cq_init_ok t = 1%nat /\
      count_event is_create_cq_ex_ok t = 1%nat /\
      count_event is_bufpool_create_ok t = 1%nat /\
      count_event is_spin_init t = 1%nat /\
      count_event is_free t = 0%nat /\
      count_event is_cq_cleanup t = 0%nat /\
      count_event is_destroy_cq t = 0%nat /\
      count_event is_bufpool_destroy t = 0%nat
  end.
Proof.
  pose proof (open_counts env d attr) as H.
  destruct (efa_cq_open env d attr) as [[r [q|]] t]; [|exact H].
  tauto.
Qed.

(** X8.  Creation followed by teardown: when [efa_cq_open] hands out a
    queue and [efa_cq_close] is then called on it, the lock initialised
    by the one is destroyed by the other, and the calls of the two
    together release the object, the utility queue, the ring and the pool
    exactly as often as they obtained them if and only if [efa_cq_close]
    returns 0. *)
Theorem open_then_close_balanced (env : open_env) (cenv : close_env)
  (d : efa_domain) (attr : fi_cq_attr) (r : Z) (q : efa_cq)
  (t : list event) :
  efa_cq_open env d attr = (r, Some q, t) ->
  exists r' t',
    run (efa_cq_close cenv) q = Ok (r', {| cq := q; trace := t' |}) /\
    count_event is_spin_init (t ++ t') = 1%nat /\
    count_event is_spin_destroy (t ++ t') = 1%nat /\
    (balanced (t ++ t') <-> r' = 0).
Proof.
  intros Ho.
  pose proof (open_counts env d attr) as Hb.
  rewrite Ho in Hb.
  destruct Hb as ((H1 & H2 & H3 & H4 & H5) & H6 & H7 & H8 & H9 & H10).
  unfold balanced. setoid_rewrite count_event_app.
  rewrite H1, H2, H3, H4, H5, H6, H7, H8, H9, H10.
  unfold efa_cq_close. run_monad.
  destruct (- ibv_destroy_cq_ret cenv =? 0) eqn:Ed; cbn [negb].
  - destruct (ofi_cq_cleanup_ret cenv =? 0) eqn:Ec; cbn [negb].
    + eexists. eexists. split; [reflexivity|].
      cbn. repeat split; reflexivity.
    + apply Z.eqb_neq in Ec. eexists. eexists. split; [reflexivity|].
      cbn. repeat split; try reflexivity; intros; try tauto;
        try (decompose [and] H; discriminate).
  - apply Z.eqb_neq in Ed. eexists. eexists. split; [reflexivity|].
    cbn. repeat split; try reflexivity; intros; try lia;
      try (decompose [and] H; discriminate).
Qed.

End More_lifecycle.

Lemma read_context_entry_writes_witness :
  exists a',
    efa_cq_read_context_entry More_examples.wc100 1
      (Buf_fi_cq_entry [More_examples.ctx0; More_examples.ctx0]) =
    Ok (Buf_fi_cq_entry a') /\
    nth_error a' 1 = Some {| ce_op_context := 100 |} /\
    nth_error a' 0 = Some More_examples.ctx0.
Proof.
  destruct (read_context_entry_writes More_examples.wc100 1
              [More_examples.ctx0; More_examples.ctx0])
    as (a' & Hr & _ & Hi & Ho); [cbn; lia|].
  exists a'. split; [exact Hr|]. split; [exact Hi|].
  apply (Ho 0%nat). discriminate.
Defined.

Lemma read_msg_entry_writes_witness :
  exists a',
    efa_cq_read_msg_entry (hdr := linux_headers) More_examples.wc100 1
      (Buf_fi_cq_msg_entry [Examples.msg0; Examples.msg0]) =
    Ok (Buf_fi_cq_msg_entry a') /\
    nth_error a' 1 = Some Examples.e100 /\
    nth_error a' 0 = Some Examples.msg0.
Proof.
  pose proof (read_msg_entry_writes (hdr := linux_headers)
                More_examples.wc100 1 [Examples.msg0; Examples.msg0]) as H.
  cbn in H. destruct H as (a' & Hr & _ & Hi & Ho); [lia|].
  exists a'. split; [exact Hr|]. split; [exact Hi|].
  apply (Ho 0%nat). discriminate.
Defined.

Lemma read_data_entry_writes_witness :
  exists a',
    efa_cq_read_data_entry (hdr := linux_headers) More_examples.wc100 0
      (Buf_fi_cq_data_entry [More_examples.data0]) =
    Ok (Buf_fi_cq_data_entry a') /\
    nth_error a' 0 =
    Some {| de_op_context := 100; de_flags := 2050; de_len := 10;
            de_buf := 77; de_data := 0 |}.
Proof.
  pose proof (read_data_entry_writes (hdr := linux_headers)
                More_examples.wc100 0 [More_examples.data0]
                More_examples.data0) as H.
  cbn in H. destruct H as (a' & Hr & _ & Hi & _); [lia|reflexivity|].
  exists a'. split; [exact Hr|exact Hi].
Defined.

Lemma open_then_close_balanced_witness :
  exists q t r' t',
    efa_cq_open (hdr := linux_headers) More_examples.all_ok
      Examples.the_domain More_examples.attr_msg = (0, Some q, t) /\
    run (efa_cq_close More_examples.close_ok) q =
    Ok (r', {| cq := q; trace := t' |}) /\
    (balanced (t ++ t') <-> r' = 0).
Proof.
  eexists. eexists.
  destruct (open_then_close_balanced (hdr := linux_headers)
              More_examples.all_ok More_examples.close_ok
              Examples.the_domain More_examples.attr_msg 0 _ _ eq_refl)
    as (r' & t' & Hr & _ & _ & Hb).
  exists r', t'. split; [reflexivity|]. split; [exact Hr|exact Hb].
Defined.

(** ** Further properties: reads on any ring *)

Section Reads_on_any_ring.
Context {hdr : headers}.

Lemma nth_error_length_map {A B : Type} (f : A -> B) (pre : list A)
  (r : list B) :
  nth_error (map f pre ++ r) (length pre) = hd_error r.
Proof.
  induction pre as [|x pre IH]; [destruct r; reflexivity|exact IH].
Qed.

Lemma status_next_poll (c : Verbs.ibv_cqe) (rest : list Verbs.ring_slot)
  (q0 : Verbs.ibv_cq_ex) :
  Verbs.status
    (snd (Verbs.ibv_next_poll (Verbs.read_current (cursor_on c rest q0)))) =
  match rest with
  | Verbs.Completion c' :: _ => Verbs.cqe_status c'
  | _ => Verbs.cqe_status c
  end.
Proof.
  rewrite next_poll_read. destruct rest as [|[c'|code] rest']; reflexivity.
Qed.

Lemma status_read_current (q : Verbs.ibv_cq_ex) :
  Verbs.status (Verbs.read_current q) = Verbs.status q.
Proof. unfold Verbs.read_current. destruct (Verbs.cursor q); reflexivity. Qed.

(** What is left of a ring that starts with ready completions, once the
    slots a read consumes are taken off. *)
Lemma skipn_consumed_slots (cs : list Verbs.ibv_cqe)
  (rest : list Verbs.ring_slot) :
  forall n : nat,
    forallb ready cs = true ->
    match rest with
    | Verbs.Completion c :: _ => ready c = false
    | _ => True
    end ->
    skipn (consumed_slots (map Verbs.Completion cs ++ rest) n)
      (map Verbs.Completion cs ++ rest) =
    if (length cs <? n)%nat then
      match rest with
      | Verbs.Completion _ :: rest' => rest'
      | _ => rest
      end
    else map Verbs.Completion (skipn n cs) ++ rest.
Proof.
  induction cs as [|c cs IH]; intros n Hready Hrest.
  - cbn [map app length skipn]. destruct n as [|n].
    + destruct rest as [|[c|code] rest']; reflexivity.
    + rewrite skipn_nil.
      destruct rest as [|[c|code] rest']; cbn [consumed_slots app];
        try reflexivity.
      rewrite Hrest. reflexivity.
  - cbn [forallb] in Hready. apply andb_true_iff in Hready.
    destruct Hready as [Hc Hready].
    cbn [map app length]. destruct n as [|n]; [reflexivity|].
    cbn [consumed_slots]. rewrite Hc.
    change (skipn (S (consumed_slots (map Verbs.Completion cs ++ rest) n))
              (Verbs.Completion c :: map Verbs.Completion cs ++ rest))
      with (skipn (consumed_slots (map Verbs.Completion cs ++ rest) n)
              (map Verbs.Completion cs ++ rest)).
    rewrite (IH n Hready Hrest). reflexivity.
Qed.

Lemma poll_error_nonpos (e : Z) : efa_cq_ibv_poll_error_to_fi_error e <= 0.
Proof.
  unfold efa_cq_ibv_poll_error_to_fi_error. header_facts.
  destruct (e =? ENOENT); [lia|].
  destruct (0 <? e) eqn:E; [apply Z.ltb_lt in E|apply Z.ltb_ge in E]; lia.
Qed.

Lemma poll_error_neg (e : Z) :
  e <> 0 -> efa_cq_ibv_poll_error_to_fi_error e < 0.
Proof.
  unfold efa_cq_ibv_poll_error_to_fi_error. header_facts. intros He.
  destruct (e =? ENOENT); [lia|].
  destruct (0 <? e) eqn:E; [apply Z.ltb_lt in E|apply Z.ltb_ge in E]; lia.
Qed.

Lemma poll_error_ssize (e : Z) :
  int_range e ->
  - SSIZE_MAX - 1 <= efa_cq_ibv_poll_error_to_fi_error e <= SSIZE_MAX.
Proof.
  unfold int_range, efa_cq_ibv_poll_error_to_fi_error, SSIZE_MAX, INT_MAX.
  header_facts. intros He.
  destruct (e =? ENOENT); [unfold INT_MAX in *; lia|].
  destruct (0 <? e); lia.
Qed.

(** The loop once the cursor has moved past the last completion it
    formats: it leaves at its test or at the status check, and writes
    nothing more.  A failed completion it stops on has been read. *)
Lemma readfrom_loop_tail (fuel : nat) (count : Z) (l : locals) (w : world)
  (c : Verbs.ibv_cqe) (rest : list Verbs.ring_slot) (q0 : Verbs.ibv_cq_ex) :
  l_err l =
    fst (Verbs.ibv_next_poll (Verbs.read_current (cursor_on c rest q0))) ->
  ibv_cq_ex (cq w) =
    snd (Verbs.ibv_next_poll (Verbs.read_current (cursor_on c rest q0))) ->
  count <= l_num_cqe l \/
  (match rest with
   | [] => True
   | Verbs.RingFault code :: _ => code <> 0
   | Verbs.Completion c' :: _ => ready c' = false
   end /\ (0 < fuel)%nat) ->
  exists l' w',
    readfrom_loop fuel count l w = Ok (l', w') /\
    l_num_cqe l' = l_num_cqe l /\ l_buf l' = l_buf l /\
    l_src_addr l' = l_src_addr l /\
    Verbs.status (ibv_cq_ex (cq w')) = Verbs.status (ibv_cq_ex (cq w)) /\
    Verbs.consume (ibv_cq_ex (cq w')) =
      if l_num_cqe l <? count then
        match rest with
        | Verbs.Completion _ :: rest' => rest'
        | _ => rest
        end
      else rest.
Proof.
  intros He Hq Hcase.
  assert (Hkeep : Verbs.consume (ibv_cq_ex (cq w)) = rest).
  { rewrite Hq, next_poll_read.
    destruct rest as [|[c'|code] rest']; reflexivity. }
  destruct (Z_le_gt_dec count (l_num_cqe l)) as [Hc|Hc].
  { exists l, w. rewrite readfrom_loop_stops by (right; exact Hc).
    replace (l_num_cqe l <? count) with false
      by (symmetry; apply Z.ltb_ge; exact Hc).
    auto 10. }
  destruct Hcase as [Hc'|[Hs Hf]]; [lia|].
  replace (l_num_cqe l <? count) with true
    by (symmetry; apply Z.ltb_lt; lia).
  rewrite next_poll_read in He, Hq.
  destruct rest as [|[c'|code] rest'].
  - cbn [fst] in He.
    exists l, w. rewrite readfrom_loop_stops by (left; header_facts; lia).
    auto 10.
  - cbn [fst snd] in He, Hq.
    destruct fuel as [|fuel]; [lia|].
    destruct (readfrom_loop_break fuel count l w) as (wc & Hloop);
      [exact He | lia | |].
    { rewrite Hq. cbn [cursor_on Verbs.status].
      unfold ready in Hs. apply Z.eqb_neq. exact Hs. }
    rewrite Hloop. eexists. eexists. split; [reflexivity|].
    cbn [l_num_cqe l_buf l_src_addr read_world cq].
    autorewrite with efa_cq. rewrite status_read_current, Hq.
    repeat split.
  - cbn [fst] in He.
    exists l, w. rewrite readfrom_loop_stops by (left; lia).
    auto 10.
Qed.

Lemma readfrom_ret_count (l : locals) :
  0 < l_num_cqe l <= INT_MAX + 1 -> readfrom_ret l = l_num_cqe l.
Proof.
  intros Hn. unfold readfrom_ret.
  replace (l_num_cqe l =? 0) with false by (symmetry; apply Z.eqb_neq; lia).
  cbn [negb]. apply ssize_t_of_small. unfold SSIZE_MAX, INT_MAX in *. lia.
Qed.

Lemma readfrom_ret_error (l : locals) :
  l_num_cqe l = 0 -> int_range (l_err l) ->
  readfrom_ret l = efa_cq_ibv_poll_error_to_fi_error (l_err l).
Proof.
  intros Hn He. unfold readfrom_ret. rewrite Hn. cbn [Z.eqb negb].
  apply ssize_t_of_size_t_of, poll_error_ssize, He.
Qed.

(** A read on a ring that starts with the ready completions [cs] and goes
    on with the end of the ring, a ring fault or a failed completion. *)
Lemma readfrom_on_prefix (q : efa_cq) (cs : list Verbs.ibv_cqe)
  (rest : list Verbs.ring_slot) (b : cq_buf) (count : Z)
  (src_addr : option (list Z)) :
  lock q = false -> 0 <= count ->
  Verbs.ring (ibv_cq_ex q) = map Verbs.Completion cs ++ rest ->
  forallb ready cs = true ->
  forallb (formattable q (wants_addr src_addr)) cs = true ->
  match rest with
  | [] => True
  | Verbs.RingFault code :: _ => code <> 0 /\ int_range code
  | Verbs.Completion c :: _ => ready c = false
  end ->
  Z.of_nat (length cs) <= INT_MAX + 1 ->
  room q b count src_addr = true ->
  exists w,
    run (efa_cq_readfrom b count src_addr) q =
    Ok ((match firstn (Z.to_nat count) cs with
         | [] => empty_read_ret (Verbs.ring (ibv_cq_ex q)) count
         | _ :: _ => Z.of_nat (length (firstn (Z.to_nat count) cs))
         end,
         formatted (firstn (Z.to_nat count) cs) b,
         resolved (domain q) (firstn (Z.to_nat count) cs) src_addr), w) /\
    lock (cq w) = false /\
    Verbs.ring (ibv_cq_ex (cq w)) =
      skipn (consumed_slots (Verbs.ring (ibv_cq_ex q)) (Z.to_nat count))
        (Verbs.ring (ibv_cq_ex q)) /\
    Verbs.status (ibv_cq_ex (cq w)) =
      match
        nth_error (Verbs.ring (ibv_cq_ex q))
          (length (firstn (Z.to_nat count) cs))
      with
      | Some (Verbs.Completion c) => Verbs.cqe_status c
      | _ =>
          match firstn (Z.to_nat count) cs with
          | [] => Verbs.status (ibv_cq_ex q)
          | _ :: _ => 0
          end
      end.
Proof.
  intros Hl Hc0 Hr Hready Hfmt Hrest Hint Hroom.
  assert (Hskip :
            skipn (consumed_slots (Verbs.ring (ibv_cq_ex q))
                     (Z.to_nat count)) (Verbs.ring (ibv_cq_ex q)) =
            if (length cs <? Z.to_nat count)%nat then
              match rest with
              | Verbs.Completion _ :: rest' => rest'
              | _ => rest
              end
            else map Verbs.Completion (skipn (Z.to_nat count) cs) ++ rest).
  { rewrite Hr. apply skipn_consumed_slots; [exact Hready|].
    destruct rest as [|[c|code] rest']; auto. }
  rewrite Hskip. clear Hskip.
  destruct cs as [|c cs].
  - (* nothing ready at the head of the ring *)
    cbn [map app] in Hr. rewrite firstn_nil, formatted_nil, resolved_nil.
    rewrite skipn_nil. cbn [length map app]. rewrite Hr.
    destruct rest as [|[bad|code] rest'].
    + rewrite readfrom_empty by assumption.
      eexists. split; [reflexivity|]. cbn [cq]. rewrite Hr.
      destruct (0 <? Z.to_nat count)%nat; auto.
    + rewrite readfrom_unfold by assumption. cbv zeta. unfold started.
      rewrite (start_poll_completion _ _ _ Hr). cbn [fst snd].
      assert (Hst : Verbs.cqe_status bad <> 0)
        by (unfold ready in Hrest; apply Z.eqb_neq; exact Hrest).
      cbn [empty_read_ret]. rewrite Hrest, orb_false_r.
      destruct (Z.eq_dec count 0) as [->|Hc].
      * rewrite readfrom_loop_stops
          by (right; cbn [loop_entry l_num_cqe]; lia).
        rewrite readfrom_ret_error
          by (cbn [loop_entry l_num_cqe l_err];
              first [reflexivity | unfold int_range, INT_MAX; lia]).
        cbn [loop_entry l_err l_buf l_src_addr Z.eqb].
        rewrite poll_error_nonpositive by lia.
        eexists. split; [reflexivity|]. split; [apply lock_finished|].
        split; reflexivity.
      * replace (Z.to_nat count) with (S (Z.to_nat count - 1)) by lia.
        match goal with
        | |- context [readfrom_loop (S ?f) count ?l ?w] =>
            destruct (readfrom_loop_break f count l w) as (wc & Hloop);
              [reflexivity | cbn [loop_entry l_num_cqe]; lia | exact Hst |]
        end.
        rewrite Hloop. clear Hloop.
        header_facts.
        rewrite readfrom_ret_error
          by (cbn [loop_entry l_num_cqe l_err];
              first [reflexivity | unfold int_range, INT_MAX in *; lia]).
        cbn [loop_entry l_err l_num_cqe l_buf l_src_addr].
        rewrite poll_error_nonpositive by lia.
        replace (count =? 0) with false
          by (symmetry; apply Z.eqb_neq; exact Hc).
        eexists. split; [reflexivity|]. split; [apply lock_finished|].
        split; reflexivity.
    + destruct Hrest as [Hcode Hrange].
      rewrite readfrom_unfold by assumption. cbv zeta. unfold started.
      rewrite (start_poll_fault _ _ _ Hr Hcode). cbn [fst snd].
      rewrite readfrom_loop_stops
        by (left; cbn [loop_entry l_err]; exact Hcode).
      rewrite readfrom_ret_error
        by (cbn [loop_entry l_num_cqe l_err];
            first [reflexivity | exact Hrange]).
      cbn [loop_entry l_err l_buf l_src_addr empty_read_ret].
      eexists. split; [reflexivity|]. split; [apply lock_finished|].
      unfold finished. cbn [cq].
      replace (code =? 0) with false
        by (symmetry; apply Z.eqb_neq; exact Hcode).
      autorewrite with efa_cq. rewrite Hr.
      destruct (0 <? Z.to_nat count)%nat; split; reflexivity.
  - (* at least one ready completion *)
    cbn [map app] in Hr.
    destruct (Z.eq_dec count 0) as [->|Hc].
    + cbn [Z.to_nat firstn length skipn Nat.ltb Nat.leb].
      rewrite formatted_nil, resolved_nil.
      rewrite readfrom_unfold by assumption. cbv zeta. unfold started.
      rewrite (start_poll_completion _ _ _ Hr). cbn [fst snd].
      rewrite readfrom_loop_stops
        by (right; cbn [loop_entry l_num_cqe]; lia).
      rewrite readfrom_ret_error
        by (cbn [loop_entry l_num_cqe l_err];
            first [reflexivity | unfold int_range, INT_MAX; lia]).
      cbn [loop_entry l_err l_buf l_src_addr].
      rewrite poll_error_nonpositive by lia.
      rewrite Hr. cbn [empty_read_ret Z.eqb orb].
      eexists. split; [reflexivity|]. split; [apply lock_finished|].
      split; reflexivity.
    + remember (Z.to_nat count - 1)%nat as m eqn:Em.
      assert (Ecount : Z.to_nat count = S m) by lia.
      rewrite Ecount. cbn [firstn].
      pose proof (firstn_skipn m cs) as Hsplit.
      assert (Hr' : Verbs.ring (ibv_cq_ex q) =
                    Verbs.Completion c :: map Verbs.Completion (firstn m cs)
                      ++ (map Verbs.Completion (skipn m cs) ++ rest)).
      { rewrite Hr, app_assoc, <- map_app, Hsplit. reflexivity. }
      assert (Hlen : length (firstn m cs) = Nat.min m (length cs))
        by apply length_firstn.
      assert (Hready' : forallb ready (c :: firstn m cs) = true).
      { cbn [forallb] in *. apply andb_true_iff in Hready.
        destruct Hready as [Hrc Hrcs]. rewrite Hrc. cbn [andb].
        rewrite <- Hsplit, forallb_app in Hrcs.
        apply andb_true_iff in Hrcs. tauto. }
      assert (Hfmt' : forallb (formattable q (wants_addr src_addr))
                        (c :: firstn m cs) = true).
      { cbn [forallb] in *. apply andb_true_iff in Hfmt.
        destruct Hfmt as [Hrc Hrcs]. rewrite Hrc. cbn [andb].
        rewrite <- Hsplit, forallb_app in Hrcs.
        apply andb_true_iff in Hrcs. tauto. }
      destruct (readfrom_ready_run q c (firstn m cs)
                  (map Verbs.Completion (skipn m cs) ++ rest) b count
                  src_addr Hl Hr' Hready' Hfmt') as (wc & t & Hrun);
        try assumption.
      { cbn [length]. lia. }
      { cbn [length] in *. lia. }
      rewrite Hrun. clear Hrun.
      match goal with
      | |- context [readfrom_loop ?f count ?l ?w] =>
          destruct (readfrom_loop_tail f count l w (last (firstn m cs) c)
                      (map Verbs.Completion (skipn m cs) ++ rest)
                      (Verbs.set_polling true (ibv_cq_ex q)))
            as (l' & w' & Hloop & Hn & Hb & Hs & Hst & Hcons);
            [reflexivity | reflexivity | |]
      end.
      { cbn [l_num_cqe length].
        destruct (Nat.le_gt_cases m (length cs)) as [Hle|Hgt].
        - left. lia.
        - right. rewrite skipn_all2 by lia. cbn [map app].
          split; [|cbn [length]; lia].
          destruct rest as [|[bad|code] rest']; tauto. }
      rewrite Hloop. clear Hloop.
      cbn [l_num_cqe l_buf l_src_addr cq] in Hn, Hb, Hs, Hst, Hcons.
      autorewrite with efa_cq in Hst.
      rewrite readfrom_ret_count by (rewrite Hn; cbn [length] in *; lia).
      rewrite Hn, Hb, Hs.
      eexists. split; [reflexivity|]. split; [apply lock_finished|].
      unfold finished. cbn [cq Z.eqb]. autorewrite with efa_cq.
      rewrite ring_end_poll, status_end_poll, Hcons, Hst.
      split.
      2:{ rewrite status_next_poll. rewrite Hr'.
          change (nth_error
                    (Verbs.Completion c ::
                     map Verbs.Completion (firstn m cs) ++
                       (map Verbs.Completion (skipn m cs) ++ rest))
                    (length (c :: firstn m cs)))
            with (nth_error
                    (map Verbs.Completion (firstn m cs) ++
                       (map Verbs.Completion (skipn m cs) ++ rest))
                    (length (firstn m cs))).
          rewrite nth_error_length_map.
          assert (Hlast : Verbs.cqe_status (last (firstn m cs) c) = 0).
          { apply Z.eqb_eq. change (ready (last (firstn m cs) c) = true).
            apply (proj1 (forallb_forall ready (c :: firstn m cs)) Hready').
            clear. generalize c. induction (firstn m cs) as [|x l IH];
              intros c0; [left; reflexivity|].
            rewrite last_cons. right. apply IH. }
          destruct (map Verbs.Completion (skipn m cs) ++ rest)
            as [|[c'|code] r']; cbn [hd_error]; auto. }
      change (skipn (S m) (c :: cs)) with (skipn m cs).
      cbn [length].
      destruct (Nat.le_gt_cases m (length cs)) as [Hle|Hgt].
      * replace (Z.of_nat (S (length (firstn m cs))) <? count) with false
          by (symmetry; apply Z.ltb_ge; lia).
        replace (S (length cs) <? S m)%nat with false
          by (symmetry; apply Nat.ltb_ge; lia).
        reflexivity.
      * replace (Z.of_nat (S (length (firstn m cs))) <? count) with true
          by (symmetry; apply Z.ltb_lt; lia).
        replace (S (length cs) <? S m)%nat with true
          by (symmetry; apply Nat.ltb_lt; lia).
        rewrite skipn_all2 by lia. reflexivity.
Qed.

Lemma ready_prefix_spec (q : efa_cq) (want : bool)
  (slots : list Verbs.ring_slot) :
  forallb (slot_ok q want) slots = true ->
  exists rest,
    slots = map Verbs.Completion (ready_prefix slots) ++ rest /\
    forallb ready (ready_prefix slots) = true /\
    forallb (formattable q want) (ready_prefix slots) = true /\
    match rest with
    | [] => True
    | Verbs.RingFault code :: _ => code <> 0 /\ int_range code
    | Verbs.Completion c :: _ => ready c = false
    end.
Proof.
  induction slots as [|[c|code] slots IH]; intros Hok.
  - exists []. cbn. auto.
  - cbn [forallb slot_ok] in Hok. apply andb_true_iff in Hok.
    destruct Hok as [Hc Hrest]. cbn [ready_prefix].
    destruct (ready c) eqn:Er.
    + destruct (IH Hrest) as (rest & Hs & Hr & Hf & Hm).
      exists rest. cbn [map app forallb]. rewrite <- Hs, Er, Hr, Hf.
      cbn [negb orb] in Hc. rewrite Hc. auto.
    + exists (Verbs.Completion c :: slots). cbn. auto.
  - cbn [forallb slot_ok] in Hok. apply andb_true_iff in Hok.
    destruct Hok as [Hc _].
    apply andb_true_iff in Hc. destruct Hc as [Hc Hhi].
    apply andb_true_iff in Hc. destruct Hc as [Hc Hlo].
    exists (Verbs.RingFault code :: slots). cbn [ready_prefix map app forallb].
    repeat split; try reflexivity.
    + apply Z.eqb_neq. now destruct (code =? 0).
    + apply Z.leb_le in Hlo. lia.
    + apply Z.leb_le in Hhi. lia.
Qed.

Lemma length_ready_prefix (slots : list Verbs.ring_slot) :
  (length (ready_prefix slots) <= length slots)%nat.
Proof.
  induction slots as [|[c|code] slots IH]; cbn [ready_prefix length];
    try lia.
  destruct (ready c); cbn [length]; lia.
Qed.

(** What a read does on any ring the loop can go through. *)
Lemma readfrom_on_ring (q : efa_cq) (b : cq_buf) (count : Z)
  (src_addr : option (list Z)) :
  lock q = false -> 0 <= count ->
  ring_ok q (wants_addr src_addr) = true ->
  room q b count src_addr = true ->
  exists w,
    run (efa_cq_readfrom b count src_addr) q =
    Ok ((match
           firstn (Z.to_nat count) (ready_prefix (Verbs.ring (ibv_cq_ex q)))
         with
         | [] => empty_read_ret (Verbs.ring (ibv_cq_ex q)) count
         | _ :: _ =>
             Z.of_nat
               (length
                  (firstn (Z.to_nat count)
                     (ready_prefix (Verbs.ring (ibv_cq_ex q)))))
         end,
         formatted
           (firstn (Z.to_nat count)
              (ready_prefix (Verbs.ring (ibv_cq_ex q)))) b,
         resolved (domain q)
           (firstn (Z.to_nat count)
              (ready_prefix (Verbs.ring (ibv_cq_ex q)))) src_addr), w) /\
    lock (cq w) = false /\
    Verbs.ring (ibv_cq_ex (cq w)) =
      skipn (consumed_slots (Verbs.ring (ibv_cq_ex q)) (Z.to_nat count))
        (Verbs.ring (ibv_cq_ex q)).
Proof.
  intros Hl Hc0 Hok Hroom. unfold ring_ok in Hok.
  apply andb_true_iff in Hok. destruct Hok as [Hlen Hok].
  apply Z.leb_le in Hlen.
  destruct (ready_prefix_spec _ _ _ Hok) as (rest & Hs & Hr & Hf & Hm).
  pose proof (length_ready_prefix (Verbs.ring (ibv_cq_ex q))) as Hle.
  destruct (readfrom_on_prefix q (ready_prefix (Verbs.ring (ibv_cq_ex q)))
              rest b count src_addr Hl Hc0 Hs Hr Hf Hm) as (w & Hrun & H);
    [lia | exact Hroom |].
  exists w. split; [exact Hrun|]. tauto.
Qed.

(** X9.  The outcome of [efa_cq_readfrom] on any ring: with [take] the
    first [count] of the ready completions at the head of the ring, the
    call returns the length of [take] when that is not zero, and otherwise
    the try-again code on an empty ring, the translated code of a ring
    fault, the error-available code on a failed completion, and 0 when
    [count] is 0 and the ring starts with a completion.  The buffer and
    the address array come back with their first entries written from
    [take], in ring order, and the lock is free again. *)
Theorem read_returns_ready_prefix (q : efa_cq) (b : cq_buf) (count : Z)
  (src_addr : option (list Z)) :
  lock q = false -> 0 <= count ->
  ring_ok q (wants_addr src_addr) = true ->
  room q b count src_addr = true ->
  exists w,
    run (efa_cq_readfrom b count src_addr) q =
    Ok ((match
           firstn (Z.to_nat count) (ready_prefix (Verbs.ring (ibv_cq_ex q)))
         with
         | [] => empty_read_ret (Verbs.ring (ibv_cq_ex q)) count
         | _ :: _ =>
             Z.of_nat
               (length
                  (firstn (Z.to_nat count)
                     (ready_prefix (Verbs.ring (ibv_cq_ex q)))))
         end,
         formatted
           (firstn (Z.to_nat count)
              (ready_prefix (Verbs.ring (ibv_cq_ex q)))) b,
         resolved (domain q)
           (firstn (Z.to_nat count)
              (ready_prefix (Verbs.ring (ibv_cq_ex q)))) src_addr), w) /\
    lock (cq w) = false.
Proof.
  intros Hl Hc0 Hok Hroom.
  destruct (readfrom_on_ring q b count src_addr Hl Hc0 Hok Hroom)
    as (w & Hrun & Hlock & _).
  exists w. split; assumption.
Qed.

(** The slots a read consumes are the ready completions it formats and at
    most one more, a failed completion. *)
Lemma consumed_slots_bounds (slots : list Verbs.ring_slot) :
  forall n : nat,
    let k := length (firstn n (ready_prefix slots)) in
    (consumed_slots slots n = k \/
     consumed_slots slots n = S k /\ (k < n)%nat /\
     exists c, nth_error slots k = Some (Verbs.Completion c) /\
               ready c = false).
Proof.
  induction slots as [|[c|code] slots IH]; intros n; cbn zeta.
  - destruct n; left; reflexivity.
  - destruct n as [|n]; [left; reflexivity|].
    cbn [consumed_slots ready_prefix].
    destruct (ready c) eqn:Erc.
    + cbn [firstn length]. specialize (IH n). cbn zeta in IH.
      destruct IH as [IH|(IH & Hlt & c' & Hnth & Hrc)].
      * left. rewrite IH. reflexivity.
      * right. rewrite IH. split; [reflexivity|]. split; [lia|].
        exists c'. split; assumption.
    + right. rewrite firstn_nil. cbn [length].
      split; [reflexivity|]. split; [lia|].
      exists c. split; [reflexivity|exact Erc].
  - destruct n; left; reflexivity.
Qed.

(** X10.  A read takes off the ring the completions it has read, and no
    other slot: the ready completions it formats and the failed
    completion it stops on.  The ring afterwards is the ring before
    without its first slots, as many as the call returns when that is
    positive, and one more when the loop stopped on a failed completion.
    With a capacity of 0 the ring is left as it is (the zero-read is
    idempotent), and a ring that holds ready completions only loses
    exactly the ones the call reports. *)
Theorem read_consumes_what_it_read (q : efa_cq) (b : cq_buf) (count : Z)
  (src_addr : option (list Z)) (r : Z) (b' : cq_buf)
  (a' : option (list Z)) (w : world) :
  lock q = false -> 0 <= count ->
  ring_ok q (wants_addr src_addr) = true ->
  room q b count src_addr = true ->
  run (efa_cq_readfrom b count src_addr) q = Ok ((r, b', a'), w) ->
  Verbs.ring (ibv_cq_ex (cq w)) =
    skipn (consumed_slots (Verbs.ring (ibv_cq_ex q)) (Z.to_nat count))
      (Verbs.ring (ibv_cq_ex q)) /\
  (consumed_slots (Verbs.ring (ibv_cq_ex q)) (Z.to_nat count) =
     Z.to_nat r \/
   consumed_slots (Verbs.ring (ibv_cq_ex q)) (Z.to_nat count) =
     S (Z.to_nat r) /\
   Z.max r 0 < count /\
   exists c,
     nth_error (Verbs.ring (ibv_cq_ex q)) (Z.to_nat r) =
       Some (Verbs.Completion c) /\
     ready c = false) /\
  (count = 0 ->
   Verbs.ring (ibv_cq_ex (cq w)) = Verbs.ring (ibv_cq_ex q)) /\
  (forall cs, holds q cs -> forallb ready cs = true ->
   Verbs.ring (ibv_cq_ex (cq w)) =
     map Verbs.Completion (skipn (Z.to_nat r) cs)).
Proof.
  intros Hl Hc0 Hok Hroom Hrun.
  destruct (readfrom_on_ring q b count src_addr Hl Hc0 Hok Hroom)
    as (w0 & Hrun0 & _ & Hring).
  rewrite Hrun in Hrun0. injection Hrun0 as Hr Hb Ha Hw. subst w0.
  assert (Hn : Z.to_nat r =
               length (firstn (Z.to_nat count)
                         (ready_prefix (Verbs.ring (ibv_cq_ex q))))).
  { rewrite Hr.
    destruct (firstn (Z.to_nat count)
                (ready_prefix (Verbs.ring (ibv_cq_ex q)))) as [|c l] eqn:E.
    - cbn [length].
      assert (empty_read_ret (Verbs.ring (ibv_cq_ex q)) count <= 0); [|lia].
      unfold empty_read_ret. header_facts.
      destruct (Verbs.ring (ibv_cq_ex q)) as [|[c|code] rest]; [lia| |].
      + destruct ((count =? 0) || ready c); lia.
      + apply poll_error_nonpos.
    - lia. }
  pose proof (consumed_slots_bounds (Verbs.ring (ibv_cq_ex q))
                (Z.to_nat count)) as Hbound.
  cbn zeta in Hbound. rewrite <- Hn in Hbound.
  split; [exact Hring|]. split; [|split].
  - destruct Hbound as [Hb0|(Hb1 & Hlt & Hex)]; [left; exact Hb0|].
    right. split; [exact Hb1|]. split; [lia|exact Hex].
  - intros ->. rewrite Hring. reflexivity.
  - intros cs Hcs Hready. unfold holds in Hcs.
    rewrite Hring.
    destruct Hbound as [Hb0|(_ & _ & c & Hnth & Hrc)].
    + rewrite Hb0, Hcs. clear. generalize (Z.to_nat r). intros n.
      revert n. induction cs as [|c cs IH]; intros [|n]; try reflexivity.
      apply IH.
    + exfalso. rewrite Hcs in Hnth.
      apply nth_error_In, in_map_iff in Hnth.
      destruct Hnth as (c0 & Hc0' & Hin). injection Hc0' as ->.
      rewrite (proj1 (forallb_forall ready cs) Hready c Hin) in Hrc.
      discriminate.
Qed.

(** X11.  The sign of the value [efa_cq_readfrom] returns: it never
    exceeds [count]; it is positive exactly when [count] is positive and
    the ring starts with a ready completion; it is 0 exactly when [count]
    is 0 and the ring starts with a completion (ready or failed); in every
    other case it is negative.  A call that returns no positive value has
    written nothing to the buffer or the address array. *)
Theorem read_return_value (q : efa_cq) (b : cq_buf) (count : Z)
  (src_addr : option (list Z)) (r : Z) (b' : cq_buf)
  (a' : option (list Z)) (w : world) :
  lock q = false -> 0 <= count ->
  ring_ok q (wants_addr src_addr) = true ->
  room q b count src_addr = true ->
  run (efa_cq_readfrom b count src_addr) q = Ok ((r, b', a'), w) ->
  r <= count /\
  (0 < r <->
   0 < count /\
   exists c rest,
     Verbs.ring (ibv_cq_ex q) = Verbs.Completion c :: rest /\
     ready c = true) /\
  (r = 0 <->
   count = 0 /\
   exists c rest, Verbs.ring (ibv_cq_ex q) = Verbs.Completion c :: rest) /\
  (r <= 0 -> b' = b /\ a' = src_addr).
Proof.
  intros Hl Hc0 Hok Hroom Hrun.
  destruct (readfrom_on_ring q b count src_addr Hl Hc0 Hok Hroom)
    as (w0 & Hrun0 & _ & _).
  rewrite Hrun in Hrun0. injection Hrun0 as Hr Hb Ha Hw. subst w0.
  unfold ring_ok in Hok. apply andb_true_iff in Hok.
  destruct Hok as [_ Hok].
  header_facts.
  destruct (Verbs.ring (ibv_cq_ex q)) as [|[c|code] rest] eqn:Ering.
  - cbn [ready_prefix] in *. rewrite firstn_nil in *.
    rewrite formatted_nil in Hb. rewrite resolved_nil in Ha.
    cbn [empty_read_ret] in Hr.
    repeat split; intros; try lia; try assumption;
      try (decompose [and ex] H; discriminate).
  - cbn [ready_prefix empty_read_ret] in *.
    destruct (ready c) eqn:Erc.
    + destruct (Z.eq_dec count 0) as [->|Hc].
      * cbn [Z.to_nat firstn Z.eqb orb] in *.
        rewrite formatted_nil in Hb. rewrite resolved_nil in Ha.
        repeat split; intros; try lia; try assumption.
        exists c, rest. reflexivity.
      * replace (Z.to_nat count) with (S (Z.to_nat count - 1)) in * by lia.
        cbn [firstn] in Hr.
        assert (Hlen : (length (c :: firstn (Z.to_nat count - 1)
                                       (ready_prefix rest))
                        <= S (Z.to_nat count - 1))%nat).
        { cbn [length]. rewrite length_firstn. lia. }
        cbn [length] in Hr, Hlen.
        repeat split; intros; try lia.
        exists c, rest. split; [reflexivity|exact Erc].
    + rewrite firstn_nil in *.
      rewrite formatted_nil in Hb. rewrite resolved_nil in Ha.
      rewrite orb_false_r in Hr.
      destruct (count =? 0) eqn:Ec;
        [apply Z.eqb_eq in Ec|apply Z.eqb_neq in Ec].
      * repeat split; intros; try lia; try assumption.
        exists c, rest. reflexivity.
      * repeat split; intros; try lia; try assumption.
        destruct H as (_ & c0 & rest0 & H & Hrc). injection H as -> _.
        congruence.
  - cbn [ready_prefix empty_read_ret forallb slot_ok] in *.
    rewrite firstn_nil in *.
    rewrite formatted_nil in Hb. rewrite resolved_nil in Ha.
    assert (Hcode : code <> 0).
    { apply Z.eqb_neq. destruct (code =? 0); [discriminate|reflexivity]. }
    pose proof (poll_error_neg code Hcode) as Hneg.
    repeat split; intros; try lia; try assumption;
      try (decompose [and ex] H; discriminate).
Qed.

(** X12.  A ring fault met by the read loop: when the ring holds the
    ready completions [cs], no more of them than [count], and then a
    fault with a non-zero code, [efa_cq_readfrom] formats [cs] and
    returns their number; the fault's translated code is returned only
    when [cs] is empty, so the call that formats at least one completion
    does not report the fault it met. *)
Theorem read_stops_at_ring_fault (q : efa_cq) (cs : list Verbs.ibv_cqe)
  (code : Z) (tl0 : list Verbs.ring_slot) (b : cq_buf) (count : Z)
  (src_addr : option (list Z)) :
  lock q = false ->
  Verbs.ring (ibv_cq_ex q) =
    map Verbs.Completion cs ++ Verbs.RingFault code :: tl0 ->
  forallb ready cs = true ->
  forallb (formattable q (wants_addr src_addr)) cs = true ->
  code <> 0 -> int_range code ->
  Z.of_nat (length cs) <= count ->
  Z.of_nat (length cs) <= INT_MAX + 1 ->
  room q b count src_addr = true ->
  exists w,
    run (efa_cq_readfrom b count src_addr) q =
    Ok ((match cs with
         | [] => efa_cq_ibv_poll_error_to_fi_error code
         | _ :: _ => Z.of_nat (length cs)
         end,
         formatted cs b, resolved (domain q) cs src_addr), w) /\
    lock (cq w) = false.
Proof.
  intros Hl Hr Hready Hfmt Hcode Hrange Hcount Hint Hroom.
  destruct (readfrom_on_prefix q cs (Verbs.RingFault code :: tl0) b count
              src_addr Hl ltac:(lia) Hr Hready Hfmt (conj Hcode Hrange)
              Hint Hroom) as (w & Hrun & Hlock & _).
  rewrite firstn_all2 in Hrun by lia.
  exists w. split; [|exact Hlock].
  rewrite Hrun. destruct cs; [|reflexivity].
  rewrite Hr. reflexivity.
Qed.

(** X13.  Draining the ring: a read with room for all the ready
    completions the ring holds returns their number and leaves the ring
    empty, and the next read, whatever its capacity and arrays, returns
    the try-again code, writes nothing and leaves the queue as it is. *)
Theorem read_all_then_try_again (q : efa_cq) (cs : list Verbs.ibv_cqe)
  (b : cq_buf) (count : Z) (src_addr : option (list Z))
  (b2 : cq_buf) (count2 : Z) (src_addr2 : option (list Z)) :
  lock q = false -> holds q cs -> cs <> [] ->
  forallb ready cs = true ->
  forallb (formattable q (wants_addr src_addr)) cs = true ->
  Z.of_nat (length cs) <= count ->
  Z.of_nat (length cs) <= INT_MAX + 1 ->
  room q b count src_addr = true ->
  exists w,
    run (efa_cq_readfrom b count src_addr) q =
    Ok ((Z.of_nat (length cs), formatted cs b,
         resolved (domain q) cs src_addr), w) /\
    Verbs.ring (ibv_cq_ex (cq w)) = [] /\
    run (efa_cq_readfrom b2 count2 src_addr2) (cq w) =
    Ok ((- FI_EAGAIN, b2, src_addr2),
        {| cq := cq w;
           trace := [Ev_spin_lock; Ev_start_poll ENOENT; Ev_spin_unlock] |}).
Proof.
  unfold holds. intros Hl Hr Hne Hready Hfmt Hcount Hint Hroom.
  rewrite <- (app_nil_r (map Verbs.Completion cs)) in Hr.
  destruct (readfrom_on_prefix q cs [] b count src_addr Hl ltac:(lia) Hr
              Hready Hfmt I Hint Hroom) as (w & Hrun & Hlock & Hring & _).
  rewrite firstn_all2 in Hrun by lia.
  assert (Hempty : Verbs.ring (ibv_cq_ex (cq w)) = []).
  { rewrite Hring, Hr, (skipn_consumed_slots cs [] _ Hready I).
    destruct (length cs <? Z.to_nat count)%nat; [reflexivity|].
    rewrite skipn_all2 by lia. reflexivity. }
  exists w. split; [|split; [exact Hempty|]].
  - rewrite Hrun. destruct cs; [contradiction|reflexivity].
  - apply readfrom_empty; assumption.
Qed.

(** X14.  A read that delivers completions forgets the pending error:
    when the ring holds ready completions only, at least one, then after
    a read with a positive capacity the status of the ring is 0 and
    [efa_cq_readerr] returns the try-again code and leaves the record
    alone, whatever status was pending before the read. *)
Theorem read_forgets_pending_error (q : efa_cq) (cs : list Verbs.ibv_cqe)
  (b : cq_buf) (count : Z) (src_addr : option (list Z))
  (entry : fi_cq_err_entry) (fl : Z) :
  lock q = false -> holds q cs -> cs <> [] ->
  forallb ready cs = true ->
  forallb (formattable q (wants_addr src_addr)) cs = true ->
  0 < count ->
  Z.of_nat (length cs) <= INT_MAX + 1 ->
  room q b count src_addr = true ->
  exists r w,
    run (efa_cq_readfrom b count src_addr) q = Ok (r, w) /\
    0 < fst (fst r) /\
    Verbs.status (ibv_cq_ex (cq w)) = 0 /\
    run (efa_cq_readerr entry fl) (cq w) =
    Ok ((- FI_EAGAIN, entry), {| cq := cq w; trace := lock_unlock |}).
Proof.
  unfold holds. intros Hl Hr Hne Hready Hfmt Hcount Hint Hroom.
  pose proof Hr as Hr0.
  rewrite <- (app_nil_r (map Verbs.Completion cs)) in Hr.
  destruct (readfrom_on_prefix q cs [] b count src_addr Hl ltac:(lia) Hr
              Hready Hfmt I Hint Hroom)
    as (w & Hrun & Hlock & _ & Hstatus).
  assert (Hst : Verbs.status (ibv_cq_ex (cq w)) = 0).
  { rewrite Hstatus, Hr0.
    destruct (nth_error (map Verbs.Completion cs)
                (length (firstn (Z.to_nat count) cs))) as [[c|code]|] eqn:En.
    - apply nth_error_In, in_map_iff in En.
      destruct En as (c0 & Hc0 & Hin). injection Hc0 as ->.
      apply Z.eqb_eq. change (ready c = true).
      apply (proj1 (forallb_forall ready cs) Hready). exact Hin.
    - apply nth_error_In, in_map_iff in En.
      destruct En as (c0 & Hc0 & _). discriminate.
    - destruct cs as [|c cs]; [contradiction|].
      replace (Z.to_nat count) with (S (Z.to_nat count - 1)) by lia.
      reflexivity. }
  eexists. exists w. split; [exact Hrun|]. cbn [fst].
  split; [|split; [exact Hst|apply readerr_idle; assumption]].
  destruct cs as [|c cs]; [contradiction|].
  replace (Z.to_nat count) with (S (Z.to_nat count - 1)) by lia.
  cbn [firstn length]. lia.
Qed.

End Reads_on_any_ring.

Lemma read_returns_ready_prefix_witness :
  exists w,
    run (efa_cq_readfrom (hdr := linux_headers) Examples.buf4 4
           (Some [0; 0; 0; 0])) More_examples.wide_slid =
    Ok ((2,
         Buf_fi_cq_msg_entry
           [Examples.e100;
            {| me_op_context := 105; me_flags := 1026; me_len := 50 |};
            Examples.msg0; Examples.msg0],
         Some [42; 42; 0; 0]), w) /\
    lock (cq w) = false.
Proof.
  destruct (read_returns_ready_prefix (hdr := linux_headers)
              More_examples.wide_slid Examples.buf4 4 (Some [0; 0; 0; 0]))
    as (w & Hrun & Hlock); try reflexivity; try lia.
  exists w. split; [exact Hrun|exact Hlock].
Defined.

Lemma read_consumes_what_it_read_witness :
  (exists w,
     run (efa_cq_readfrom (hdr := linux_headers) Examples.buf4 1 None)
       Examples.three_ready =
     Ok ((1,
          Buf_fi_cq_msg_entry
            [Examples.e100; Examples.msg0; Examples.msg0; Examples.msg0],
          None), w) /\
     Verbs.ring (ibv_cq_ex (cq w)) =
       [Verbs.Completion Examples.c101; Verbs.Completion Examples.c102]) /\
  (exists w,
     run (efa_cq_readfrom (hdr := linux_headers) Examples.buf4 4 None)
       Examples.two_then_failed =
     Ok ((2,
          Buf_fi_cq_msg_entry
            [Examples.e100; Examples.e101; Examples.msg0; Examples.msg0],
          None), w) /\
     Verbs.ring (ibv_cq_ex (cq w)) = [Verbs.Completion Examples.c102]).
Proof.
  split.
  - destruct (readfrom_on_ring (hdr := linux_headers) Examples.three_ready
                Examples.buf4 1 None) as (w & Hrun & _);
      try reflexivity; try lia.
    destruct (read_consumes_what_it_read (hdr := linux_headers)
                Examples.three_ready Examples.buf4 1 None _ _ _ w
                eq_refl ltac:(lia) eq_refl eq_refl Hrun) as [Hring _].
    exists w. split; [exact Hrun|exact Hring].
  - destruct (readfrom_on_ring (hdr := linux_headers)
                Examples.two_then_failed Examples.buf4 4 None)
      as (w & Hrun & _); try reflexivity; try lia.
    destruct (read_consumes_what_it_read (hdr := linux_headers)
                Examples.two_then_failed Examples.buf4 4 None _ _ _ w
                eq_refl ltac:(lia) eq_refl eq_refl Hrun) as [Hring _].
    exists w. split; [exact Hrun|exact Hring].
Defined.

Lemma read_return_value_witness :
  exists w,
    run (efa_cq_readfrom (hdr := linux_headers) Examples.buf4 0 None)
      Examples.three_ready = Ok ((0, Examples.buf4, None), w) /\
    (0 = 0 <->
     0 = 0 /\
     exists c rest,
       Verbs.ring (ibv_cq_ex Examples.three_ready) =
       Verbs.Completion c :: rest).
Proof.
  destruct (readfrom_on_ring (hdr := linux_headers) Examples.three_ready
              Examples.buf4 0 None) as (w & Hrun & _);
    try reflexivity; try lia.
  destruct (read_return_value (hdr := linux_headers)
              Examples.three_ready Examples.buf4 0 None _ _ _ w
              eq_refl ltac:(lia) eq_refl eq_refl Hrun)
    as (_ & _ & Hzero & _).
  exists w. split; [exact Hrun|exact Hzero].
Defined.

Lemma read_stops_at_ring_fault_witness :
  exists w,
    run (efa_cq_readfrom (hdr := linux_headers) Examples.buf4 4 None)
      More_examples.ready_then_fault =
    Ok ((1,
         Buf_fi_cq_msg_entry
           [Examples.e100; Examples.msg0; Examples.msg0; Examples.msg0],
         None), w) /\
    lock (cq w) = false.
Proof.
  destruct (read_stops_at_ring_fault (hdr := linux_headers)
              More_examples.ready_then_fault [Examples.c100] 22
              [Verbs.Completion Examples.c101] Examples.buf4 4 None)
    as (w & Hrun & Hlock); try reflexivity;
    try (unfold int_range, INT_MAX; cbn; lia).
  exists w. split; [exact Hrun|exact Hlock].
Defined.

Lemma read_all_then_try_again_witness :
  exists w w',
    run (efa_cq_readfrom (hdr := linux_headers) Examples.buf4 4 None)
      Examples.three_ready =
    Ok ((3,
         Buf_fi_cq_msg_entry
           [Examples.e100; Examples.e101;
            {| me_op_context := 102; me_flags := 2050; me_len := 30 |};
            Examples.msg0],
         None), w) /\
    run (efa_cq_readfrom (hdr := linux_headers) Examples.buf4 4 None) (cq w) =
    Ok ((-11, Examples.buf4, None), w').
Proof.
  destruct (read_all_then_try_again (hdr := linux_headers)
              Examples.three_ready
              [Examples.c100; Examples.c101; Examples.c102]
              Examples.buf4 4 None Examples.buf4 4 None)
    as (w & Hrun & _ & Hagain); try reflexivity;
    try discriminate; try (unfold INT_MAX; cbn; lia).
  exists w. eexists. split; [exact Hrun|exact Hagain].
Defined.

Lemma read_forgets_pending_error_witness :
  (exists e w0,
     run (efa_cq_readerr (hdr := linux_headers) Examples.err0 0)
       More_examples.faulted_then_ready = Ok ((80, e), w0)) /\
  exists r w w',
    run (efa_cq_readfrom (hdr := linux_headers) Examples.buf4 4 None)
      More_examples.faulted_then_ready = Ok (r, w) /\
    run (efa_cq_readerr (hdr := linux_headers) Examples.err0 0) (cq w) =
    Ok ((-11, Examples.err0), w').
Proof.
  split; [eexists; eexists; vm_compute; reflexivity|].
  destruct (read_forgets_pending_error (hdr := linux_headers)
              More_examples.faulted_then_ready [Examples.c100]
              Examples.buf4 4 None Examples.err0 0)
    as (r & w & Hrun & _ & _ & Herr); try reflexivity;
    try discriminate; try (unfold INT_MAX; cbn; lia).
  exists r, w. eexists. split; [exact Hrun|exact Herr].
Defined.

Section Unmapped_queue_pair.
Context {hdr : headers}.

(** X15.  The read loop uses the queue-pair table entry of a completion
    without a check: when the caller passes an address array and the
    table slot of the first ready completion's queue pair is empty, a read
    with a positive capacity stops on the null pointer, before any entry
    is formatted. *)
Theorem read_unmapped_queue_pair (q : efa_cq) (c : Verbs.ibv_cqe)
  (rest : list Verbs.ring_slot) (b : cq_buf) (count : Z) (a : list Z) :
  lock q = false ->
  Verbs.ring (ibv_cq_ex q) = Verbs.Completion c :: rest ->
  ready c = true -> 0 < count ->
  load (qp_table (domain q))
    (Z.land (Verbs.cqe_qp_num c) (qp_table_sz_m1 (domain q))) = Ok None ->
  run (efa_cq_readfrom b count (Some a)) q = Stop NullPointer.
Proof.
  intros Hl Hr Hready Hcount Hslot.
  rewrite readfrom_unfold by assumption. cbv zeta. unfold started.
  rewrite (start_poll_completion _ _ _ Hr). cbn [fst snd].
  replace (Z.to_nat count) with (S (Z.to_nat count - 1)) by lia.
  rewrite readfrom_loop_round.
  cbn [loop_entry l_err l_num_cqe l_src_addr l_buf l_wc Z.eqb andb cq].
  replace (0 <? count) with true by (symmetry; apply Z.ltb_lt; exact Hcount).
  cbv zeta. autorewrite with efa_cq.
  cbn [Verbs.set_polling cursor_on Verbs.status].
  unfold ready in Hready. rewrite Hready. cbn [negb].
  unfold store_src_addr, qp_table_av.
  cbn [efa_cq_wc_from_ibv_cq_ex_unsafe ibv_wc Verbs.wc_qp_num].
  unfold Verbs.ibv_wc_read_qp_num. cbn [Verbs.cur_cqe].
  change (Verbs.cur_cqe
            (Verbs.set_polling true (cursor_on c rest (ibv_cq_ex q))))
    with c.
  rewrite Hslot. reflexivity.
Qed.

End Unmapped_queue_pair.

Lemma read_unmapped_queue_pair_witness :
  run (efa_cq_readfrom (hdr := linux_headers) Examples.buf4 4
         (Some [0; 0; 0; 0])) More_examples.unmapped_ready =
  Stop NullPointer.
Proof.
  apply (read_unmapped_queue_pair (hdr := linux_headers)
           More_examples.unmapped_ready More_examples.c_unmapped []);
    try reflexivity.
Defined.
